(** * MLDL scripts: a verification development

The repository holds three flat Python scripts:
- [ML test.py]: an EfficientNet transfer-learning run written against
Keras (data feeds, layer stack, learning-rate schedule, checkpoint);
- the background-removal batch job ([rembg] over a directory of PNGs);
- the resize batch job (PIL over a directory of JPEGs).

The scripts are sequences of library calls.  The embedding keeps every
call of the scripts with the arguments the scripts pass, and gives the
called library routines the behaviour of the libraries the scripts
import (Keras 2.x / keras_preprocessing, Python's [glob] and [os.path],
PIL).  Numerical kernels of the libraries that the scripts merely pass
data through (interpolation, the pretrained network, the segmentation
network) are taken as parameters. *)

From Stdlib Require Import ZArith QArith Qround Reals Lra Lia.
From Stdlib Require Import String Ascii DecimalString DecimalNat.
From Stdlib Require SpecFloat.
From stdpp Require Import gmap strings list.

Local Open Scope Z_scope.

(** ** Python helpers shared by the scripts *)

Module Py.

(** [needle in haystack] on Python strings. *)
Fixpoint startswith (s p : string) : bool :=
  match p, s with
  | EmptyString, _ => true
  | String c p', String d s' => if Ascii.eqb c d then startswith s' p' else false
  | String _ _, EmptyString => false
  end.

Fixpoint contains (s sub : string) : bool :=
  startswith s sub ||
  match s with
  | EmptyString => false
  | String _ s' => contains s' sub
  end.

(** Python floats written as decimal literals are kept as exact rationals
where the scripts only hand them on or compare them. *)
Definition Qlt_bool (a b : Q) : bool := negb (Qle_bool b a).
Definition Qnonzero (a : Q) : bool := negb (Qeq_bool a 0).

(** Where a result depends on the rounding of a product, a Python [float]
is what it is: an IEEE 754 binary64 number, with the operations of the
standard (53 bits of precision, round to nearest even). *)
Definition float : Type := SpecFloat.spec_float.

Definition float_mul : float -> float -> float := SpecFloat.SFmul 53 1024.
Definition float_div : float -> float -> float := SpecFloat.SFdiv 53 1024.

(** The float an int operand is converted to: the nearest one. *)
Definition float_of_int (n : Z) : float := SpecFloat.binary_normalize 53 1024 n 0 false.

(** The float a short decimal literal denotes, the one nearest to its
value: [0.2] is the correctly rounded quotient of 2 and 10. *)
Definition float_literal (q : Q) : float :=
  float_div (float_of_int (Qnum q)) (float_of_int (Z.pos (Qden q))).

(** [int(x)] of a float: the integer part, towards zero; an infinity or a
nan raises. *)
Definition int_of_float (x : float) : option Z :=
  match x with
  | SpecFloat.S754_zero _ => Some 0
  | SpecFloat.S754_finite s m e =>
      let v := Z.shiftl (Z.pos m) e in
      Some (if s then - v else v)
  | SpecFloat.S754_infinity _ => None
  | SpecFloat.S754_nan => None
  end.

(** A float that is not below zero: a zero of either sign, or a finite
number or the infinity with the sign bit off. *)
Definition not_negative (x : float) : bool :=
  match x with
  | SpecFloat.S754_zero _ => true
  | SpecFloat.S754_finite s _ _ => negb s
  | SpecFloat.S754_infinity s => negb s
  | SpecFloat.S754_nan => false
  end.

(** A number in an arithmetic expression: an int or a float.  The product
with an int is an int for an int and a float for a float. *)
Inductive number :=
| int_value (n : Z)
| float_value (x : float).

Definition times_int (a : number) (n : Z) : number :=
  match a with
  | int_value k => int_value (k * n)
  | float_value x => float_value (float_mul x (float_of_int n))
  end.

Definition int (a : number) : option Z :=
  match a with
  | int_value k => Some k
  | float_value x => int_of_float x
  end.

End Py.

(** ** [ML test.py]: the Keras objects the script builds *)

Module Keras.

(** *** Data feeds *)

(** A decoded image: rows, columns, channels. *)
Definition image := list (list (list Q)).

(** [ImageDataGenerator]: the constructor arguments the script uses, with
the library's defaults for the ones it leaves out. *)
Record ImageDataGenerator := {
  rescale : option Q;
  rotation_range : Q;
  zoom_range : Q;
  width_shift_range : Q;
  height_shift_range : Q;
  shear_range : Q;
  horizontal_flip : bool;
  vertical_flip : bool;
  fill_mode : string;
  validation_split : Py.float
}.

Inductive Subset := training | validation.

(** The iterator returned by [flow_from_directory]; it keeps a reference
to the generator that made it and asks it for every sample. *)
Record DirectoryIterator := {
  image_data_generator : ImageDataGenerator;
  directory : string;
  target_size : Z * Z;
  subset : option Subset;
  batch_size : Z;
  color_mode : string
}.

Definition flow_from_directory (self : ImageDataGenerator) (directory : string)
    (target_size : Z * Z) (subset : option Subset) (batch_size : Z)
    (color_mode : string) : DirectoryIterator :=
  {| image_data_generator := self; directory := directory;
     target_size := target_size; subset := subset;
     batch_size := batch_size; color_mode := color_mode |}.

Definition train_path : string := "./car_image2/train".
Definition test_path : string := "./car_image2/test".

Definition train_datagen (validation_rate : Py.float) : ImageDataGenerator :=
  {| rescale := Some (1 # 255);
     rotation_range := 20;
     zoom_range := 15 # 100;
     width_shift_range := 2 # 10;
     height_shift_range := 2 # 10;
     shear_range := 15 # 100;
     horizontal_flip := true;
     vertical_flip := false;
     fill_mode := "nearest";
     validation_split := validation_rate |}.

Definition test_datagen : ImageDataGenerator :=
  {| rescale := Some (1 # 255);
     rotation_range := 0;
     zoom_range := 0;
     width_shift_range := 0;
     height_shift_range := 0;
     shear_range := 0;
     horizontal_flip := false;
     vertical_flip := false;
     fill_mode := "nearest";
     validation_split := SpecFloat.S754_zero false |}.

Definition image_generator (image_size : Z) (validation_rate : Py.float) (batch_size : Z)
    : DirectoryIterator * DirectoryIterator * DirectoryIterator :=
  let train_generator :=
    flow_from_directory (train_datagen validation_rate) train_path
      (image_size, image_size) (Some training) batch_size "rgb" in
  let val_generator :=
    flow_from_directory (train_datagen validation_rate) train_path
      (image_size, image_size) (Some validation) batch_size "rgb" in
  let test_generator :=
    flow_from_directory test_datagen test_path
      (image_size, image_size) None 1 "rgb" in
  (train_generator, val_generator, test_generator).

(** The [config] dictionary of the script. *)
Definition config : gmap string Q :=
  {[ "image_size"%string := 300%Q; "validation_rate"%string := 2 # 10;
     "batch_size"%string := 16%Q ]}.

Definition train_generator_of (g : DirectoryIterator * DirectoryIterator * DirectoryIterator) :=
  fst (fst g).
Definition val_generator_of (g : DirectoryIterator * DirectoryIterator * DirectoryIterator) :=
  snd (fst g).
Definition test_generator_of (g : DirectoryIterator * DirectoryIterator * DirectoryIterator) :=
  snd g.

(** The three feeds of the script, built from [config]. *)
Definition feeds : DirectoryIterator * DirectoryIterator * DirectoryIterator :=
  image_generator 300 (Py.float_literal (2 # 10)) 16.

Definition train_generator : DirectoryIterator := train_generator_of feeds.
Definition val_generator : DirectoryIterator := val_generator_of feeds.
Definition test_generator : DirectoryIterator := test_generator_of feeds.

(** Library side of a feed: what the iterator does with one decoded,
already resized image.  The random numbers the generator draws are an
explicit argument, each a number in [0,1). *)
Record Draws := {
  u_rotation : Q; u_height_shift : Q; u_width_shift : Q; u_shear : Q;
  u_zoom_x : Q; u_zoom_y : Q; u_flip_horizontal : Q; u_flip_vertical : Q
}.

Record TransformParameters := {
  theta : Q; tx : Q; ty : Q; shear : Q; zx : Q; zy : Q;
  flip_horizontal : bool; flip_vertical : bool
}.

Definition uniform (lo hi u : Q) : Q := (lo + (hi - lo) * u)%Q.

Definition img_rows (x : image) : Q := inject_Z (Z.of_nat (length x)).
Definition img_cols (x : image) : Q :=
  inject_Z (Z.of_nat (length (List.hd [] x))).

(** A fractional shift range (below 1) is a fraction of the image side. *)
Definition random_shift (range side u : Q) : Q :=
  if Py.Qnonzero range then
    let t := uniform (- range) range u in
    if Py.Qlt_bool range 1 then (t * side)%Q else t
  else 0%Q.

Definition get_random_transform (self : ImageDataGenerator) (x : image) (d : Draws)
    : TransformParameters :=
  let zoom_lo := (1 - zoom_range self)%Q in
  let zoom_hi := (1 + zoom_range self)%Q in
  let unit_zoom := Qeq_bool zoom_lo 1 && Qeq_bool zoom_hi 1 in
  {| theta := if Py.Qnonzero (rotation_range self)
              then uniform (- rotation_range self) (rotation_range self) (u_rotation d)
              else 0%Q;
     tx := random_shift (height_shift_range self) (img_rows x) (u_height_shift d);
     ty := random_shift (width_shift_range self) (img_cols x) (u_width_shift d);
     shear := if Py.Qnonzero (shear_range self)
              then uniform (- shear_range self) (shear_range self) (u_shear d)
              else 0%Q;
     zx := if unit_zoom then 1%Q else uniform zoom_lo zoom_hi (u_zoom_x d);
     zy := if unit_zoom then 1%Q else uniform zoom_lo zoom_hi (u_zoom_y d);
     flip_horizontal := Py.Qlt_bool (u_flip_horizontal d) (1 # 2) && horizontal_flip self;
     flip_vertical := Py.Qlt_bool (u_flip_vertical d) (1 # 2) && vertical_flip self |}.

(** The interpolating warp behind rotation, shift, shear and zoom is the
library's numerical kernel; the embedding takes it as a parameter. *)
Class Ndimage := {
  affine_transform : TransformParameters -> string -> image -> image
}.

(** A stand-in kernel that leaves the image alone, for running a feed on
draws whose warp is skipped. *)
Definition no_warp : Ndimage :=
  {| affine_transform := fun _ _ x => x |}.

(** The warp is skipped altogether when the drawn parameters are the
identity ones. *)
Definition apply_affine_transform `{Ndimage} (p : TransformParameters)
    (fill : string) (x : image) : image :=
  if Py.Qnonzero (theta p) || Py.Qnonzero (tx p) || Py.Qnonzero (ty p)
     || Py.Qnonzero (shear p)
     || negb (Qeq_bool (zx p) 1) || negb (Qeq_bool (zy p) 1)
  then affine_transform p fill x
  else x.

Definition flip_columns (x : image) : image := List.map (@List.rev (list Q)) x.
Definition flip_rows (x : image) : image := List.rev x.

Definition apply_transform `{Ndimage} (self : ImageDataGenerator)
    (x : image) (p : TransformParameters) : image :=
  let x := apply_affine_transform p (fill_mode self) x in
  let x := if flip_horizontal p then flip_columns x else x in
  let x := if flip_vertical p then flip_rows x else x in
  x.

Definition scale_pixels (r : Q) (x : image) : image :=
  List.map (List.map (List.map (fun v => (v * r)%Q))) x.

Definition standardize (self : ImageDataGenerator) (x : image) : image :=
  match rescale self with
  | Some r => scale_pixels r x
  | None => x
  end.

(** One sample of a feed: random transform, then standardisation. *)
Definition next_sample `{Ndimage} (it : DirectoryIterator) (d : Draws) (x : image)
    : image :=
  let g := image_data_generator it in
  standardize g (apply_transform g x (get_random_transform g x d)).

(** Whether a generator is configured with any augmenting transform. *)
Definition augments (g : ImageDataGenerator) : bool :=
  Py.Qnonzero (rotation_range g) || Py.Qnonzero (zoom_range g)
  || Py.Qnonzero (width_shift_range g) || Py.Qnonzero (height_shift_range g)
  || Py.Qnonzero (shear_range g) || horizontal_flip g || vertical_flip g.

(** The draw used against the validation feed: every range is hit in its
middle, so the warp is the identity, and the flip coin comes up. *)
Definition flip_draw : Draws :=
  {| u_rotation := 1 # 2; u_height_shift := 1 # 2; u_width_shift := 1 # 2;
     u_shear := 1 # 2; u_zoom_x := 1 # 2; u_zoom_y := 1 # 2;
     u_flip_horizontal := 0; u_flip_vertical := 0 |}.

(** The shape of the array a feed hands to the transform: the target size
of the feed, with three channels for the colour mode [rgb]. *)
Definition channels (mode : string) : nat :=
  if String.eqb mode "rgb" then 3
  else if String.eqb mode "rgba" then 4
  else 1.

Definition has_shape (rows cols chans : nat) (x : image) : bool :=
  Nat.eqb (length x) rows
  && forallb (fun row => Nat.eqb (length row) cols
                         && forallb (fun px => Nat.eqb (length px) chans) row) x.

Definition feed_shape (it : DirectoryIterator) (x : image) : bool :=
  has_shape (Z.to_nat (fst (target_size it))) (Z.to_nat (snd (target_size it)))
            (channels (color_mode it)) x.

(** A stored picture at the size of the feeds, 300 by 300 in three
channels: a ramp that gets brighter from the left edge to the right. *)
Definition ramp : image :=
  repeat (List.map (fun j => repeat (inject_Z (Z.of_nat j)) 3) (seq 0 300)) 300.

(** *** The layer stack *)

Inductive Activation := swish | softmax.

(** [BatchNormalization(True)] passes [True] as the layer's first
positional argument, the axis; a Python [True] is the integer 1. *)
Inductive Layer :=
| InputLayer (shape : list Z)
| KerasLayer (handle : string) (trainable : bool)
| BatchNormalization (axis : Z)
| Dense (units : nat) (activation : Activation)
| Dropout (rate : Q).

(** *** Learning-rate schedule and optimizer *)

Record PiecewiseConstantDecay := {
  boundaries : list Z;
  values : list Q
}.

Record SGD := {
  learning_rate : PiecewiseConstantDecay;
  momentum : Q;
  iterations : Z
}.

Record CompileArgs := {
  compiled_loss : string;
  compiled_optimizer : SGD;
  compiled_metrics : list string
}.

(** A [Sequential] model; [compiled] is [None] until [compile] is called. *)
Record Sequential := {
  layers : list Layer;
  compiled : option CompileArgs
}.

Definition default_handle : string :=
  "https://tfhub.dev/google/imagenet/efficientnet_v2_imagenet21k_ft1k_b3/classification/2".

Definition get_model (handle : string) (num_classes : nat) : Sequential :=
  let hub_layer := KerasLayer handle true in
  {| layers :=
       [ InputLayer [300; 300; 3];
         hub_layer;
         BatchNormalization 1;
         Dense 1024 swish;
         Dropout (25 # 100);
         Dense 512 swish;
         Dropout (25 # 100);
         Dense 256 swish;
         Dense 128 swish;
         Dense 64 swish;
         Dense num_classes softmax ];
     compiled := None |}.

Definition compile (m : Sequential) (loss : string) (optimizer : SGD)
    (metrics : list string) : Sequential :=
  {| layers := layers m;
     compiled := Some {| compiled_loss := loss; compiled_optimizer := optimizer;
                         compiled_metrics := metrics |} |}.

(** Structural views of a stack, used to state what [get_model] builds. *)
Definition dense_units (l : Layer) : option nat :=
  match l with Dense u _ => Some u | _ => None end.

Definition is_dropout (l : Layer) : bool :=
  match l with Dropout _ => true | _ => false end.

Definition is_dense (l : Layer) : bool :=
  match l with Dense _ _ => true | _ => false end.

(** Widths of the dense layers, in stack order. *)
Definition dense_widths (ls : list Layer) : list nat :=
  omap dense_units ls.

(** For every dropout layer, the layer right before it. *)
Fixpoint dropout_predecessors (ls : list Layer) : list Layer :=
  match ls with
  | l :: ((Dropout _ :: _) as rest) => l :: dropout_predecessors rest
  | _ :: rest => dropout_predecessors rest
  | [] => []
  end.

(** [PiecewiseConstantDecay.__call__]: the library lists one guarded
branch per level and hands them to an exclusive case: the value of the
single branch whose guard holds, the first value when none holds, an
error when several hold. *)
Definition pred_fn_pairs (self : PiecewiseConstantDecay) (step : Z)
    : option (list (bool * Q)) :=
  match boundaries self, values self with
  | b0 :: _, v0 :: _ =>
      let first := (step <=? b0, v0) in
      let last := (List.last (boundaries self) b0 <? step, List.last (values self) v0) in
      let middle :=
        List.map (fun '(low, high, v) => ((low <? step) && (step <=? high), v))
          (combine (combine (removelast (boundaries self)) (List.tl (boundaries self)))
                   (removelast (List.tl (values self)))) in
      Some (first :: last :: middle)
  | _, _ => None
  end.

Definition tf_case (pairs : list (bool * Q)) (default : Q) : option Q :=
  match List.filter fst pairs with
  | [] => Some default
  | [(_, v)] => Some v
  | _ => None
  end.

Definition schedule_call (self : PiecewiseConstantDecay) (step : Z) : option Q :=
  match pred_fn_pairs self step, values self with
  | Some pairs, v0 :: _ => tf_case pairs v0
  | _, _ => None
  end.

Definition lr : Q := 1 # 1000.

Definition lr_schedule : PiecewiseConstantDecay :=
  {| boundaries := [100; 200];
     values := [lr; 5 # 10000; 1 # 10000] |}.

(** The three levels of the script's schedule, by the value of the update
counter. *)
Definition level (step : Z) : Q :=
  if step <=? 100 then 1 # 1000
  else if step <=? 200 then 5 # 10000
  else 1 # 10000.

Definition optimizer : SGD :=
  {| learning_rate := lr_schedule; momentum := 9 # 10; iterations := 0 |}.

Definition model : Sequential :=
  compile (get_model default_handle 4) "categorical_crossentropy" optimizer
    ["accuracy"; "top_2_categorical_accuracy"].

(** One gradient update: the optimizer evaluates its schedule at its own
update counter and then advances the counter. *)
Definition apply_gradients (opt : SGD) : option Q * SGD :=
  (schedule_call (learning_rate opt) (iterations opt),
   {| learning_rate := learning_rate opt; momentum := momentum opt;
      iterations := iterations opt + 1 |}).

(** The learning rates used by the batches of one epoch. *)
Fixpoint train_epoch (steps : nat) (opt : SGD) : list (option Q) * SGD :=
  match steps with
  | O => ([], opt)
  | S n =>
      let '(r, opt1) := apply_gradients opt in
      let '(rs, opt2) := train_epoch n opt1 in
      (r :: rs, opt2)
  end.

(** The learning rates used by a run, one list per epoch. *)
Fixpoint train_loop (epochs steps_per_epoch : nat) (opt : SGD)
    : list (list (option Q)) :=
  match epochs with
  | O => []
  | S n =>
      let '(rs, opt1) := train_epoch steps_per_epoch opt in
      rs :: train_loop n steps_per_epoch opt1
  end.

(** *** Checkpoint callback *)

Record ModelCheckpoint := {
  filepath : string;
  save_weights_only : bool;
  save_best_only : bool;
  monitor : string;
  verbose : Z
}.

Definition cp_callback : ModelCheckpoint :=
  {| filepath := "./model";
     save_weights_only := false;
     save_best_only := true;
     monitor := "val_accuracy";
     verbose := 1 |}.

(** The callback's running best starts at minus or plus infinity. *)
Inductive Best := NegInf | Finite (q : Q) | PosInf.

Inductive MonitorOp := greater | less.

(** With the script's default mode, the comparison is chosen from the
monitored name. *)
Definition monitor_op (self : ModelCheckpoint) : MonitorOp :=
  if Py.contains (monitor self) "acc" || Py.startswith (monitor self) "fmeasure"
  then greater else less.

Definition initial_best (self : ModelCheckpoint) : Best :=
  match monitor_op self with greater => NegInf | less => PosInf end.

Definition improves (op : MonitorOp) (current : Q) (best : Best) : bool :=
  match op, best with
  | greater, NegInf => true
  | greater, Finite b => Py.Qlt_bool b current
  | greater, PosInf => false
  | less, PosInf => true
  | less, Finite b => Py.Qlt_bool current b
  | less, NegInf => false
  end.

Inductive SaveEvent :=
| save_model (path : string)
| save_weights (path : string).

Definition save_event (self : ModelCheckpoint) : SaveEvent :=
  if save_weights_only self then save_weights (filepath self)
  else save_model (filepath self).

(** [on_epoch_end]: the new best and the write made, if any. *)
Definition on_epoch_end (self : ModelCheckpoint) (best : Best)
    (logs : gmap string Q) : Best * option SaveEvent :=
  if save_best_only self then
    match logs !! monitor self with
    | None => (best, None)
    | Some current =>
        if improves (monitor_op self) current best
        then (Finite current, Some (save_event self))
        else (best, None)
    end
  else (best, Some (save_event self)).

(** The callback over the epochs of a run: per epoch, the write made. *)
Fixpoint run_callback (self : ModelCheckpoint) (best : Best)
    (history : list (gmap string Q)) : list (option SaveEvent) :=
  match history with
  | [] => []
  | logs :: rest =>
      let '(best1, ev) := on_epoch_end self best logs in
      ev :: run_callback self best1 rest
  end.

Definition fit_checkpoints (self : ModelCheckpoint) (history : list (gmap string Q))
    : list (option SaveEvent) :=
  run_callback self (initial_best self) history.

(** Epoch logs carrying the given validation accuracy. *)
Definition val_logs (a : Q) : gmap string Q := {[ "val_accuracy"%string := a ]}.

(** The validation accuracies 0.5, 0.6, 0.55, 0.7 of a made-up run. *)
Definition made_up_accuracies : list Q := [5 # 10; 6 # 10; 55 # 100; 7 # 10].

(** Zero-based epochs after which a write happened. *)
Definition write_epochs (evs : list (option SaveEvent)) : list nat :=
  List.map fst (List.filter (fun p => match snd p with Some _ => true | None => false end)
                  (combine (seq 0 (length evs)) evs)).

(** *** The files a directory feed serves *)

(** The list slice [l[start:stop]]. *)
Definition list_slice {A : Type} (l : list A) (start stop : Z) : list A :=
  let n := Z.of_nat (length l) in
  let clamp := fun i : Z => Z.to_nat (if i <? 0 then Z.max 0 (n + i) else Z.min i n) in
  take (clamp stop - clamp start) (drop (clamp start) l).

(** The share of each class directory an iterator serves: the validation
subset runs from the int 0 to the split fraction of its generator, the
training subset from that fraction to the int 1; an iterator without subset
has no split. *)
Definition subset_split (it : DirectoryIterator) : option (Py.number * Py.number) :=
  match subset it with
  | Some validation =>
      Some (Py.int_value 0, Py.float_value (validation_split (image_data_generator it)))
  | Some training =>
      Some (Py.float_value (validation_split (image_data_generator it)), Py.int_value 1)
  | None => None
  end.

(** The files of one class directory an iterator keeps, out of the listing
[all_files] of that directory:
[start, stop = int(split[0] * num_files), int(split[1] * num_files)] and
[all_files[start:stop]].  [None] stands for an exception of [int]. *)
Definition valid_files {A : Type} (it : DirectoryIterator) (all_files : list A)
    : option (list A) :=
  match subset_split it with
  | Some (lo, hi) =>
      let num_files := Z.of_nat (length all_files) in
      match Py.int (Py.times_int lo num_files), Py.int (Py.times_int hi num_files) with
      | Some start, Some stop => Some (list_slice all_files start stop)
      | _, _ => None
      end
  | None => Some all_files
  end.

(** *** The metrics of the compiled model *)

(** [tf.math.argmax] along the class axis: the index of the first largest
entry of a row. *)
Fixpoint argmax_from (best : Q) (ibest i : nat) (row : list Q) : nat :=
  match row with
  | [] => ibest
  | x :: rest =>
      if Py.Qlt_bool best x then argmax_from x i (S i) rest
      else argmax_from best ibest (S i) rest
  end.

Definition argmax (row : list Q) : nat :=
  match row with
  | [] => 0%nat
  | x :: rest => argmax_from x 0 1 rest
  end.

(** [tf.math.in_top_k]: fewer than [k] predictions are strictly larger than
the prediction of the target class; a target outside the row is never in
the top [k]. *)
Definition in_top_k (predictions : list Q) (target : nat) (k : nat) : bool :=
  match predictions !! target with
  | Some p => Nat.ltb (length (List.filter (fun q => Py.Qlt_bool p q) predictions)) k
  | None => false
  end.

(** ['accuracy'] under a categorical cross-entropy loss. *)
Definition categorical_accuracy (y_true y_pred : list Q) : bool :=
  Nat.eqb (argmax y_true) (argmax y_pred).

Definition top_k_categorical_accuracy (k : nat) (y_true y_pred : list Q) : bool :=
  in_top_k y_pred (argmax y_true) k.

Definition top_2_acc : list Q -> list Q -> bool := top_k_categorical_accuracy 2.

(** The value a metric reports over the samples it has seen, pairs of a
label row and a prediction row: the share of matches, 0 before any sample. *)
Definition metric_result (fn : list Q -> list Q -> bool)
    (samples : list (list Q * list Q)) : Q :=
  let hits := length (List.filter (fun s => fn (fst s) (snd s)) samples) in
  if Nat.eqb (length samples) 0 then 0%Q
  else (inject_Z (Z.of_nat hits) / inject_Z (Z.of_nat (length samples)))%Q.

(** *** The run of the script *)

(** [model.fit(..., epochs = 100, ...)]: the learning rates of the run,
for the number of batches an epoch of the training feed has. *)
Definition epochs : nat := 100.

Definition fit_rates (steps_per_epoch : nat) : list (list (option Q)) :=
  train_loop epochs steps_per_epoch optimizer.

End Keras.

(** ** Forward pass of a layer stack in exact arithmetic

The stack read as a function on real numbers: what the float32
computation of the program approximates.  The computation itself is
[Forward32] below. *)

Module Forward.
Import Keras.
Local Open Scope R_scope.

Definition tensor := list R.

(** Everything a stack needs besides its layer list: the pretrained
extractor behind a hub handle, and the trained variables of the layer at
each position of the stack. *)
Record Weights := {
  hub_call : string -> tensor -> tensor;
  kernel : nat -> nat -> tensor;
  bias : nat -> nat -> R;
  gamma : nat -> nat -> R;
  beta : nat -> nat -> R;
  moving_mean : nat -> nat -> R;
  moving_variance : nat -> nat -> R;
  epsilon : R
}.

Definition sum (v : tensor) : R := List.fold_right Rplus 0 v.

Fixpoint dot (a b : tensor) : R :=
  match a, b with
  | x :: a', y :: b' => x * y + dot a' b'
  | _, _ => 0
  end.

Definition sigmoid (z : R) : R := 1 / (1 + exp (- z)).

Definition swish_fn (z : R) : R := z * sigmoid z.

Definition softmax_fn (v : tensor) : tensor :=
  List.map (fun z => exp z / sum (List.map exp v)) v.

Definition activate (a : Activation) (v : tensor) : tensor :=
  match a with
  | swish => List.map swish_fn v
  | softmax => softmax_fn v
  end.

(** Inference-time call of the layer at position [idx]. *)
Definition call_layer (w : Weights) (idx : nat) (l : Layer) (x : tensor) : tensor :=
  match l with
  | InputLayer _ => x
  | KerasLayer handle _ => hub_call w handle x
  | BatchNormalization _ =>
      imap (fun i v => gamma w idx i * ((v - moving_mean w idx i)
                         / sqrt (moving_variance w idx i + epsilon w)) + beta w idx i) x
  | Dense units a =>
      activate a (List.map (fun j => dot x (kernel w idx j) + bias w idx j) (seq 0 units))
  | Dropout _ => x
  end.

Fixpoint call_layers (w : Weights) (idx : nat) (ls : list Layer) (x : tensor) : tensor :=
  match ls with
  | [] => x
  | l :: rest => call_layers w (S idx) rest (call_layer w idx l x)
  end.

Definition predict (w : Weights) (m : Sequential) (x : tensor) : tensor :=
  call_layers w 0 (layers m) x.

(** An input of the shape of the input layer, 300 by 300 pixels in three
channels, flattened: a black picture. *)
Definition blank_input : tensor := repeat 0 (300 * 300 * 3).

(** Variables for running a stack on a concrete input: an extractor that
hands its input on, zero kernels and biases, a normalisation that does
nothing. *)
Definition trivial_weights : Weights :=
  {| hub_call := fun _ x => x;
     kernel := fun _ _ => [];
     bias := fun _ _ => 0;
     gamma := fun _ _ => 1;
     beta := fun _ _ => 0;
     moving_mean := fun _ _ => 0;
     moving_variance := fun _ _ => 1;
     epsilon := 0 |}.

End Forward.

(** ** Forward pass of a layer stack in float32

The tensors of the program hold IEEE 754 binary32 numbers (24 bits of
precision).  Subtraction and division are the operations of the standard.
What the standard does not fix is left to the library and taken as a
parameter here: the exponential, the order in which a reduction adds its
terms, and everything that happens before the last activation (the
extractor, the normalisation with its trained statistics, the products of
the dense layers). *)

Module Forward32.
Import Keras.

Definition f32 : Type := SpecFloat.spec_float.
Definition tensor32 : Type := list f32.

Definition sub32 : f32 -> f32 -> f32 := SpecFloat.SFsub 24 128.
Definition add32 : f32 -> f32 -> f32 := SpecFloat.SFadd 24 128.
Definition mul32 : f32 -> f32 -> f32 := SpecFloat.SFmul 24 128.
Definition div32 : f32 -> f32 -> f32 := SpecFloat.SFdiv 24 128.
Definition of_int32 (n : Z) : f32 := SpecFloat.binary_normalize 24 128 n 0 false.

Definition zero32 : f32 := SpecFloat.S754_zero false.
Definition one32 : f32 := of_int32 1.

(** The exact value of a float32, when it is a number. *)
Definition value32 (x : f32) : option Q :=
  match x with
  | SpecFloat.S754_zero _ => Some 0%Q
  | SpecFloat.S754_finite s m e =>
      let q := match e with
               | Z0 => inject_Z (Z.pos m)
               | Z.pos _ => inject_Z (Z.pos m * 2 ^ e)
               | Z.neg p => Z.pos m # 2 ^ p
               end in
      Some (if s then Qopp q else q)
  | SpecFloat.S754_infinity _ => None
  | SpecFloat.S754_nan => None
  end.

(** The exact sum of the entries of a tensor of numbers. *)
Fixpoint exact_sum (v : tensor32) : option Q :=
  match v with
  | [] => Some 0%Q
  | x :: rest =>
      match value32 x, exact_sum rest with
      | Some a, Some b => Some (Qred (a + b))
      | _, _ => None
      end
  end.

Class Kernels32 := {
  exp32 : f32 -> f32;
  reduce_sum32 : tensor32 -> f32;
  hub32 : string -> tensor32 -> tensor32;
  batch_normalization32 : nat -> tensor32 -> tensor32;
  (** [x . kernel + bias] of the dense layer at a position, one entry per
  unit. *)
  affine32 : nat -> nat -> tensor32 -> tensor32;
  affine32_length : forall idx units x, length (affine32 idx units x) = units;
  swish32 : f32 -> f32
}.

Section WithKernels.
Context `{Kernels32}.

(** The largest entry; comparisons of floats do not round. *)
Definition reduce_max32 (v : tensor32) : f32 :=
  match v with
  | [] => SpecFloat.S754_infinity true
  | x :: rest => fold_left (fun a b => if SpecFloat.SFltb a b then b else a) rest x
  end.

(** The softmax kernel: the entries are shifted by the largest one, so that
the exponential cannot overflow, and divided by their sum. *)
Definition softmax32 (v : tensor32) : tensor32 :=
  let shifted := List.map (fun z => sub32 z (reduce_max32 v)) v in
  let e := List.map exp32 shifted in
  let s := reduce_sum32 e in
  List.map (fun x => div32 x s) e.

(** The variant that multiplies by the reciprocal of the sum. *)
Definition softmax32_reciprocal (v : tensor32) : tensor32 :=
  let shifted := List.map (fun z => sub32 z (reduce_max32 v)) v in
  let e := List.map exp32 shifted in
  let s := reduce_sum32 e in
  List.map (fun x => mul32 x (div32 one32 s)) e.

Definition activate32 (a : Activation) (v : tensor32) : tensor32 :=
  match a with
  | swish => List.map swish32 v
  | softmax => softmax32 v
  end.

(** Inference-time call of the layer at position [idx]. *)
Definition call_layer32 (idx : nat) (l : Layer) (x : tensor32) : tensor32 :=
  match l with
  | InputLayer _ => x
  | KerasLayer handle _ => hub32 handle x
  | BatchNormalization _ => batch_normalization32 idx x
  | Dense units a => activate32 a (affine32 idx units x)
  | Dropout _ => x
  end.

Fixpoint call_layers32 (idx : nat) (ls : list Layer) (x : tensor32) : tensor32 :=
  match ls with
  | [] => x
  | l :: rest => call_layers32 (S idx) rest (call_layer32 idx l x)
  end.

Definition predict32 (m : Sequential) (x : tensor32) : tensor32 :=
  call_layers32 0 (layers m) x.

(** The pre-activations of the last layer of a stack. *)
Definition logits32 (m : Sequential) (x : tensor32) : tensor32 :=
  match last (layers m) with
  | Some (Dense units _) =>
      affine32 (length (layers m) - 1) units
        (call_layers32 0 (removelast (layers m)) x)
  | _ => []
  end.

End WithKernels.

(** An input of the shape of the input layer, 300 by 300 pixels in three
channels, flattened: a black picture. *)
Definition blank_input32 : tensor32 := repeat zero32 (300 * 300 * 3).

(** Adding the terms of a reduction from left to right. *)
Definition sum_left_to_right (v : tensor32) : f32 := fold_left add32 v zero32.

(** Stand-in kernels for a run in which every pre-activation is zero, as
with dense layers whose kernels and biases are zero: an exponential that is
right at zero, the only argument that run gives it, and not a number
elsewhere; a sum from left to right. *)
Definition zero_variables : Kernels32 :=
  {| exp32 := fun x => match x with
                       | SpecFloat.S754_zero _ => one32
                       | _ => SpecFloat.S754_nan
                       end;
     reduce_sum32 := sum_left_to_right;
     hub32 := fun _ x => x;
     batch_normalization32 := fun _ x => x;
     affine32 := fun _ units _ => repeat zero32 units;
     affine32_length := fun _ units _ => repeat_length zero32 units;
     swish32 := fun x => x |}.

End Forward32.

(** ** The batch jobs: Python strings and paths *)

Module Path.

(** A Python [str]: a sequence of characters (code points up to 255). *)
Definition str := list ascii.

Definition py (s : string) : str := list_ascii_of_string s.

Fixpoint startswith (s p : str) : bool :=
  match p, s with
  | [], _ => true
  | c :: p', d :: s' => Ascii.eqb c d && startswith s' p'
  | _ :: _, [] => false
  end.

Definition endswith (s p : str) : bool := startswith (rev s) (rev p).

(** [s.find(sub)]: the lowest index where [sub] starts, or -1. *)
Fixpoint find_from (s sub : str) (i : Z) : Z :=
  if startswith s sub then i
  else match s with
       | [] => -1
       | _ :: s' => find_from s' sub (i + 1)
       end.

Definition find (s sub : str) : Z := find_from s sub 0.

(** [s.rfind(sub)]: the highest index where [sub] starts, or -1. *)
Fixpoint rfind_from (s sub : str) (i : Z) : Z :=
  match s with
  | [] => if startswith [] sub then i else -1
  | _ :: s' =>
      let r := rfind_from s' sub (i + 1) in
      if 0 <=? r then r else if startswith s sub then i else -1
  end.

Definition rfind (s sub : str) : Z := rfind_from s sub 0.

(** Slice bounds: a negative index counts from the end, and every index is
clamped to the string. *)
Definition clamp_index (s : str) (i : Z) : nat :=
  let n := Z.of_nat (length s) in
  Z.to_nat (if i <? 0 then Z.max 0 (n + i) else Z.min i n).

(** [s[:j]], [s[i:]] and [s[i:j]]. *)
Definition slice_to (s : str) (j : Z) : str := take (clamp_index s j) s.
Definition slice_from (s : str) (i : Z) : str := drop (clamp_index s i) s.
Definition slice (s : str) (i j : Z) : str :=
  take (clamp_index s j - clamp_index s i) (drop (clamp_index s i) s).

Definition str_eqb (a b : str) : bool := bool_decide (a = b).

(** [str(n)] for a non-negative Python int. *)
Definition str_of_nat (n : nat) : str := py (NilZero.string_of_uint (Nat.to_uint n)).

Definition lower_char (c : ascii) : ascii :=
  let n := nat_of_ascii c in
  if (65 <=? n)%nat && (n <=? 90)%nat then ascii_of_nat (n + 32) else c.

Definition lower (s : str) : str := List.map lower_char s.

(** The two flavours of [os.path]. *)
Inductive Platform := posix | nt.

Definition sep (pf : Platform) : ascii :=
  match pf with posix => "/"%char | nt => "\"%char end.

Definition altsep (pf : Platform) : option ascii :=
  match pf with posix => None | nt => Some "/"%char end.

Definition is_sep (pf : Platform) (c : ascii) : bool :=
  Ascii.eqb c (sep pf) ||
  match altsep pf with Some a => Ascii.eqb c a | None => false end.

(** The loop of [splitext] that skips the leading dots of the file name;
[fuel] bounds its iterations by the distance it has to walk. *)
Fixpoint splitext_scan (fuel : nat) (p : str) (filenameIndex dotIndex : Z) : str * str :=
  match fuel with
  | O => (p, slice_to p 0)
  | S fuel' =>
      if negb (str_eqb (slice p filenameIndex (filenameIndex + 1)) (py "."))
      then (slice_to p dotIndex, slice_from p dotIndex)
      else splitext_scan fuel' p (filenameIndex + 1) dotIndex
  end.

(** [os.path.splitext]. *)
Definition splitext (pf : Platform) (p : str) : str * str :=
  let sepIndex := rfind p [sep pf] in
  let sepIndex :=
    match altsep pf with
    | Some a => Z.max sepIndex (rfind p [a])
    | None => sepIndex
    end in
  let dotIndex := rfind p (py ".") in
  if sepIndex <? dotIndex then
    let filenameIndex := sepIndex + 1 in
    splitext_scan (Z.to_nat (dotIndex - filenameIndex)) p filenameIndex dotIndex
  else (p, slice_to p 0).

(** [os.path.normcase]. *)
Definition normcase (pf : Platform) (s : str) : str :=
  match pf with
  | posix => s
  | nt => List.map (fun c => if Ascii.eqb c "/"%char then "\"%char else c) (lower s)
  end.

(** [os.path.join] of a relative directory and an entry name. *)
Definition join (pf : Platform) (a b : str) : str :=
  match last a with
  | None => b
  | Some c => if is_sep pf c then a ++ b else a ++ [sep pf] ++ b
  end.

(** Splitting a path at its separators; the pieces may be empty. *)
Fixpoint split_path (pf : Platform) (s : str) : list str :=
  match s with
  | [] => [[]]
  | c :: s' =>
      let r := split_path pf s' in
      if is_sep pf c then [] :: r
      else match r with
           | piece :: r' => (c :: piece) :: r'
           | [] => [[c]]
           end
  end.

(** How the system resolves one more piece of a path: empty pieces and [.]
stay in place, [..] goes one level up. *)
Definition resolve_piece (acc : list str) (piece : str) : list str :=
  if str_eqb piece [] || str_eqb piece (py ".") then acc
  else if str_eqb piece (py "..") then removelast acc
  else acc ++ [piece].

(** The directory entries a relative path walks through from the working
directory, which is where the scripts' paths start. *)
Definition resolve (pf : Platform) (s : str) : list str :=
  fold_left resolve_piece (split_path pf s) [].

(** A name a directory entry can carry. *)
Definition valid_name (pf : Platform) (name : str) : bool :=
  negb (str_eqb name []) && negb (str_eqb name (py ".")) && negb (str_eqb name (py ".."))
  && forallb (fun c => negb (is_sep pf c)) name.

(** A string without any separator of the platform. *)
Definition no_sep (pf : Platform) (s : str) : Prop :=
  forall c, c ∈ s -> is_sep pf c = false.

(** What [normcase] does to one character. *)
Definition normchar (pf : Platform) (c : ascii) : ascii :=
  match pf with
  | posix => c
  | nt => let l := lower_char c in if Ascii.eqb l "/"%char then "\"%char else l
  end.

End Path.

(** ** The batch jobs: images, the file system and the scripts *)

Module Batch.
Import Path.

Inductive Mode := L | P | RGB | RGBA.

(** The pixel kernels of PIL and rembg.  The scripts only pass pixel
buffers through them, so the buffers and the kernels are parameters. *)
Class Imaging := {
  raster : Type;
  convert_raster : Mode -> Mode -> raster -> raster;
  resize_raster : Z * Z -> Z * Z -> raster -> raster;
  remove_raster : Mode -> Z * Z -> raster -> raster;
  encode_raster : str -> raster -> raster
}.

Inductive Error :=
| FileNotFoundError
| FileExistsError
| IsADirectoryError
| NotADirectoryError
| PermissionError
| UnidentifiedImageError
| ValueError
| OSError.

Inductive result (A : Type) :=
| Ok (a : A)
| Raise (e : Error).
Arguments Ok {A} a.
Arguments Raise {A} e.

(** What [open] raises on a path that names a directory: [EISDIR] on
POSIX; Windows denies the access. *)
Definition open_directory_error (pf : Platform) : Error :=
  match pf with
  | posix => IsADirectoryError
  | nt => PermissionError
  end.

(** What the system raises when the directory part of a path is a regular
file: [ENOTDIR] on POSIX; Windows reports the path as not found. *)
Definition file_as_directory_error (pf : Platform) : Error :=
  match pf with
  | posix => NotADirectoryError
  | nt => FileNotFoundError
  end.

Section WithImaging.
Context `{Imaging}.

(** A PIL image: its mode, its size (width, height) and its pixel buffer. *)
Record Image := { mode : Mode; size : Z * Z; im : raster }.

Definition convert (img : Image) (m : Mode) : Image :=
  {| mode := m; size := size img; im := convert_raster (mode img) m (im img) |}.

Definition resize (img : Image) (sz : Z * Z) : Image :=
  {| mode := mode img; size := sz; im := resize_raster (size img) sz (im img) |}.

(** [rembg.remove] on a PIL image: a cutout of the same size with an alpha
channel. *)
Definition remove (img : Image) : Image :=
  {| mode := RGBA; size := size img; im := remove_raster (mode img) (size img) (im img) |}.

(** What a file holds: an image, or bytes that are no image. *)
Inductive FileData :=
| image_data (img : Image)
| other_data.

(** The tree below the working directory: regular files and directories,
each under the list of entry names that leads to it, looked up by exact
name (for a volume that compares names up to case see [fs_folded] below).
The working directory itself is the empty list. *)
Record FS := {
  files : gmap (list str) FileData;
  dirs : gset (list str)
}.

Definition is_dir (fs : FS) (c : list str) : bool :=
  bool_decide (c = [] ∨ c ∈ dirs fs).

Definition is_file (fs : FS) (c : list str) : bool :=
  bool_decide (is_Some (files fs !! c)).

Inductive Event :=
| ev_mkdir (p : str)
| ev_save (p : str) (img : Image).

(** The state a script runs in: the file system and the log of the writes
made so far, oldest first. *)
Record World := { fs : FS; trace : list Event }.

(** A call that may raise; the world it leaves is kept either way. *)
Definition M (A : Type) : Type := World -> result A * World.

#[local] Instance M_ret : MRet M := fun A a w => (Ok a, w).

#[local] Instance M_bind : MBind M := fun A B f m w =>
  match m w with
  | (Ok a, w1) => f a w1
  | (Raise e, w1) => (Raise e, w1)
  end.

Definition raise {A : Type} (e : Error) : M A := fun w => (Raise e, w).

Definition Image_open (pf : Platform) (f : str) : M Image := fun w =>
  let c := resolve pf f in
  match files (fs w) !! c with
  | Some (image_data img) => (Ok img, w)
  | Some other_data => (Raise UnidentifiedImageError, w)
  | None =>
      if is_dir (fs w) c then (Raise (open_directory_error pf), w)
      else (Raise FileNotFoundError, w)
  end.

Definition os_path_exists (pf : Platform) (p : str) : M bool := fun w =>
  let c := resolve pf p in
  (Ok (is_dir (fs w) c || is_file (fs w) c), w).

Definition os_mkdir (pf : Platform) (p : str) : M unit := fun w =>
  let c := resolve pf p in
  if is_dir (fs w) c || is_file (fs w) c then (Raise FileExistsError, w)
  else if is_dir (fs w) (removelast c) then
    (Ok tt, {| fs := {| files := files (fs w); dirs := {[ c ]} ∪ dirs (fs w) |};
               trace := trace w ++ [ev_mkdir p] |})
  else if is_file (fs w) (removelast c) then (Raise (file_as_directory_error pf), w)
  else (Raise FileNotFoundError, w).

Inductive Format := PNG | JPEG.

(** The writers the scripts can reach: the globs only yield [.png] and
[.jpg] names.  Other extensions are unknown here. *)
Definition EXTENSION (ext : str) : option Format :=
  if str_eqb ext (py ".png") || str_eqb ext (py ".apng") then Some PNG
  else if str_eqb ext (py ".jpg") || str_eqb ext (py ".jpeg")
          || str_eqb ext (py ".jpe") || str_eqb ext (py ".jfif") then Some JPEG
  else None.

Definition writes_mode (fmt : Format) (m : Mode) : bool :=
  match fmt, m with
  | JPEG, RGBA => false
  | JPEG, P => false
  | _, _ => true
  end.

(** What a file holds after an image was written to it: the writer of the
format may change the pixels, never the mode or the size. *)
Definition encoded (ext : str) (img : Image) : Image :=
  {| mode := mode img; size := size img; im := encode_raster ext (im img) |}.

(** [img.save(p)]: the format follows the extension; the file is created
or replaced in an existing directory. *)
Definition Image_save (pf : Platform) (img : Image) (p : str) : M unit := fun w =>
  let ext := lower (snd (splitext pf p)) in
  match EXTENSION ext with
  | None => (Raise ValueError, w)
  | Some fmt =>
      let c := resolve pf p in
      if is_dir (fs w) c then (Raise (open_directory_error pf), w)
      else if negb (is_dir (fs w) (removelast c)) then
        (if is_file (fs w) (removelast c) then (Raise (file_as_directory_error pf), w)
         else (Raise FileNotFoundError, w))
      else if negb (writes_mode fmt (mode img)) then (Raise OSError, w)
      else
        (Ok tt, {| fs := {| files := <[ c := image_data (encoded ext img) ]> (files (fs w));
                            dirs := dirs (fs w) |};
                   trace := trace w ++ [ev_save p img] |})
  end.

(** [os.listdir]: the names of the entries right below a directory. *)
Definition listdir (fs : FS) (d : list str) : list str :=
  omap (fun c => if bool_decide (removelast c = d) then last c else None)
       (elements (dom (files fs) ∪ dirs fs)).

Definition ishidden (name : str) : bool := startswith name (py ".").

(** [glob.glob(dirname + "/*" + suffix)] for a literal directory: the
visible entries of the directory whose name ends in the suffix, joined to
the directory; nothing when the directory is absent. *)
Definition glob (pf : Platform) (fs : FS) (dirname suffix : str) : list str :=
  if is_dir fs (resolve pf dirname) then
    List.map (join pf dirname)
      (List.filter
         (fun name => negb (ishidden name)
                      && endswith (normcase pf name) (normcase pf suffix))
         (listdir fs (resolve pf dirname)))
  else [].

(** *** The background-removal script *)

(** [index = title.find('\\'); title = title[:index]]. *)
Definition truncate_title (title : str) : str :=
  let index := find title (py "\") in
  slice_to title index.

(** The body of the loop, for one matched path and the current counter. *)
Definition remove_body (pf : Platform) (f : str) (count : nat) : M unit :=
  img ← Image_open pf f;
  let img := convert img RGB in
  let '(title, ext) := splitext pf f in
  let title := truncate_title title in
  let out := remove img in
  let new_name := title ++ py "_remove" ++ str_of_nat count ++ ext in
  e ← os_path_exists pf (title ++ py "_remove");
  (if negb e then os_mkdir pf (title ++ py "_remove") else mret tt) ;;
  Image_save pf out (title ++ py "_remove/" ++ new_name).

(** The loop over the matched paths.  An exception ends the run; the
counter and the world are the ones reached. *)
Fixpoint remove_loop (pf : Platform) (files : list str) (count : nat) (w : World)
    : result unit * nat * World :=
  match files with
  | [] => (Ok tt, count, w)
  | f :: rest =>
      match remove_body pf f count w with
      | (Ok _, w1) => remove_loop pf rest (count + 1) w1
      | (Raise e, w1) => (Raise e, count, w1)
      end
  end.

(** The script: [files] is what [glob.glob('./avante n/*.png')] returned,
the matched paths in the order the directory listing came out. *)
Definition remove_job (pf : Platform) (files : list str) (w : World)
    : result unit * nat * World :=
  let count := 0%nat in
  remove_loop pf files count w.

(** *** The resize script *)

Definition resize_body (pf : Platform) (f : str) : M unit :=
  img ← Image_open pf f;
  let img := convert img RGB in
  let img_resize := resize img (256, 256) in
  let '(title, ext) := splitext pf f in
  Image_save pf img_resize (title ++ py "_half" ++ ext).

(** The script over [files], what [glob.glob('./data/k9/*.jpg')] returned. *)
Fixpoint resize_job (pf : Platform) (files : list str) (w : World)
    : result unit * World :=
  match files with
  | [] => (Ok tt, w)
  | f :: rest =>
      match resize_body pf f w with
      | (Ok _, w1) => resize_job pf rest w1
      | (Raise e, w1) => (Raise e, w1)
      end
  end.

(** The output paths the scripts compute from a matched path. *)
Definition remove_dir (pf : Platform) (f : str) : str :=
  truncate_title (fst (splitext pf f)) ++ py "_remove".

Definition remove_path (pf : Platform) (f : str) (count : nat) : str :=
  let title := truncate_title (fst (splitext pf f)) in
  title ++ py "_remove/" ++ (title ++ py "_remove" ++ str_of_nat count ++ snd (splitext pf f)).

Definition resize_path (pf : Platform) (f : str) : str :=
  fst (splitext pf f) ++ py "_half" ++ snd (splitext pf f).

(** The paths saved to, in the order of the saves. *)
Definition saved_paths (t : list Event) : list str :=
  omap (fun e => match e with ev_save p _ => Some p | ev_mkdir _ => None end) t.

(** An entry that holds a decodable image; one that holds a 256x256 RGB
image. *)
Definition holds_image (w : World) (c : list str) : Prop :=
  exists img, files (fs w) !! c = Some (image_data img).

Definition holds_256 (w : World) (c : list str) : Prop :=
  exists out, files (fs w) !! c = Some (image_data out)
              /\ size out = (256, 256) /\ mode out = RGB.

(** Every entry name of the tree is one a directory entry can carry. *)
Definition fs_names_ok (pf : Platform) (fs : FS) : bool :=
  forallb (forallb (valid_name pf)) (elements (dom (files fs) ∪ dirs fs)).

(** A Windows volume compares names up to case: it holds one entry per
name up to case, and a path names the entry that equals it up to case.
The tree above is looked up by exact name.  The two readings agree on a
tree whose names are stored in the form [normcase] gives them, since the
scripts build their paths from the names they list and from pieces that are
in that form already ([_remove], [_half], the digits of the counter).  On
POSIX names are compared as they are, and [normcase] changes nothing. *)
Definition fs_folded (pf : Platform) (fs : FS) : bool :=
  forallb (forallb (fun name => str_eqb (normcase pf name) name))
          (elements (dom (files fs) ∪ dirs fs)).

(** The directories made, in the order of the calls. *)
Definition made_dirs (t : list Event) : list str :=
  omap (fun e => match e with ev_mkdir p => Some p | ev_save _ _ => None end) t.

End WithImaging.

(** Reading the title truncation as the words "truncate at the first
path separator": the prefix before the first occurrence of the given
separator character, the whole title when there is none. *)
Fixpoint truncate_at_first (c : ascii) (title : str) : str :=
  match title with
  | [] => []
  | d :: rest => if Ascii.eqb d c then [] else d :: truncate_at_first c rest
  end.

(** A small instance of the pixel kernels, for running the scripts on
concrete trees: a buffer is a list of numbers, no kernel changes it. *)
Definition plain_imaging : Imaging :=
  {| raster := list Z;
     convert_raster := fun _ _ r => r;
     resize_raster := fun _ _ r => r;
     remove_raster := fun _ _ r => r;
     encode_raster := fun _ r => r |}.

(** Sample trees for running the scripts: a directory of two cars for the
background-removal job, and a directory for the resize job in which a
picture [a.jpg] sits next to an unrelated small picture [a_half.jpg]. *)
Definition picture (m : Mode) (width height : Z) : @FileData plain_imaging :=
  @image_data plain_imaging (@Build_Image plain_imaging m (width, height) []).

Definition avante_tree : @FS plain_imaging :=
  @Build_FS plain_imaging
    {[ [py "avante n"; py "car1.png"] := picture RGBA 640 480;
       [py "avante n"; py "car2.png"] := picture RGBA 300 200 ]}
    {[ [py "avante n"] ]}.

Definition k9_tree : @FS plain_imaging :=
  @Build_FS plain_imaging
    {[ [py "data"; py "k9"; py "a.jpg"] := picture RGB 640 480;
       [py "data"; py "k9"; py "a_half.jpg"] := picture RGB 10 10 ]}
    {[ [py "data"]; [py "data"; py "k9"] ]}.

(** A resize directory in which [notes.jpg] is no image. *)
Definition k9_notes_tree : @FS plain_imaging :=
  @Build_FS plain_imaging
    {[ [py "data"; py "k9"; py "a.jpg"] := picture RGB 640 480;
       [py "data"; py "k9"; py "notes.jpg"] := @other_data plain_imaging;
       [py "data"; py "k9"; py "b.jpg"] := picture RGB 30 40 ]}
    {[ [py "data"]; [py "data"; py "k9"] ]}.

(** A tree that holds the directories of both jobs. *)
Definition studio_tree : @FS plain_imaging :=
  @Build_FS plain_imaging
    {[ [py "avante n"; py "car1.png"] := picture RGBA 640 480;
       [py "data"; py "k9"; py "a.jpg"] := picture RGB 640 480;
       [py "data"; py "k9"; py "b.jpg"] := picture RGB 30 40 ]}
    {[ [py "avante n"]; [py "data"]; [py "data"; py "k9"] ]}.

Definition start (t : @FS plain_imaging) : @World plain_imaging :=
  @Build_World plain_imaging t [].

Section Trees.
Context `{Imaging}.

(** A tree in which every entry, file or directory, sits in a directory:
the entry one level up is a directory of the tree or the working
directory. *)
Definition fs_closed (t : FS) : bool :=
  forallb (fun c => is_dir t (removelast c)) (elements (dom (files t) ∪ dirs t)).

(** What the background-removal script saves for a decoded image. *)
Definition cutout (img : Image) : Image := remove (convert img RGB).

End Trees.

(** The shape of a path matched by [./avante n/*.png]: the directory as
written, the separator of the platform, a stem that starts with the
character [c0], a dot and the extension [e], which is [png] up to case. *)
Definition png_entry (pf : Platform) (f : str) (c0 : ascii) (stem e : str) : Prop :=
  f = py "./avante n" ++ sep pf :: (c0 :: stem) ++ "."%char :: e
  /\ c0 <> "."%char
  /\ no_sep pf (c0 :: stem) /\ no_sep pf e /\ ("."%char ∉ e)
  /\ lower e = py "png".

End Batch.

(** * Properties of the training script *)

Module KerasSpec.
Import Keras.

Lemma Qlt_bool_iff (a b : Q) : Py.Qlt_bool a b = true <-> (a < b)%Q.
Proof.
  unfold Py.Qlt_bool. rewrite negb_true_iff.
  split.
  - intros Hle. apply Qnot_le_lt. intros Hba.
    apply Qle_bool_iff in Hba. congruence.
  - intros Hlt. destruct (Qle_bool b a) eqn:E; [|reflexivity].
    apply Qle_bool_iff in E. exfalso. exact (Qlt_not_le _ _ Hlt E).
Qed.

Section Feeds.
Context `{Ndimage}.

(** A generator without any augmenting setting hands the image through
untouched, whatever numbers are drawn. *)
Lemma test_datagen_transform_id (x : image) (d : Draws) :
  apply_transform test_datagen x (get_random_transform test_datagen x d) = x.
Proof.
  unfold apply_transform, apply_affine_transform, get_random_transform.
  cbn [theta tx ty shear zx zy flip_horizontal flip_vertical
       rotation_range zoom_range width_shift_range height_shift_range shear_range
       horizontal_flip vertical_flip fill_mode test_datagen].
  rewrite !andb_false_r.
  reflexivity.
Qed.

(** C1, as the scripts have it.  The test feed is the only feed built on
the rescale-only generator: each of its samples is the decoded image times
1/255, the same on every read.  The validation feed is built on the very
generator of the training feed and yields, for the same draws, the very
sample the training feed yields.  That generator turns its draws into a
rotation of up to 20 degrees either way, shifts of up to a fifth of the
height and of the width, a shear of up to 0.15, zooms between 0.85 and 1.15
on each axis, and a horizontal flip on one draw in two; it never flips
vertically. *)
Theorem feeds_augmentation (image_size : Z) (validation_rate : Py.float) (batch_size : Z) :
  let feeds := image_generator image_size validation_rate batch_size in
  let shared := image_data_generator (train_generator_of feeds) in
  augments (image_data_generator (test_generator_of feeds)) = false
  /\ (forall d x, next_sample (test_generator_of feeds) d x = scale_pixels (1 # 255) x)
  /\ (forall d1 d2 x,
        next_sample (test_generator_of feeds) d1 x
        = next_sample (test_generator_of feeds) d2 x)
  /\ image_data_generator (val_generator_of feeds) = shared
  /\ (forall d x,
        next_sample (val_generator_of feeds) d x
        = next_sample (train_generator_of feeds) d x)
  /\ (forall d x,
        next_sample (val_generator_of feeds) d x
        = scale_pixels (1 # 255)
            (apply_transform shared x (get_random_transform shared x d)))
  /\ (forall d x,
        get_random_transform shared x d
        = {| theta := uniform (- 20) 20 (u_rotation d);
             tx := (uniform (- (2 # 10)) (2 # 10) (u_height_shift d) * img_rows x)%Q;
             ty := (uniform (- (2 # 10)) (2 # 10) (u_width_shift d) * img_cols x)%Q;
             shear := uniform (- (15 # 100)) (15 # 100) (u_shear d);
             zx := uniform (1 - (15 # 100)) (1 + (15 # 100)) (u_zoom_x d);
             zy := uniform (1 - (15 # 100)) (1 + (15 # 100)) (u_zoom_y d);
             flip_horizontal := Py.Qlt_bool (u_flip_horizontal d) (1 # 2);
             flip_vertical := false |}).
Proof.
  cbn zeta.
  assert (Hsample : forall d x,
             next_sample (test_generator_of
                            (image_generator image_size validation_rate batch_size)) d x
             = scale_pixels (1 # 255) x).
  { intros d x. unfold next_sample. cbn [image_generator test_generator_of snd
      flow_from_directory image_data_generator].
    rewrite test_datagen_transform_id. reflexivity. }
  split; [reflexivity|]. split; [exact Hsample|].
  split; [intros d1 d2 x; rewrite !Hsample; reflexivity|].
  split; [reflexivity|]. split; [reflexivity|]. split; [reflexivity|].
  intros d x. unfold get_random_transform.
  cbn [image_generator train_generator_of fst flow_from_directory image_data_generator
       train_datagen rotation_range zoom_range width_shift_range height_shift_range
       shear_range horizontal_flip vertical_flip].
  rewrite andb_true_r, !andb_false_r. reflexivity.
Qed.

End Feeds.

(** C1 as stated fails on the validation feed.  Take the feeds of the
script and a stored picture of their size, a ramp of 300 by 300 pixels in
three channels.  On draws that leave rotation, shift, shear and zoom at
rest and let the flip coin come up, the validation feed yields the mirror
image of the rescaled picture, not the rescaled picture: its first pixel is
the last pixel of the row. *)
Lemma val_feed_is_augmented :
  feed_shape val_generator ramp = true
  /\ @next_sample no_warp val_generator flip_draw ramp
     = scale_pixels (1 # 255) (flip_columns ramp)
  /\ List.hd [] (List.hd [] (@next_sample no_warp val_generator flip_draw ramp))
     = [(299 * (1 # 255))%Q; (299 * (1 # 255))%Q; (299 * (1 # 255))%Q]
  /\ List.hd [] (List.hd [] (scale_pixels (1 # 255) ramp))
     = [(0 * (1 # 255))%Q; (0 * (1 # 255))%Q; (0 * (1 # 255))%Q]
  /\ @next_sample no_warp val_generator flip_draw ramp <> scale_pixels (1 # 255) ramp.
Proof.
  assert (Hflip : @next_sample no_warp val_generator flip_draw ramp
                  = scale_pixels (1 # 255) (flip_columns ramp))
    by (vm_compute; reflexivity).
  split; [vm_compute; reflexivity|]. split; [exact Hflip|].
  split; [vm_compute; reflexivity|]. split; [vm_compute; reflexivity|].
  intros Heq.
  apply (f_equal (fun y => List.hd [] (List.hd [] y))) in Heq.
  vm_compute in Heq. discriminate Heq.
Qed.

(** *** The layer stack *)

(** C4: for every handle and class count, [get_model] returns an uncompiled
stack of eleven layers: the 300x300x3 input, the trainable extractor and a
batch normalisation, then only dense and dropout layers; the dense widths
are 1024, 512, 256, 128, 64 and the class count, the first five with the
swish nonlinearity; the two dropout layers come right after the 1024 and
the 512 dense layers; the last layer is the dense softmax layer with
[num_classes] units. *)
Theorem get_model_stack (handle : string) (num_classes : nat) :
  let m := get_model handle num_classes in
  compiled m = None
  /\ length (layers m) = 11%nat
  /\ take 3 (layers m)
     = [InputLayer [300; 300; 3]; KerasLayer handle true; BatchNormalization 1]
  /\ forallb (fun l => is_dense l || is_dropout l) (drop 3 (layers m)) = true
  /\ dense_widths (layers m) = [1024; 512; 256; 128; 64; num_classes]%nat
  /\ List.filter is_dense (layers m)
     = List.map (fun u => Dense u swish) [1024; 512; 256; 128; 64]%nat
       ++ [Dense num_classes softmax]
  /\ length (List.filter is_dropout (layers m)) = 2%nat
  /\ dropout_predecessors (layers m) = [Dense 1024 swish; Dense 512 swish]
  /\ last (layers m) = Some (Dense num_classes softmax).
Proof.
  cbn zeta. unfold get_model. cbn [layers compiled].
  repeat split; reflexivity.
Qed.

(** *** The learning-rate schedule *)

(** The schedule of the script, at any value of the update counter: the
first boundary still belongs to the first level, the second boundary to the
second. *)
Lemma lr_schedule_call (step : Z) :
  schedule_call lr_schedule step = Some (level step).
Proof.
  unfold schedule_call, pred_fn_pairs, tf_case, level.
  cbn [lr_schedule boundaries values List.last removelast List.tl combine
       List.map List.filter fst lr].
  destruct (step <=? 100) eqn:E1, (200 <? step) eqn:E2,
           (100 <? step) eqn:E3, (step <=? 200) eqn:E4;
    cbn; try reflexivity; lia.
Qed.

Lemma train_epoch_rates (steps : nat) (opt : SGD) :
  fst (train_epoch steps opt)
  = List.map (fun b => schedule_call (learning_rate opt) (iterations opt + Z.of_nat b))
      (seq 0 steps)
  /\ snd (train_epoch steps opt)
     = {| learning_rate := learning_rate opt; momentum := momentum opt;
          iterations := iterations opt + Z.of_nat steps |}.
Proof.
  revert opt. induction steps as [|n IH]; intros opt.
  - cbn. rewrite Z.add_0_r. destruct opt; auto.
  - cbn [train_epoch apply_gradients].
    specialize (IH {| learning_rate := learning_rate opt; momentum := momentum opt;
                      iterations := iterations opt + 1 |}).
    destruct (train_epoch n _) as [rs opt2]. cbn [fst snd] in *.
    destruct IH as [IH1 IH2]. subst rs opt2. cbn [learning_rate momentum iterations].
    split.
    + cbn [seq List.map]. rewrite Z.add_0_r. f_equal.
      rewrite <- seq_shift, List.map_map.
      apply List.map_ext. intros b. f_equal. lia.
    + f_equal. lia.
Qed.

(** The update counter runs on across epochs: the update of batch [b] of
epoch [e] is update number [e * steps_per_epoch + b] of the run. *)
Lemma train_loop_rates (epochs steps_per_epoch : nat) (opt : SGD) (e b : nat) :
  (e < epochs)%nat -> (b < steps_per_epoch)%nat ->
  train_loop epochs steps_per_epoch opt !! e ≫= (fun rs => rs !! b)
  = Some (schedule_call (learning_rate opt)
            (iterations opt + Z.of_nat (e * steps_per_epoch + b))).
Proof.
  revert opt e. induction epochs as [|n IH]; intros opt e He Hb; [lia|].
  cbn [train_loop].
  pose proof (train_epoch_rates steps_per_epoch opt) as [Hr Ho].
  destruct (train_epoch steps_per_epoch opt) as [rs opt1]. cbn [fst snd] in *.
  destruct e as [|e].
  - cbn. subst rs. rewrite list_lookup_fmap.
    rewrite lookup_seq_lt by lia. cbn. reflexivity.
  - cbn [lookup list_lookup]. rewrite IH by lia.
    subst opt1. cbn [learning_rate iterations]. do 2 f_equal. lia.
Qed.

(** C3, as the library runs the schedule: the rate is keyed by the
optimizer's update counter, one update per batch.  In a run of the script,
batch [b] of epoch [e] is trained at 0.001 while the counter
[e * steps_per_epoch + b] is at most 100, at 0.0005 while it is above 100
and at most 200, and at 0.0001 above 200. *)
Theorem lr_schedule_by_update (epochs steps_per_epoch e b : nat) :
  (e < epochs)%nat -> (b < steps_per_epoch)%nat ->
  let step := Z.of_nat (e * steps_per_epoch + b) in
  train_loop epochs steps_per_epoch optimizer !! e ≫= (fun rs => rs !! b)
  = Some (Some (level step))
  /\ (step <= 100 -> level step = 1 # 1000)
  /\ (100 < step <= 200 -> level step = 5 # 10000)
  /\ (200 < step -> level step = 1 # 10000).
Proof.
  intros He Hb step. split.
  - rewrite train_loop_rates by assumption.
    cbn [optimizer learning_rate iterations]. rewrite lr_schedule_call.
    reflexivity.
  - unfold level. repeat split; intros Hs.
    + destruct (step <=? 100) eqn:E; [reflexivity | lia].
    + destruct (step <=? 100) eqn:E; [lia|].
      destruct (step <=? 200) eqn:E'; [reflexivity | lia].
    + destruct (step <=? 100) eqn:E; [lia|].
      destruct (step <=? 200) eqn:E'; [lia | reflexivity].
Qed.

Lemma lr_schedule_by_update_witness :
  train_loop 100 3 optimizer !! 33%nat ≫= (fun rs => rs !! 2%nat)
  = Some (Some (level 101))
  /\ level 101 = 5 # 10000.
Proof.
  destruct (lr_schedule_by_update 100 3 33 2 ltac:(lia) ltac:(lia)) as (Hrate & _ & Hmid & _).
  split.
  - exact Hrate.
  - apply Hmid. cbn. lia.
Defined.

(** C3 as stated fails: with one update per epoch, the epoch numbered 100
is still trained at 0.001; with ten updates per epoch, the rate already
drops to 0.0005 inside the epoch numbered 10. *)
Lemma lr_not_keyed_by_epoch :
  (train_loop 101 1 optimizer !! 100%nat = Some [Some (1 # 1000)]
   /\ ~ (1 # 1000 == 5 # 10000)%Q)
  /\ (train_loop 11 10 optimizer !! 10%nat ≫= (fun rs => rs !! 1%nat)
      = Some (Some (5 # 10000))
      /\ ~ (5 # 10000 == 1 # 1000)%Q).
Proof.
  split; split.
  - vm_compute. reflexivity.
  - intros Heq. vm_compute in Heq. discriminate Heq.
  - vm_compute. reflexivity.
  - intros Heq. vm_compute in Heq. discriminate Heq.
Qed.

(** *** The checkpoint callback *)

Lemma cp_callback_step (best : Best) (a : Q) :
  on_epoch_end cp_callback best (val_logs a)
  = if improves greater a best
    then (Finite a, Some (save_model "./model"))
    else (best, None).
Proof.
  unfold on_epoch_end. cbn [cp_callback save_best_only monitor].
  unfold val_logs. rewrite lookup_singleton_eq.
  change (monitor_op _) with greater.
  reflexivity.
Qed.

(** The write made after an epoch, for any running best the callback may
hold when the run reaches the first of the listed epochs. *)
Lemma run_callback_lookup (accs : list Q) (best : Best) (i : nat) (a : Q) :
  accs !! i = Some a ->
  run_callback cp_callback best (List.map val_logs accs) !! i
  = Some (if improves greater a best
             && forallb (fun b => Py.Qlt_bool b a) (take i accs)
          then Some (save_model "./model") else None).
Proof.
  revert best i. induction accs as [|b rest IH]; intros best i Hi.
  - rewrite lookup_nil in Hi. discriminate Hi.
  - cbn [List.map run_callback]. rewrite cp_callback_step.
    destruct i as [|i].
    + cbn in Hi. injection Hi as ->. cbn [take forallb].
      rewrite andb_true_r.
      destruct (improves greater a best); reflexivity.
    + cbn in Hi. cbn [take forallb].
      destruct (improves greater b best) eqn:Eb; cbn [lookup list_lookup].
      * rewrite (IH _ _ Hi).
        change (improves greater a (Finite b)) with (Py.Qlt_bool b a). f_equal.
        destruct (Py.Qlt_bool b a) eqn:Eba; cbn [andb].
        -- replace (improves greater a best) with true; [reflexivity|].
           destruct best as [|m|]; cbn in *; try reflexivity; try discriminate Eb.
           symmetry. apply Qlt_bool_iff.
           apply Qlt_bool_iff in Eb. apply Qlt_bool_iff in Eba.
           exact (Qlt_trans _ _ _ Eb Eba).
        -- rewrite andb_false_r. reflexivity.
      * rewrite (IH _ _ Hi). f_equal.
        destruct (improves greater a best) eqn:Ea; [|reflexivity].
        cbn [andb].
        replace (Py.Qlt_bool b a) with true; [reflexivity|].
        destruct best as [|m|]; cbn in *; try discriminate Eb; try discriminate Ea.
        symmetry. apply Qlt_bool_iff. apply Qlt_bool_iff in Ea.
        apply Qle_lt_trans with (y := m); [|exact Ea].
        apply Qnot_lt_le. intros Hmb.
        apply Qlt_bool_iff in Hmb. congruence.
Qed.

Lemma forallb_take_lookup {A : Type} (P : A -> bool) (l : list A) (i : nat) :
  forallb P (take i l) = true
  <-> (forall j b, (j < i)%nat -> l !! j = Some b -> P b = true).
Proof.
  rewrite forallb_forall. split.
  - intros Hall j b Hj Hb. apply Hall. apply list_elem_of_In.
    apply list_elem_of_lookup. exists j. rewrite lookup_take_lt by exact Hj. exact Hb.
  - intros Hall b Hin. apply list_elem_of_In, list_elem_of_lookup in Hin.
    destruct Hin as [j Hj].
    pose proof (lookup_lt_Some _ _ _ Hj) as Hlen. rewrite length_take in Hlen.
    rewrite lookup_take_lt in Hj by lia. apply (Hall j b); [lia | exact Hj].
Qed.

(** C2, with the count the callback really gives.  In a run whose epochs
report the validation accuracies [accs], the callback writes the full model
to [./model] after epoch [i] exactly when that epoch's accuracy is strictly
above the accuracy of every earlier epoch of the run, and makes no write
exactly when some earlier epoch was at least as good (a tie included).  The
first epoch has no earlier epoch and is always written: for the
accuracies 0.5, 0.6, 0.55, 0.7 the writes come after the three epochs
numbered 0, 1 and 3. *)
Theorem checkpoint_best_so_far (accs : list Q) (i : nat) (a : Q) :
  accs !! i = Some a ->
  let writes := fit_checkpoints cp_callback (List.map val_logs accs) in
  (writes !! i = Some (Some (save_model "./model"))
   <-> (forall j b, (j < i)%nat -> accs !! j = Some b -> (b < a)%Q))
  /\ (writes !! i = Some None
      <-> (exists j b, (j < i)%nat /\ accs !! j = Some b /\ (a <= b)%Q))
  /\ write_epochs (fit_checkpoints cp_callback (List.map val_logs made_up_accuracies))
     = [0; 1; 3]%nat.
Proof.
  intros Hi writes.
  assert (Hw : writes !! i
               = Some (if forallb (fun b => Py.Qlt_bool b a) (take i accs)
                       then Some (save_model "./model") else None)).
  { unfold writes, fit_checkpoints. rewrite (run_callback_lookup accs _ i a Hi).
    reflexivity. }
  destruct (forallb (fun b => Py.Qlt_bool b a) (take i accs)) eqn:Eall.
  - pose proof (proj1 (forallb_take_lookup _ _ _) Eall) as Hall.
    split; [|split].
    + split; [|intros _; exact Hw].
      intros _ j b Hj Hb. apply Qlt_bool_iff. exact (Hall j b Hj Hb).
    + split.
      * intros Hnone. rewrite Hw in Hnone. discriminate Hnone.
      * intros (j & b & Hj & Hb & Hle). exfalso.
        pose proof (Hall j b Hj Hb) as Hlt. apply Qlt_bool_iff in Hlt.
        exact (Qlt_not_le _ _ Hlt Hle).
    + vm_compute. reflexivity.
  - assert (Hex : exists j b, (j < i)%nat /\ accs !! j = Some b /\ (a <= b)%Q).
    { clear Hw writes Hi. revert i Eall.
      induction accs as [|c rest IH]; intros i Eall.
      - rewrite take_nil in Eall. discriminate Eall.
      - destruct i as [|i]; [discriminate Eall|].
        cbn [take forallb] in Eall. apply andb_false_iff in Eall.
        destruct Eall as [Ec | Erest].
        + exists 0%nat, c. split; [lia|]. split; [reflexivity|].
          apply Qnot_lt_le. intros Hlt. apply Qlt_bool_iff in Hlt. congruence.
        + destruct (IH i Erest) as (j & b & Hj & Hb & Hle).
          exists (S j), b. split; [lia|]. split; [exact Hb | exact Hle]. }
    split; [|split].
    + split.
      * intros Hsave. rewrite Hw in Hsave. discriminate Hsave.
      * intros Hall. exfalso. destruct Hex as (j & b & Hj & Hb & Hle).
        exact (Qlt_not_le _ _ (Hall j b Hj Hb) Hle).
    + split; [intros _; exact Hex | intros _; exact Hw].
    + vm_compute. reflexivity.
Qed.

Lemma checkpoint_best_so_far_witness :
  fit_checkpoints cp_callback (List.map val_logs made_up_accuracies) !! 2%nat
  = Some None.
Proof.
  assert (Hi : made_up_accuracies !! 2%nat = Some (55 # 100)) by reflexivity.
  destruct (checkpoint_best_so_far made_up_accuracies 2 (55 # 100) Hi) as (_ & Hno & _).
  apply Hno. exists 1%nat, (6 # 10). split; [lia|]. split; [reflexivity|].
  unfold Qle. cbn. lia.
Defined.

(** C2 as stated fails in its example: for the accuracies 0.5, 0.6, 0.55,
0.7 the callback makes three writes, not two; the first one follows the
epoch with 0.5. *)
Lemma checkpoint_three_writes :
  let writes := fit_checkpoints cp_callback (List.map val_logs made_up_accuracies) in
  writes = [Some (save_model "./model"); Some (save_model "./model"); None;
            Some (save_model "./model")]
  /\ length (write_epochs writes) = 3%nat
  /\ length (write_epochs writes) <> 2%nat.
Proof.
  cbn zeta. split; [|split].
  - vm_compute. reflexivity.
  - vm_compute. reflexivity.
  - vm_compute. intros Heq. discriminate Heq.
Qed.

End KerasSpec.

(** * The output of the assembled model *)

Module ForwardSpec.
Import Keras Forward.
Local Open Scope R_scope.

Lemma sum_exp_pos (v : tensor) : v <> [] -> 0 < sum (List.map exp v).
Proof.
  intros Hv. destruct v as [|z v]; [congruence|]. clear Hv.
  cbn [List.map sum List.fold_right].
  assert (Hnonneg : 0 <= List.fold_right Rplus 0 (List.map exp v)).
  { induction v as [|y v IH]; cbn [List.map List.fold_right].
    - lra.
    - pose proof (exp_pos y). lra. }
  pose proof (exp_pos z). lra.
Qed.

Lemma sum_map_div (v : tensor) (s : R) :
  sum (List.map (fun z => z / s) v) = sum v / s.
Proof.
  unfold sum. induction v as [|z v IH]; cbn [List.map List.fold_right].
  - unfold Rdiv. rewrite Rmult_0_l. reflexivity.
  - rewrite IH. unfold Rdiv. rewrite Rmult_plus_distr_r. reflexivity.
Qed.

(** The softmax of a non-empty vector is a vector of the same length whose
entries add up to one. *)
Lemma softmax_fn_normalised (v : tensor) :
  v <> [] -> sum (softmax_fn v) = 1.
Proof.
  intros Hv. unfold softmax_fn.
  rewrite <- (List.map_map exp (fun e => e / sum (List.map exp v))).
  rewrite sum_map_div.
  pose proof (sum_exp_pos v Hv) as Hpos.
  unfold Rdiv. apply Rinv_r. lra.
Qed.

Lemma softmax_fn_length (v : tensor) : length (softmax_fn v) = length v.
Proof. unfold softmax_fn. apply length_map. Qed.

Lemma call_layers_snoc (w : Weights) (ls : list Layer) (l : Layer) (idx : nat) (x : tensor) :
  call_layers w idx (ls ++ [l]) x
  = call_layer w (idx + length ls) l (call_layers w idx ls x).
Proof.
  revert idx x. induction ls as [|l0 ls IH]; intros idx x.
  - cbn. rewrite Nat.add_0_r. reflexivity.
  - cbn [app call_layers length]. rewrite IH. f_equal. lia.
Qed.

(** A stack that ends in a dense softmax layer of [n >= 1] units answers
every input with [n] numbers that add up to one, whatever comes before. *)
Lemma softmax_head (w : Weights) (ls : list Layer) (n : nat) (x : tensor) :
  (0 < n)%nat ->
  let y := call_layers w 0 (ls ++ [Dense n softmax]) x in
  length y = n /\ sum y = 1.
Proof.
  intros Hn y. unfold y. rewrite call_layers_snoc.
  cbn [call_layer activate].
  set (z := List.map _ (seq 0 n)).
  assert (Hlen : length z = n) by (unfold z; rewrite length_map, length_seq; reflexivity).
  split.
  - rewrite softmax_fn_length. exact Hlen.
  - apply softmax_fn_normalised. intros Hz. rewrite Hz in Hlen. cbn in Hlen. lia.
Qed.

Section Float32.
Import Forward32.
Context `{Kernels32}.

Lemma softmax32_length (v : tensor32) : length (softmax32 v) = length v.
Proof. unfold softmax32. rewrite !length_map. reflexivity. Qed.

Lemma call_layers32_snoc (ls : list Layer) (l : Layer) (idx : nat) (x : tensor32) :
  call_layers32 idx (ls ++ [l]) x
  = call_layer32 (idx + length ls) l (call_layers32 idx ls x).
Proof.
  revert idx x. induction ls as [|l0 ls IH]; intros idx x.
  - cbn. rewrite Nat.add_0_r. reflexivity.
  - cbn [app call_layers32 length]. rewrite IH. f_equal. lia.
Qed.

(** The float32 output of the assembled model is the softmax kernel applied
to the [num_classes] pre-activations of the last layer. *)
Lemma predict32_softmax_head (handle : string) (num_classes : nat) (x : tensor32) :
  let m := get_model handle num_classes in
  predict32 m x = softmax32 (logits32 m x)
  /\ length (logits32 m x) = num_classes.
Proof.
  cbn zeta.
  assert (Hsplit : layers (get_model handle num_classes)
                   = removelast (layers (get_model handle num_classes))
                     ++ [Dense num_classes softmax]) by reflexivity.
  split.
  - unfold predict32. rewrite Hsplit at 1. rewrite call_layers32_snoc. reflexivity.
  - unfold logits32. cbn [get_model layers last]. apply affine32_length.
Qed.

(** A float subtracted from itself leaves the positive zero. *)
Lemma sub32_diag (s : bool) (m : positive) (e : Z) :
  sub32 (SpecFloat.S754_finite s m e) (SpecFloat.S754_finite s m e) = zero32.
Proof.
  unfold sub32, SpecFloat.SFsub. rewrite Z.sub_diag. reflexivity.
Qed.

Lemma SFltb_irrefl (s : bool) (m : positive) (e : Z) :
  SpecFloat.SFltb (SpecFloat.S754_finite s m e) (SpecFloat.S754_finite s m e) = false.
Proof.
  unfold SpecFloat.SFltb, SpecFloat.SFcompare.
  rewrite Z.compare_refl.
  change (PosDef.Pos.compare_cont Eq m m) with (Pos.compare m m).
  rewrite Pos.compare_refl. destruct s; reflexivity.
Qed.

Lemma reduce_max32_repeat (z : f32) (n : nat) :
  SpecFloat.SFltb z z = false -> reduce_max32 (repeat z (S n)) = z.
Proof.
  intros Hz. unfold reduce_max32. cbn [repeat].
  induction n as [|n IH]; [reflexivity|].
  cbn [repeat fold_left]. rewrite Hz. exact IH.
Qed.

(** The softmax of ten equal finite pre-activations, for every exponential
that is right at zero and every reduction that adds ten ones to ten: each
entry is the quotient of 1 and 10, rounded to float32. *)
Lemma softmax32_ten_equal (s : bool) (m : positive) (e : Z) :
  exp32 zero32 = one32 ->
  reduce_sum32 (repeat one32 10) = of_int32 10 ->
  softmax32 (repeat (A := f32) (SpecFloat.S754_finite s m e) 10)
  = repeat (div32 one32 (of_int32 10)) 10
  /\ softmax32_reciprocal (repeat (A := f32) (SpecFloat.S754_finite s m e) 10)
     = repeat (div32 one32 (of_int32 10)) 10.
Proof.
  intros Hexp Hsum.
  unfold softmax32, softmax32_reciprocal.
  rewrite (reduce_max32_repeat _ 9 (SFltb_irrefl s m e)).
  cbn [repeat List.map]. rewrite sub32_diag, Hexp.
  change [one32; one32; one32; one32; one32; one32; one32; one32; one32; one32]
    with (repeat one32 10).
  rewrite Hsum. split; [reflexivity|].
  cbn [repeat List.map].
  assert (Hmul : mul32 one32 (div32 one32 (of_int32 10)) = div32 one32 (of_int32 10))
    by (vm_compute; reflexivity).
  rewrite Hmul. reflexivity.
Qed.

End Float32.




End ForwardSpec.

(** * Facts about the string and path routines *)

Module PathFacts.
Import Path.

Lemma startswith_char (s : str) (c : ascii) :
  startswith s [c] = match s with d :: _ => Ascii.eqb c d | [] => false end.
Proof.
  destruct s as [|d s]; cbn [startswith]; [reflexivity|].
  destruct s; apply andb_true_r.
Qed.

Lemma find_from_absent (s : str) (c : ascii) (i : Z) :
  c ∉ s -> find_from s [c] i = -1.
Proof.
  revert i. induction s as [|d s IH]; intros i Hc; cbn [find_from].
  - reflexivity.
  - rewrite startswith_char.
    apply not_elem_of_cons in Hc as [Hcd Hcs].
    destruct (Ascii.eqb_spec c d) as [->|_]; [congruence|].
    apply IH. exact Hcs.
Qed.

Lemma find_from_first (pre post : str) (c : ascii) (i : Z) :
  c ∉ pre -> find_from (pre ++ c :: post) [c] i = i + Z.of_nat (length pre).
Proof.
  revert i. induction pre as [|d pre IH]; intros i Hc; cbn [app find_from length].
  - rewrite startswith_char, Ascii.eqb_refl. lia.
  - rewrite startswith_char.
    apply not_elem_of_cons in Hc as [Hcd Hcs].
    destruct (Ascii.eqb_spec c d) as [->|_]; [congruence|].
    rewrite IH by exact Hcs. lia.
Qed.

(** [rfind] of a single character: absent, or an index inside the string. *)
Lemma rfind_from_range (s : str) (c : ascii) (i : Z) :
  rfind_from s [c] i = -1
  \/ (i <= rfind_from s [c] i < i + Z.of_nat (length s)).
Proof.
  revert i. induction s as [|d s IH]; intros i; cbn [rfind_from length].
  - left. reflexivity.
  - destruct (IH (i + 1)) as [Hnone | Hin].
    + rewrite Hnone. cbn [Z.leb Z.compare]. rewrite startswith_char.
      destruct (Ascii.eqb c d); [right; lia | left; reflexivity].
    + destruct (0 <=? rfind_from s [c] (i + 1)) eqn:E.
      * right. lia.
      * rewrite startswith_char.
        destruct (Ascii.eqb c d); [right; lia | left; reflexivity].
Qed.

Lemma rfind_from_absent (s : str) (c : ascii) (i : Z) :
  c ∉ s -> rfind_from s [c] i = -1.
Proof.
  revert i. induction s as [|d s IH]; intros i Hc; cbn [rfind_from].
  - reflexivity.
  - apply not_elem_of_cons in Hc as [Hcd Hcs].
    rewrite IH by exact Hcs. cbn [Z.leb Z.compare].
    rewrite startswith_char.
    destruct (Ascii.eqb_spec c d) as [->|_]; [congruence | reflexivity].
Qed.

(** The last occurrence: nothing equal to [c] follows it. *)
Lemma rfind_from_last (a b : str) (c : ascii) (i : Z) :
  0 <= i -> c ∉ b -> rfind_from (a ++ c :: b) [c] i = i + Z.of_nat (length a).
Proof.
  revert i. induction a as [|d a IH]; intros i Hi Hc; cbn [app rfind_from length].
  - rewrite rfind_from_absent by exact Hc. cbn [Z.leb Z.compare].
    rewrite startswith_char, Ascii.eqb_refl. lia.
  - rewrite IH by (lia || exact Hc).
    destruct (0 <=? i + 1 + Z.of_nat (length a)) eqn:E; lia.
Qed.

Lemma rfind_from_app_absent (a b : str) (c : ascii) (i : Z) :
  0 <= i -> c ∉ b -> rfind_from (a ++ b) [c] i = rfind_from a [c] i.
Proof.
  revert i. induction a as [|d a IH]; intros i Hi Hc; cbn [app].
  - rewrite rfind_from_absent by exact Hc. reflexivity.
  - cbn [rfind_from]. rewrite IH by (lia || exact Hc).
    rewrite !startswith_char. reflexivity.
Qed.

Lemma clamp_index_nonneg (s : str) (n : nat) :
  (n <= length s)%nat -> clamp_index s (Z.of_nat n) = n.
Proof.
  intros Hn. unfold clamp_index.
  destruct (Z.of_nat n <? 0) eqn:E; lia.
Qed.

Lemma slice_to_app (a b : str) : slice_to (a ++ b) (Z.of_nat (length a)) = a.
Proof.
  unfold slice_to. rewrite clamp_index_nonneg by (rewrite length_app; lia).
  apply take_app_length.
Qed.

Lemma slice_from_app (a b : str) : slice_from (a ++ b) (Z.of_nat (length a)) = b.
Proof.
  unfold slice_from. rewrite clamp_index_nonneg by (rewrite length_app; lia).
  apply drop_app_length.
Qed.

Lemma slice_to_minus_one (s : str) : slice_to s (-1) = removelast s.
Proof.
  unfold slice_to, clamp_index. cbn [Z.ltb Z.compare].
  rewrite removelast_firstn_len.
  replace (Z.to_nat (Z.max 0 (Z.of_nat (length s) + -1))) with (Nat.pred (length s)) by lia.
  reflexivity.
Qed.

Lemma slice_one (a b : str) (c : ascii) :
  slice (a ++ c :: b) (Z.of_nat (length a)) (Z.of_nat (length a) + 1) = [c].
Proof.
  unfold slice.
  replace (Z.of_nat (length a) + 1) with (Z.of_nat (S (length a))) by lia.
  rewrite !clamp_index_nonneg by (rewrite length_app; cbn; lia).
  rewrite drop_app_length.
  replace (S (length a) - length a)%nat with 1%nat by lia.
  reflexivity.
Qed.

Lemma no_sep_app (pf : Platform) (a b : str) :
  no_sep pf (a ++ b) <-> no_sep pf a /\ no_sep pf b.
Proof.
  unfold no_sep. split.
  - intros Hab. split; intros c Hc; apply Hab; apply elem_of_app; auto.
  - intros [Ha Hb] c Hc. apply elem_of_app in Hc as [Hc|Hc]; auto.
Qed.

Lemma no_sep_cons (pf : Platform) (c : ascii) (s : str) :
  no_sep pf (c :: s) <-> is_sep pf c = false /\ no_sep pf s.
Proof.
  unfold no_sep. split.
  - intros Hcs. split; [apply Hcs; left | intros d Hd; apply Hcs; right; exact Hd].
  - intros [Hc Hs] d Hd. apply elem_of_cons in Hd as [->|Hd]; auto.
Qed.

Lemma no_sep_forallb (pf : Platform) (s : str) :
  forallb (fun c => negb (is_sep pf c)) s = true <-> no_sep pf s.
Proof.
  rewrite forallb_forall. unfold no_sep. split.
  - intros Hall c Hc. apply list_elem_of_In in Hc. apply Hall in Hc.
    apply negb_true_iff in Hc. exact Hc.
  - intros Hall c Hc. apply list_elem_of_In in Hc. rewrite (Hall c Hc). reflexivity.
Qed.

Lemma sep_is_sep (pf : Platform) : is_sep pf (sep pf) = true.
Proof. destruct pf; reflexivity. Qed.

Lemma no_sep_absent (pf : Platform) (s : str) (c : ascii) :
  no_sep pf s -> is_sep pf c = true -> c ∉ s.
Proof. intros Hs Hc Hin. rewrite (Hs c Hin) in Hc. discriminate Hc. Qed.

(** The index [splitext] takes for the last separator, on a path that is a
directory, one separator, and a name without separators. *)
Lemma sep_index_of_entry (pf : Platform) (dir name : str) :
  no_sep pf name ->
  match altsep pf with
  | Some a => Z.max (rfind (dir ++ sep pf :: name) [sep pf]) (rfind (dir ++ sep pf :: name) [a])
  | None => rfind (dir ++ sep pf :: name) [sep pf]
  end = Z.of_nat (length dir).
Proof.
  intros Hname. unfold rfind.
  rewrite rfind_from_last by (lia || (apply (no_sep_absent pf); [exact Hname | apply sep_is_sep])).
  destruct pf; cbn [altsep]; [lia|].
  change (dir ++ sep nt :: name) with (dir ++ ([sep nt] ++ name)).
  rewrite rfind_from_app_absent.
  - destruct (rfind_from_range dir "/"%char 0) as [-> | Hr]; lia.
  - lia.
  - intros Hin. apply elem_of_app in Hin as [Hin | Hin].
    + apply list_elem_of_singleton in Hin. discriminate Hin.
    + pose proof (Hname _ Hin) as Hs. discriminate Hs.
Qed.

(** [splitext] on an entry of a directory whose name is a stem that does
not start with a dot, followed by one extension. *)
Lemma splitext_entry (pf : Platform) (dir : str) (c0 : ascii) (stem ext : str) :
  c0 <> "."%char ->
  no_sep pf (c0 :: stem) -> no_sep pf ext -> "."%char ∉ ext ->
  splitext pf (dir ++ sep pf :: (c0 :: stem) ++ "."%char :: ext)
  = (dir ++ sep pf :: c0 :: stem, "."%char :: ext).
Proof.
  intros Hc0 Hstem Hext Hdot.
  assert (Hname : no_sep pf ((c0 :: stem) ++ "."%char :: ext)).
  { apply no_sep_app. split; [exact Hstem|]. apply no_sep_cons. split; [|exact Hext].
    destruct pf; reflexivity. }
  unfold splitext. cbn zeta.
  rewrite (sep_index_of_entry pf dir _ Hname).
  set (p := dir ++ sep pf :: (c0 :: stem) ++ "."%char :: ext).
  assert (Hp : p = (dir ++ sep pf :: c0 :: stem) ++ "."%char :: ext).
  { unfold p. rewrite <- app_assoc. reflexivity. }
  assert (Hdi : rfind p (py ".") = Z.of_nat (length (dir ++ sep pf :: c0 :: stem))).
  { unfold rfind. change (py ".") with ["."%char]. rewrite Hp.
    rewrite rfind_from_last by (lia || exact Hdot). lia. }
  rewrite Hdi. rewrite length_app. cbn [length].
  destruct (Z.ltb_spec (Z.of_nat (length dir)) (Z.of_nat (length dir + S (S (length stem)))));
    [|lia].
  replace (Z.to_nat (Z.of_nat (length dir + S (S (length stem))) - (Z.of_nat (length dir) + 1)))
    with (S (length stem)) by lia.
  cbn [splitext_scan].
  assert (Hone : slice p (Z.of_nat (length dir) + 1) (Z.of_nat (length dir) + 1 + 1) = [c0]).
  { unfold p. change (dir ++ sep pf :: (c0 :: stem) ++ "."%char :: ext)
      with (dir ++ [sep pf] ++ c0 :: (stem ++ "."%char :: ext)).
    rewrite app_assoc.
    replace (Z.of_nat (length dir) + 1) with (Z.of_nat (length (dir ++ [sep pf])))
      by (rewrite length_app; cbn; lia).
    apply slice_one. }
  rewrite Hone.
  assert (Hne : str_eqb [c0] (py ".") = false).
  { unfold str_eqb. apply bool_decide_eq_false. intros Heq. injection Heq as ->.
    congruence. }
  rewrite Hne. cbn [negb].
  replace (Z.of_nat (length dir + S (S (length stem))))
    with (Z.of_nat (length (dir ++ sep pf :: c0 :: stem)))
    by (rewrite length_app; cbn; lia).
  rewrite Hp, slice_to_app, slice_from_app. reflexivity.
Qed.

(** Title and extension always make up the path again. *)
Lemma splitext_join (pf : Platform) (p : str) :
  fst (splitext pf p) ++ snd (splitext pf p) = p.
Proof.
  assert (Hnil : p ++ slice_to p 0 = p).
  { unfold slice_to, clamp_index. cbn [Z.ltb Z.compare].
    replace (Z.to_nat (Z.min 0 (Z.of_nat (length p)))) with 0%nat by lia.
    cbn. apply app_nil_r. }
  assert (Hscan : forall fuel i k,
             fst (splitext_scan fuel p i k) ++ snd (splitext_scan fuel p i k) = p).
  { induction fuel as [|fuel IH]; intros i k; cbn [splitext_scan].
    - exact Hnil.
    - destruct (negb _); [|apply IH].
      cbn [fst snd]. unfold slice_to, slice_from. apply take_drop. }
  unfold splitext.
  destruct (_ <? _); [apply Hscan | exact Hnil].
Qed.

(** *** Splitting and resolving paths *)

Lemma split_path_cons (pf : Platform) (s : str) :
  exists piece rest, split_path pf s = piece :: rest.
Proof.
  destruct s as [|c s]; cbn [split_path]; [eauto|].
  destruct (is_sep pf c); [eauto|].
  destruct (split_path pf s); eauto.
Qed.

Lemma split_path_no_sep (pf : Platform) (s : str) :
  no_sep pf s -> split_path pf s = [s].
Proof.
  induction s as [|c s IH]; intros Hs; cbn [split_path]; [reflexivity|].
  apply no_sep_cons in Hs as [Hc Hs]. rewrite Hc, (IH Hs). reflexivity.
Qed.

Lemma split_path_app_sep (pf : Platform) (a b : str) (c : ascii) :
  is_sep pf c = true ->
  split_path pf (a ++ c :: b) = split_path pf a ++ split_path pf b.
Proof.
  intros Hc. induction a as [|d a IH]; cbn [app split_path].
  - rewrite Hc. reflexivity.
  - rewrite IH. destruct (is_sep pf d); [reflexivity|].
    destruct (split_path_cons pf a) as (piece & rest & ->). reflexivity.
Qed.

(** A path that ends in a piece without separators: the pieces before it
are those of the path with the piece cut off. *)
Lemma split_path_app_no_sep (pf : Platform) (a b : str) :
  no_sep pf b ->
  exists init piece,
    split_path pf a = init ++ [piece]
    /\ split_path pf (a ++ b) = init ++ [piece ++ b].
Proof.
  intros Hb. induction a as [|d a IH]; cbn [app split_path].
  - exists [], []. rewrite (split_path_no_sep pf b Hb). split; reflexivity.
  - destruct IH as (init & piece & Ha & Hab). rewrite Ha, Hab.
    destruct (is_sep pf d).
    + exists ([] :: init), piece. split; reflexivity.
    + destruct init as [|i0 init]; cbn [app].
      * exists [], (d :: piece). split; reflexivity.
      * exists ((d :: i0) :: init), piece. split; reflexivity.
Qed.

Lemma resolve_piece_name (acc : list str) (name : str) :
  name <> [] -> name <> py "." -> name <> py ".." ->
  resolve_piece acc name = acc ++ [name].
Proof.
  intros H0 H1 H2. unfold resolve_piece, str_eqb.
  rewrite !bool_decide_eq_false_2 by assumption. reflexivity.
Qed.

Lemma valid_name_spec (pf : Platform) (name : str) :
  valid_name pf name = true
  <-> name <> [] /\ name <> py "." /\ name <> py ".." /\ no_sep pf name.
Proof.
  unfold valid_name, str_eqb. rewrite !andb_true_iff, !negb_true_iff.
  rewrite !bool_decide_eq_false, no_sep_forallb. tauto.
Qed.

Lemma resolve_app_sep (pf : Platform) (a b : str) (c : ascii) :
  is_sep pf c = true ->
  resolve pf (a ++ c :: b) = fold_left resolve_piece (split_path pf b) (resolve pf a).
Proof.
  intros Hc. unfold resolve. rewrite (split_path_app_sep pf a b c Hc).
  apply fold_left_app.
Qed.

(** Resolving a directory path, a separator and an entry name. *)
Lemma resolve_entry (pf : Platform) (dir name : str) (c : ascii) :
  is_sep pf c = true -> valid_name pf name = true ->
  resolve pf (dir ++ c :: name) = resolve pf dir ++ [name].
Proof.
  intros Hc Hname. apply valid_name_spec in Hname as (H0 & H1 & H2 & Hsep).
  rewrite (resolve_app_sep pf dir name c Hc), (split_path_no_sep pf name Hsep).
  cbn [fold_left]. apply resolve_piece_name; assumption.
Qed.

(** *** Matching names *)

Lemma normcase_map (pf : Platform) (s : str) :
  normcase pf s = List.map (normchar pf) s.
Proof.
  destruct pf; cbn [normcase normchar].
  - symmetry. apply List.map_id.
  - unfold lower. rewrite List.map_map. reflexivity.
Qed.

Lemma normcase_app (pf : Platform) (a b : str) :
  normcase pf (a ++ b) = normcase pf a ++ normcase pf b.
Proof. rewrite !normcase_map. apply List.map_app. Qed.

(** The pieces of a name in the compared form are in that form. *)
Lemma normcase_app_inv (pf : Platform) (a b : str) :
  normcase pf (a ++ b) = a ++ b -> normcase pf a = a /\ normcase pf b = b.
Proof.
  rewrite normcase_app. intros Heq.
  apply app_inj_1 in Heq; [exact Heq|].
  rewrite normcase_map. apply length_map.
Qed.

Lemma normchar_dot (pf : Platform) (c : ascii) :
  normchar pf c = "."%char -> c = "."%char.
Proof.
  destruct pf; cbn [normchar]; [trivial|].
  destruct c as [[] [] [] [] [] [] [] []]; vm_compute; intros Heq;
    first [reflexivity | discriminate Heq].
Qed.

Lemma startswith_prefix (s p : str) :
  startswith s p = true <-> exists r, s = p ++ r.
Proof.
  revert s. induction p as [|c p IH]; intros s; cbn [startswith].
  - split; [intros _; exists s; reflexivity | intros _; destruct s; reflexivity].
  - destruct s as [|d s].
    + cbn [startswith]. split; [discriminate | intros [r Hr]; discriminate Hr].
    + cbn [startswith]. rewrite andb_true_iff, IH. split.
      * intros [Hcd [r ->]]. apply Ascii.eqb_eq in Hcd as ->. exists r. reflexivity.
      * intros [r Hr]. injection Hr as -> ->. split; [apply Ascii.eqb_refl | eauto].
Qed.

Lemma endswith_suffix (s p : str) :
  endswith s p = true <-> exists r, s = r ++ p.
Proof.
  unfold endswith. rewrite startswith_prefix. split.
  - intros [r Hr]. exists (rev r).
    rewrite <- (rev_involutive s), Hr, rev_app_distr, rev_involutive. reflexivity.
  - intros [r ->]. exists (rev r). apply rev_app_distr.
Qed.

(** A visible name that matches [*.suf]: a stem that does not start with
a dot, a dot, and an extension that is the suffix up to case. *)
Lemma matched_name (pf : Platform) (name suf : str) :
  "."%char ∉ suf ->
  startswith name (py ".") = false ->
  endswith (normcase pf name) (normcase pf ("."%char :: suf)) = true ->
  exists c0 stem e,
    name = (c0 :: stem) ++ ("."%char :: e)
    /\ c0 <> "."%char /\ ("."%char ∉ e)
    /\ normcase pf e = normcase pf suf.
Proof.
  intros Hsuf Hvis Hend.
  apply endswith_suffix in Hend as [r Hr].
  rewrite !normcase_map in Hr.
  change ((normchar pf <$> name) = r ++ (normchar pf <$> ("."%char :: suf))) in Hr.
  apply fmap_app_inv in Hr as (stem & e & -> & He & ->).
  assert (Hd : normchar pf "."%char = "."%char) by (destruct pf; reflexivity).
  destruct e as [|e0 e]; [discriminate He|].
  rewrite !fmap_cons, Hd in He. injection He as He0 He.
  symmetry in He0. apply normchar_dot in He0 as ->.
  assert (Hdot : "."%char ∉ e).
  { intros Hin. apply Hsuf.
    assert (Hin' : normchar pf "."%char ∈ normchar pf <$> e)
      by (apply list_elem_of_fmap; eauto).
    rewrite <- He in Hin'. apply list_elem_of_fmap in Hin' as (c & Hc & Hcin).
    rewrite Hd in Hc. symmetry in Hc. apply normchar_dot in Hc as ->. exact Hcin. }
  change (py ".") with ["."%char] in Hvis. rewrite startswith_char in Hvis.
  destruct stem as [|c0 stem].
  - cbn in Hvis. discriminate Hvis.
  - exists c0, stem, e. split; [reflexivity|]. split; [|split].
    + intros ->. cbn in Hvis. discriminate Hvis.
    + exact Hdot.
    + rewrite !normcase_map. symmetry. exact He.
Qed.

(** The extension of a matched name, lower-cased as the image writer
does, is the pattern's. *)
Lemma normcase_lower (pf : Platform) (e suf : str) :
  normcase pf e = suf -> "\"%char ∉ suf -> lower suf = suf -> lower e = suf.
Proof.
  destruct pf; cbn [normcase].
  - intros -> _ Hlow. exact Hlow.
  - intros <- Hbs _. unfold lower in *. rewrite List.map_map in Hbs.
    induction e as [|c e IH]; [reflexivity|].
    cbn [List.map] in *. apply not_elem_of_cons in Hbs as [Hc He].
    rewrite <- (IH He). f_equal.
    destruct (Ascii.eqb (lower_char c) "/"%char); [congruence | reflexivity].
Qed.

Lemma entry_name_valid (pf : Platform) (c0 : ascii) (stem e : str) :
  c0 <> "."%char -> no_sep pf (c0 :: stem) -> no_sep pf e ->
  valid_name pf ((c0 :: stem) ++ "."%char :: e) = true.
Proof.
  intros Hc0 Hstem He. apply valid_name_spec. repeat split.
  - discriminate.
  - intros Heq. injection Heq as Heq _. congruence.
  - intros Heq. injection Heq as Heq _. congruence.
  - apply no_sep_app. split; [exact Hstem|]. apply no_sep_cons.
    split; [destruct pf; reflexivity | exact He].
Qed.

(** Appending a word without separators to a stem. *)
Lemma no_sep_stem_app (pf : Platform) (c0 : ascii) (stem word : str) :
  no_sep pf (c0 :: stem) -> no_sep pf word -> no_sep pf (c0 :: stem ++ word).
Proof.
  intros Hstem Hword. change (c0 :: stem ++ word) with ((c0 :: stem) ++ word).
  apply no_sep_app. auto.
Qed.

Lemma no_sep_literal (pf : Platform) (s : str) :
  forallb (fun c => negb (is_sep pf c)) s = true -> no_sep pf s.
Proof. apply no_sep_forallb. Qed.


Lemma str_of_nat_no_sep (pf : Platform) (n : nat) : no_sep pf (str_of_nat n).
Proof.
  unfold str_of_nat, py.
  assert (Hdigits : forall u, no_sep pf (list_ascii_of_string (NilEmpty.string_of_uint u))).
  { induction u; cbn [NilEmpty.string_of_uint list_ascii_of_string];
      [intros c Hc; inversion Hc | ..];
      (apply no_sep_cons; split; [destruct pf; reflexivity | assumption]). }
  unfold NilZero.string_of_uint.
  destruct (Nat.to_uint n); try apply Hdigits.
  cbn. apply no_sep_cons. split; [destruct pf; reflexivity|].
  intros c Hc. inversion Hc.
Qed.

Lemma long_name_valid (pf : Platform) (x : str) :
  no_sep pf x -> (3 <= length x)%nat -> valid_name pf x = true.
Proof.
  intros Hsep Hlen. apply valid_name_spec.
  repeat split; try exact Hsep; intros ->; cbn in Hlen; lia.
Qed.

End PathFacts.

(** * Properties of the batch jobs *)

Module BatchSpec.
Import Path PathFacts Batch.

Section WithImaging.
Context `{Imaging}.

(** *** The calls into the file system *)

Lemma Image_open_ok (pf : Platform) (f : str) (w w1 : World) (img : Image) :
  Image_open pf f w = (Ok img, w1)
  <-> files (fs w) !! resolve pf f = Some (image_data img) /\ w1 = w.
Proof.
  unfold Image_open.
  destruct (files (fs w) !! resolve pf f) as [[img0|]|].
  - split.
    + intros Heq. injection Heq as -> ->. auto.
    + intros [Heq ->]. injection Heq as ->. reflexivity.
  - split; [discriminate | intros [Heq _]; discriminate Heq].
  - split; [destruct (is_dir _ _); discriminate | intros [Heq _]; discriminate Heq].
Qed.

Lemma Image_open_raise (pf : Platform) (f : str) (w w1 : World) (e : Error) :
  Image_open pf f w = (Raise e, w1) -> w1 = w.
Proof.
  unfold Image_open.
  destruct (files (fs w) !! resolve pf f) as [[img0|]|]; [discriminate| |].
  - intros Heq. injection Heq as _ ->. reflexivity.
  - destruct (is_dir _ _); intros Heq; injection Heq as _ ->; reflexivity.
Qed.

(** A successful save: where it may happen and what it leaves. *)
Lemma Image_save_ok (pf : Platform) (img : Image) (p : str) (w w1 : World) (u : unit) :
  Image_save pf img p w = (Ok u, w1) ->
  is_dir (fs w) (resolve pf p) = false
  /\ is_dir (fs w) (removelast (resolve pf p)) = true
  /\ files (fs w1)
     = <[ resolve pf p := image_data (encoded (lower (snd (splitext pf p))) img) ]>
         (files (fs w))
  /\ dirs (fs w1) = dirs (fs w)
  /\ trace w1 = trace w ++ [ev_save p img].
Proof.
  unfold Image_save.
  destruct (EXTENSION _) as [fmt|]; [|discriminate].
  destruct (is_dir (fs w) (resolve pf p)); [discriminate|].
  destruct (is_dir (fs w) (removelast (resolve pf p))); cbn [negb].
  - destruct (writes_mode fmt (mode img)); cbn [negb]; [|discriminate].
    intros Heq. injection Heq as _ <-. cbn. repeat split; reflexivity.
  - destruct (is_file _ _); discriminate.
Qed.

Lemma Image_save_raise (pf : Platform) (img : Image) (p : str) (w w1 : World) (e : Error) :
  Image_save pf img p w = (Raise e, w1) -> w1 = w.
Proof.
  unfold Image_save.
  destruct (EXTENSION _) as [fmt|]; [|intros Heq; injection Heq as _ ->; reflexivity].
  destruct (is_dir (fs w) (resolve pf p)); [intros Heq; injection Heq as _ ->; reflexivity|].
  destruct (is_dir (fs w) (removelast (resolve pf p))); cbn [negb].
  - destruct (writes_mode fmt (mode img)); cbn [negb]; [discriminate|].
    intros Heq; injection Heq as _ ->; reflexivity.
  - destruct (is_file _ _); intros Heq; injection Heq as _ ->; reflexivity.
Qed.

(** When a save goes through. *)
Lemma Image_save_succeeds (pf : Platform) (img : Image) (p : str) (w : World) (fmt : Format) :
  EXTENSION (lower (snd (splitext pf p))) = Some fmt ->
  writes_mode fmt (mode img) = true ->
  is_dir (fs w) (resolve pf p) = false ->
  is_dir (fs w) (removelast (resolve pf p)) = true ->
  exists w1, Image_save pf img p w = (Ok tt, w1).
Proof.
  intros Hext Hmode Hnd Hpd. unfold Image_save.
  rewrite Hext, Hnd, Hpd, Hmode. cbn [negb]. eauto.
Qed.

(** [os.mkdir] never touches a regular file. *)
Lemma os_mkdir_files (pf : Platform) (p : str) (w w1 : World) (r : result unit) :
  os_mkdir pf p w = (r, w1) ->
  files (fs w1) = files (fs w)
  /\ saved_paths (trace w1) = saved_paths (trace w)
  /\ (forall c, c ∈ dirs (fs w) -> c ∈ dirs (fs w1)).
Proof.
  unfold os_mkdir.
  destruct (is_dir (fs w) (resolve pf p) || is_file (fs w) (resolve pf p)).
  { intros Heq. injection Heq as _ <-. auto. }
  destruct (is_dir (fs w) (removelast (resolve pf p))).
  { intros Heq. injection Heq as _ <-. cbn. split; [reflexivity|]. split.
    - unfold saved_paths. rewrite omap_app. cbn. apply app_nil_r.
    - intros c Hc. set_solver. }
  destruct (is_file _ _); intros Heq; injection Heq as _ <-; auto.
Qed.

(** *** What the globs match *)

Lemma listdir_entry (t : FS) (d : list str) (name : str) :
  name ∈ listdir t d -> d ++ [name] ∈ dom (files t) ∪ dirs t.
Proof.
  unfold listdir. intros Hin.
  apply list_elem_of_omap in Hin as (c & Hc & Hname).
  apply elem_of_elements in Hc.
  destruct (bool_decide (removelast c = d)) eqn:Ed; [|discriminate Hname].
  apply bool_decide_eq_true in Ed. subst d.
  apply last_Some in Hname as [c' ->].
  rewrite removelast_last. exact Hc.
Qed.

Lemma fs_names_ok_entry (pf : Platform) (t : FS) (c : list str) (name : str) :
  fs_names_ok pf t = true -> c ∈ dom (files t) ∪ dirs t -> name ∈ c ->
  valid_name pf name = true.
Proof.
  unfold fs_names_ok. intros Hok Hc Hname.
  rewrite forallb_forall in Hok.
  specialize (Hok c). rewrite forallb_forall in Hok.
  apply Hok.
  - apply list_elem_of_In, elem_of_elements. exact Hc.
  - apply list_elem_of_In. exact Hname.
Qed.

Lemma fs_folded_spec (pf : Platform) (t : FS) :
  fs_folded pf t = true
  <-> forall c name, c ∈ dom (files t) ∪ dirs t -> name ∈ c -> normcase pf name = name.
Proof.
  unfold fs_folded. rewrite forallb_forall. split.
  - intros Hall c name Hc Hname.
    specialize (Hall c ltac:(apply list_elem_of_In, elem_of_elements; exact Hc)).
    rewrite forallb_forall in Hall.
    specialize (Hall name ltac:(apply list_elem_of_In; exact Hname)).
    apply bool_decide_eq_true in Hall. exact Hall.
  - intros Hall c Hc. apply forallb_forall. intros name Hname.
    apply bool_decide_eq_true. apply (Hall c name).
    + apply elem_of_elements, list_elem_of_In. exact Hc.
    + apply list_elem_of_In. exact Hname.
Qed.

(** A path matched by the glob of a script: the directory as written in
the pattern, the platform's separator and a visible entry name made of a
stem and one extension, the pattern's up to the platform's case rule. *)
Lemma glob_entry (pf : Platform) (t : FS) (dirname suf f : str) (c : ascii) :
  last dirname = Some c -> is_sep pf c = false ->
  "."%char ∉ suf ->
  fs_names_ok pf t = true ->
  f ∈ glob pf t dirname ("."%char :: suf) ->
  exists c0 stem e,
    f = dirname ++ sep pf :: (c0 :: stem) ++ "."%char :: e
    /\ c0 <> "."%char
    /\ no_sep pf (c0 :: stem) /\ no_sep pf e /\ ("."%char ∉ e)
    /\ normcase pf e = normcase pf suf
    /\ is_dir t (resolve pf dirname) = true
    /\ resolve pf dirname ++ [(c0 :: stem) ++ "."%char :: e] ∈ dom (files t) ∪ dirs t.
Proof.
  intros Hlast Hc Hsuf Hok Hf. unfold glob in Hf.
  destruct (is_dir t (resolve pf dirname)) eqn:Edir; [|inversion Hf].
  apply list_elem_of_In, in_map_iff in Hf as (name & <- & Hname).
  apply filter_In in Hname as [Hname Hmatch].
  apply list_elem_of_In in Hname.
  apply andb_true_iff in Hmatch as [Hvis Hend]. apply negb_true_iff in Hvis.
  destruct (matched_name pf name suf Hsuf Hvis Hend)
    as (c0 & stem & e & -> & Hc0 & Hdot & He).
  pose proof (listdir_entry _ _ _ Hname) as Hentry.
  assert (Hvalid : valid_name pf ((c0 :: stem) ++ "."%char :: e) = true).
  { apply (fs_names_ok_entry pf t _ _ Hok Hentry). apply elem_of_app. right.
    apply list_elem_of_singleton. reflexivity. }
  apply valid_name_spec in Hvalid as (_ & _ & _ & Hsep).
  apply no_sep_app in Hsep as [Hstem Hext]. apply no_sep_cons in Hext as [_ Hext].
  exists c0, stem, e. unfold join. rewrite Hlast, Hc.
  repeat split; try assumption.
Qed.

(** *** The resize job *)

Lemma resize_body_eq (pf : Platform) (f : str) (w : World) :
  resize_body pf f w
  = match Image_open pf f w with
    | (Ok img, w0) =>
        Image_save pf (resize (convert img RGB) (256, 256)) (resize_path pf f) w0
    | (Raise e, w0) => (Raise e, w0)
    end.
Proof.
  unfold resize_body, resize_path, mbind, M_bind.
  destruct (Image_open pf f w) as [[img|e] w0]; [|reflexivity].
  destruct (splitext pf f) as [title ext]. reflexivity.
Qed.

Lemma resize_body_ok (pf : Platform) (f : str) (w w1 : World) (u : unit) :
  resize_body pf f w = (Ok u, w1) ->
  exists img,
    files (fs w) !! resolve pf f = Some (image_data img)
    /\ files (fs w1)
       = <[ resolve pf (resize_path pf f)
            := image_data (encoded (lower (snd (splitext pf (resize_path pf f))))
                             (resize (convert img RGB) (256, 256))) ]> (files (fs w))
    /\ dirs (fs w1) = dirs (fs w)
    /\ trace w1 = trace w ++ [ev_save (resize_path pf f) (resize (convert img RGB) (256, 256))].
Proof.
  rewrite resize_body_eq.
  destruct (Image_open pf f w) as [[img|e] w0] eqn:Eopen; [|discriminate].
  apply Image_open_ok in Eopen as [Hfile ->].
  intros Hsave. apply Image_save_ok in Hsave as (_ & _ & Hfiles & Hdirs & Htrace).
  exists img. auto.
Qed.

Lemma resize_body_raise (pf : Platform) (f : str) (w w1 : World) (e : Error) :
  resize_body pf f w = (Raise e, w1) -> w1 = w.
Proof.
  rewrite resize_body_eq.
  destruct (Image_open pf f w) as [[img|e0] w0] eqn:Eopen.
  - apply Image_open_ok in Eopen as [_ ->]. apply Image_save_raise.
  - apply Image_open_raise in Eopen as ->. intros Heq. injection Heq as _ ->. reflexivity.
Qed.

(** What a run of the resize job can change, whether it ends well or not:
no directory, and no file but at the output paths of the listed files;
files are added or replaced, never removed, and an image stays an image. *)
Lemma resize_job_frame (pf : Platform) (l : list str) (w w' : World) (r : result unit) :
  resize_job pf l w = (r, w') ->
  dirs (fs w') = dirs (fs w)
  /\ (forall c, c ∉ List.map (fun g => resolve pf (resize_path pf g)) l ->
        files (fs w') !! c = files (fs w) !! c)
  /\ (forall c, holds_image w c -> holds_image w' c)
  /\ (forall c, holds_256 w c -> holds_256 w' c)
  /\ (forall c, is_Some (files (fs w) !! c) -> is_Some (files (fs w') !! c)).
Proof.
  revert w. induction l as [|f rest IH]; intros w; cbn [resize_job].
  - intros Heq. injection Heq as _ <-. auto.
  - destruct (resize_body pf f w) as [[u|e] w1] eqn:Ebody.
    + intros Hrest. apply IH in Hrest as (Hd & Hframe & Himg & H256 & Hsome).
      apply resize_body_ok in Ebody as (img & Hfile & Hfiles & Hdirs & _).
      split; [congruence|]. split; [|split; [|split]].
      * intros c Hc. cbn [List.map] in Hc. apply not_elem_of_cons in Hc as [Hcf Hc].
        rewrite (Hframe c Hc), Hfiles. apply lookup_insert_ne. congruence.
      * intros c [i Hi]. apply Himg. unfold holds_image. rewrite Hfiles.
        destruct (decide (resolve pf (resize_path pf f) = c)) as [<-|Hne].
        -- rewrite lookup_insert_eq. eauto.
        -- rewrite lookup_insert_ne by exact Hne. eauto.
      * intros c (out & Ho & Hsz & Hmd). apply H256. unfold holds_256. rewrite Hfiles.
        destruct (decide (resolve pf (resize_path pf f) = c)) as [<-|Hne].
        -- rewrite lookup_insert_eq. eexists. split; [reflexivity|]. cbn. auto.
        -- rewrite lookup_insert_ne by exact Hne. eauto.
      * intros c Hc. apply Hsome. rewrite Hfiles.
        destruct (decide (resolve pf (resize_path pf f) = c)) as [<-|Hne].
        -- rewrite lookup_insert_eq. eauto.
        -- rewrite lookup_insert_ne by exact Hne. exact Hc.
    + intros Heq. injection Heq as _ <-.
      apply resize_body_raise in Ebody as ->. auto.
Qed.

(** When every listed file holds an image and every output path can be
written, the job runs to its end and leaves a 256x256 image at the output
path of every listed file. *)
Lemma resize_job_run (pf : Platform) (l : list str) (w : World) :
  (forall f, f ∈ l ->
     holds_image w (resolve pf f)
     /\ is_Some (EXTENSION (lower (snd (splitext pf (resize_path pf f)))))
     /\ is_dir (fs w) (resolve pf (resize_path pf f)) = false
     /\ is_dir (fs w) (removelast (resolve pf (resize_path pf f))) = true) ->
  exists w',
    resize_job pf l w = (Ok tt, w')
    /\ saved_paths (trace w') = saved_paths (trace w) ++ List.map (resize_path pf) l
    /\ (forall f, f ∈ l -> holds_256 w' (resolve pf (resize_path pf f))).
Proof.
  revert w. induction l as [|f rest IH]; intros w Hpre; cbn [resize_job].
  - exists w. split; [reflexivity|]. split; [cbn; symmetry; apply app_nil_r|].
    intros f Hf. inversion Hf.
  - destruct (Hpre f ltac:(left)) as ([img Himg] & [fmt Hfmt] & Hnd & Hpd).
    assert (Hbody : exists w1, resize_body pf f w = (Ok tt, w1)).
    { rewrite resize_body_eq.
      assert (Hopen : Image_open pf f w = (Ok img, w)) by (apply Image_open_ok; auto).
      rewrite Hopen.
      apply (Image_save_succeeds pf _ _ w fmt Hfmt); [destruct fmt; reflexivity | | ];
        assumption. }
    destruct Hbody as [w1 Hbody]. rewrite Hbody.
    pose proof (resize_body_ok _ _ _ _ _ Hbody) as (img' & _ & Hfiles & Hdirs & Htrace).
    assert (Hone : resize_job pf [f] w = (Ok tt, w1)) by (cbn; rewrite Hbody; reflexivity).
    apply resize_job_frame in Hone as (_ & _ & Himg1 & _ & _).
    destruct (IH w1) as (w' & Hrun & Hpaths & Hout).
    { intros g Hg. destruct (Hpre g ltac:(right; exact Hg)) as (Hgi & Hge & Hgd & Hgp).
      split; [apply Himg1; exact Hgi|]. split; [exact Hge|].
      unfold is_dir in *. rewrite Hdirs. auto. }
    exists w'. split; [exact Hrun|].
    pose proof (resize_job_frame _ _ _ _ _ Hrun) as (_ & _ & _ & H256 & _).
    split.
    + rewrite Hpaths, Htrace. unfold saved_paths. rewrite omap_app. cbn.
      rewrite <- app_assoc. reflexivity.
    + intros g Hg. apply elem_of_cons in Hg as [->|Hg]; [|apply Hout; exact Hg].
      apply H256. unfold holds_256. rewrite Hfiles, lookup_insert_eq.
      eexists. split; [reflexivity|]. cbn. auto.
Qed.

(** The paths of the resize job for a matched file: the output path is
the entry of the same directory named stem, [_half], extension; its
extension is [.jpg] up to case. *)
Lemma resize_glob_paths (pf : Platform) (t : FS) (f : str) :
  fs_names_ok pf t = true ->
  f ∈ glob pf t (py "./data/k9") (py ".jpg") ->
  exists c0 stem e,
    f = py "./data/k9" ++ sep pf :: (c0 :: stem) ++ "."%char :: e
    /\ resize_path pf f
       = py "./data/k9" ++ sep pf :: (c0 :: stem ++ py "_half") ++ "."%char :: e
    /\ lower (snd (splitext pf (resize_path pf f))) = py ".jpg"
    /\ resolve pf f = [py "data"; py "k9"; (c0 :: stem) ++ "."%char :: e]
    /\ resolve pf (resize_path pf f)
       = [py "data"; py "k9"; (c0 :: stem ++ py "_half") ++ "."%char :: e]
    /\ is_dir t [py "data"; py "k9"] = true
    /\ [py "data"; py "k9"; (c0 :: stem) ++ "."%char :: e] ∈ dom (files t) ∪ dirs t.
Proof.
  intros Hok Hf.
  destruct (glob_entry pf t (py "./data/k9") (py "jpg") f "9"%char)
    as (c0 & stem & e & -> & Hc0 & Hstem & He & Hdot & Hnorm & Hdir & Hin);
    [reflexivity | destruct pf; reflexivity
     | intros Hin; vm_compute in Hin; repeat (apply elem_of_cons in Hin as [Hin|Hin];
         [discriminate Hin|]); inversion Hin
     | exact Hok | exact Hf |].
  assert (Hres : resolve pf (py "./data/k9") = [py "data"; py "k9"])
    by (destruct pf; reflexivity).
  rewrite Hres in Hdir, Hin.
  assert (Hhalf : no_sep pf (c0 :: stem ++ py "_half")).
  { apply no_sep_stem_app; [exact Hstem|]. apply no_sep_literal. destruct pf; reflexivity. }
  assert (Hpath : resize_path pf (py "./data/k9" ++ sep pf :: (c0 :: stem) ++ "."%char :: e)
                  = py "./data/k9" ++ sep pf :: (c0 :: stem ++ py "_half") ++ "."%char :: e).
  { unfold resize_path. rewrite (splitext_entry pf _ c0 stem e Hc0 Hstem He Hdot).
    cbn [fst snd]. rewrite <- !app_assoc. cbn [app]. rewrite <- !app_assoc. reflexivity. }
  exists c0, stem, e. split; [reflexivity|]. split; [exact Hpath|].
  split; [|split; [|split; [|split]]].
  - rewrite Hpath, (splitext_entry pf _ c0 _ e Hc0 Hhalf He Hdot). cbn [snd].
    change (lower ("."%char :: e)) with ("."%char :: lower e).
    rewrite (normcase_lower pf e (py "jpg")); [reflexivity | | |].
    + rewrite Hnorm. destruct pf; reflexivity.
    + intros Hbs. vm_compute in Hbs.
      repeat (apply elem_of_cons in Hbs as [Hbs|Hbs]; [discriminate Hbs|]). inversion Hbs.
    + reflexivity.
  - rewrite (resolve_entry pf _ _ _ (sep_is_sep pf) (entry_name_valid pf c0 stem e Hc0 Hstem He)).
    rewrite Hres. reflexivity.
  - rewrite Hpath.
    rewrite (resolve_entry pf _ _ _ (sep_is_sep pf) (entry_name_valid pf c0 _ e Hc0 Hhalf He)).
    rewrite Hres. reflexivity.
  - exact Hdir.
  - exact Hin.
Qed.


(** *** The background-removal job *)

Lemma remove_body_eq (pf : Platform) (f : str) (count : nat) (w : World) :
  remove_body pf f count w
  = match Image_open pf f w with
    | (Ok img, w0) =>
        match (if negb (is_dir (fs w0) (resolve pf (remove_dir pf f))
                        || is_file (fs w0) (resolve pf (remove_dir pf f)))
               then os_mkdir pf (remove_dir pf f) w0
               else (Ok tt, w0)) with
        | (Ok _, w1) =>
            Image_save pf (remove (convert img RGB)) (remove_path pf f count) w1
        | (Raise e, w1) => (Raise e, w1)
        end
    | (Raise e, w0) => (Raise e, w0)
    end.
Proof.
  unfold remove_body, remove_dir, remove_path, mbind, M_bind.
  destruct (Image_open pf f w) as [[img|e] w0]; [|reflexivity].
  destruct (splitext pf f) as [title ext]. cbn [fst snd].
  unfold os_path_exists.
  destruct (negb _); reflexivity.
Qed.

(** The effect of one turn of the loop on the regular files and on the
list of saved paths. *)
Lemma remove_body_files (pf : Platform) (f : str) (count : nat) (w w1 : World)
    (r : result unit) :
  remove_body pf f count w = (r, w1) ->
  match r with
  | Ok _ =>
      exists img,
        files (fs w) !! resolve pf f = Some (image_data img)
        /\ files (fs w1)
           = <[ resolve pf (remove_path pf f count)
                := image_data (encoded (lower (snd (splitext pf (remove_path pf f count))))
                                 (remove (convert img RGB))) ]> (files (fs w))
        /\ saved_paths (trace w1) = saved_paths (trace w) ++ [remove_path pf f count]
  | Raise _ =>
      files (fs w1) = files (fs w)
      /\ saved_paths (trace w1) = saved_paths (trace w)
  end.
Proof.
  rewrite remove_body_eq.
  destruct (Image_open pf f w) as [[img|e] w0] eqn:Eopen.
  - apply Image_open_ok in Eopen as [Hfile ->].
    destruct (if negb _ then _ else _) as [[u|e] w1'] eqn:Edir.
    + assert (Hmk : files (fs w1') = files (fs w)
                    /\ saved_paths (trace w1') = saved_paths (trace w)).
      { destruct (negb _).
        - apply os_mkdir_files in Edir as (Hf & Hs & _). auto.
        - injection Edir as _ <-. auto. }
      destruct Hmk as [Hf Hs].
      destruct r as [u'|e]; intros Hsave.
      * apply Image_save_ok in Hsave as (_ & _ & Hfiles & _ & Htrace).
        exists img. split; [exact Hfile|]. split; [rewrite Hfiles, Hf; reflexivity|].
        rewrite Htrace. unfold saved_paths in *. rewrite omap_app, Hs. reflexivity.
      * apply Image_save_raise in Hsave as ->. auto.
    + intros Heq. injection Heq as <- <-.
      destruct (negb _).
      * apply os_mkdir_files in Edir as (Hf & Hs & _). auto.
      * discriminate Edir.
  - apply Image_open_raise in Eopen as ->.
    intros Heq. injection Heq as <- <-. auto.
Qed.

(** The loop from any counter value: it ends at the counter raised by the
number [n] of files it got through, those are the first [n] of the list,
the saves went in order to the path of file [k] numbered with the counter
value [count + k], and the regular files changed at those paths only. *)
Lemma remove_loop_spec (pf : Platform) (l : list str) (count : nat) (w : World) :
  exists n : nat,
    snd (fst (remove_loop pf l count w)) = (count + n)%nat
    /\ (n <= length l)%nat
    /\ saved_paths (trace (snd (remove_loop pf l count w)))
       = saved_paths (trace w)
         ++ imap (fun k f => remove_path pf f (count + k)) (take n l)
    /\ match fst (fst (remove_loop pf l count w)) with
       | Ok _ => n = length l
       | Raise _ => (n < length l)%nat
       end
    /\ (forall c,
          (forall g k, g ∈ l -> resolve pf (remove_path pf g k) <> c) ->
          files (fs (snd (remove_loop pf l count w))) !! c = files (fs w) !! c)
    /\ (forall c, is_Some (files (fs w) !! c) ->
                  is_Some (files (fs (snd (remove_loop pf l count w))) !! c)).
Proof.
  revert count w. induction l as [|f rest IH]; intros count w; cbn [remove_loop].
  - exists 0%nat. cbn. rewrite app_nil_r. repeat split; auto with lia.
  - destruct (remove_body pf f count w) as [[u|e] w1] eqn:Ebody.
    + apply remove_body_files in Ebody as (img & Hfile & Hfiles & Hsaved).
      destruct (IH (count + 1)%nat w1) as (n & Hcount & Hn & Hpaths & Hres & Hframe & Hsome).
      exists (S n). split; [rewrite Hcount; lia|]. split; [cbn; lia|].
      split; [|split; [|split]].
      * rewrite Hpaths, Hsaved. cbn [take]. rewrite imap_cons, <- app_assoc. cbn [app].
        rewrite Nat.add_0_r. do 2 f_equal.
        apply imap_ext. intros k g _. cbn. f_equal. lia.
      * destruct (fst (fst (remove_loop pf rest (count + 1) w1))); cbn; lia.
      * intros c Hc. rewrite Hframe by (intros g k Hg; apply Hc; right; exact Hg).
        rewrite Hfiles. apply lookup_insert_ne. apply Hc. left.
      * intros c Hc. apply Hsome. rewrite Hfiles.
        destruct (decide (resolve pf (remove_path pf f count) = c)) as [<-|Hne].
        -- rewrite lookup_insert_eq. eauto.
        -- rewrite lookup_insert_ne by exact Hne. exact Hc.
    + apply remove_body_files in Ebody as [Hfiles Hsaved].
      exists 0%nat. cbn [fst snd take imap length]. rewrite app_nil_r, Nat.add_0_r.
      rewrite Hfiles, Hsaved. repeat split; auto with lia.
Qed.

(** C7: in a run of the job over any list of matched paths, on either
platform and from any tree, the counter starts at 0 and ends at the number
of files the run got through, one step per file; the run saved exactly
once for each of them, and the save for the [k]-th of them (from 0) went to
the path built with the counter value [k].  A run that ends well got
through every file; a run stopped by an exception got through the files
before the failing one. *)
Theorem remove_job_counter (pf : Platform) (matched : list str) (w : World) :
  let result := fst (fst (remove_job pf matched w)) in
  let count := snd (fst (remove_job pf matched w)) in
  let w' := snd (remove_job pf matched w) in
  remove_job pf matched w = remove_loop pf matched 0 w
  /\ (count <= length matched)%nat
  /\ length (saved_paths (trace w')) = (length (saved_paths (trace w)) + count)%nat
  /\ saved_paths (trace w')
     = saved_paths (trace w) ++ imap (fun k f => remove_path pf f k) (take count matched)
  /\ (forall k f, (k < count)%nat -> matched !! k = Some f ->
        saved_paths (trace w') !! (length (saved_paths (trace w)) + k)%nat
        = Some (truncate_title (fst (splitext pf f)) ++ py "_remove/"
                ++ (truncate_title (fst (splitext pf f)) ++ py "_remove"
                    ++ str_of_nat k ++ snd (splitext pf f))))
  /\ match result with
     | Ok _ => count = length matched
     | Raise _ => (count < length matched)%nat
     end.
Proof.
  cbn zeta. unfold remove_job.
  destruct (remove_loop_spec pf matched 0 w) as (n & Hcount & Hn & Hpaths & Hres & _ & _).
  cbn [Nat.add] in Hcount, Hpaths. rewrite Hcount.
  split; [reflexivity|]. split; [exact Hn|].
  split; [|split; [exact Hpaths|split; [|exact Hres]]].
  - rewrite Hpaths, length_app, length_imap, length_take. lia.
  - intros k f Hk Hf. rewrite Hpaths.
    rewrite lookup_app_r by apply Nat.le_add_r.
    rewrite Nat.add_comm, Nat.add_sub.
    rewrite list_lookup_imap, lookup_take_lt by exact Hk. rewrite Hf. reflexivity.
Qed.

Lemma truncate_title_at_backslash (pre post : str) :
  "\"%char ∉ pre ->
  find (pre ++ "\"%char :: post) (py "\") = Z.of_nat (length pre)
  /\ truncate_title (pre ++ "\"%char :: post) = pre.
Proof.
  intros Hpre.
  assert (Hfind : find (pre ++ "\"%char :: post) (py "\") = Z.of_nat (length pre)).
  { unfold find. change (py "\") with ["\"%char].
    rewrite find_from_first by exact Hpre. lia. }
  split; [exact Hfind|].
  unfold truncate_title. cbn zeta. rewrite Hfind. apply slice_to_app.
Qed.

(** C10: in the background-removal job, when the title of a matched path
(the path without its extension) holds no backslash, [find] answers -1 and
the slice [title[:index]] is [title[:-1]]: the title loses exactly its last
character, and the directory name is built on that.  When the title holds a
backslash, the slice is the prefix before the first one. *)
Theorem truncate_title_cases (pf : Platform) (f : str) :
  let title := fst (splitext pf f) in
  ("\"%char ∉ title ->
     find title (py "\") = -1
     /\ truncate_title title = slice_to title (-1)
     /\ truncate_title title = removelast title
     /\ (title <> [] -> exists c, title = truncate_title title ++ [c])
     /\ remove_dir pf f = removelast title ++ py "_remove")
  /\ (forall pre post, title = pre ++ "\"%char :: post -> "\"%char ∉ pre ->
        find title (py "\") = Z.of_nat (length pre)
        /\ truncate_title title = pre
        /\ remove_dir pf f = pre ++ py "_remove").
Proof.
  intros title. split.
  - intros Habsent.
    assert (Hfind : find title (py "\") = -1).
    { unfold find. change (py "\") with ["\"%char]. apply find_from_absent. exact Habsent. }
    assert (Htrunc : truncate_title title = slice_to title (-1)).
    { unfold truncate_title. cbn zeta. rewrite Hfind. reflexivity. }
    assert (Hlast : truncate_title title = removelast title).
    { rewrite Htrunc. apply slice_to_minus_one. }
    split; [exact Hfind|]. split; [exact Htrunc|]. split; [exact Hlast|]. split.
    + intros Hne. exists (List.last title "\"%char). rewrite Hlast.
      apply app_removelast_last. exact Hne.
    + unfold remove_dir. fold title. rewrite Hlast. reflexivity.
  - intros pre post Htitle Hpre.
    destruct (truncate_title_at_backslash pre post Hpre) as [Hfind Htrunc].
    rewrite Htitle. split; [exact Hfind|]. split; [exact Htrunc|].
    unfold remove_dir. fold title. rewrite Htitle, Htrunc. reflexivity.
Qed.

Lemma os_mkdir_ok (pf : Platform) (p : str) (w w1 : World) (u : unit) :
  os_mkdir pf p w = (Ok u, w1) ->
  trace w1 = trace w ++ [ev_mkdir p]
  /\ files (fs w1) = files (fs w)
  /\ dirs (fs w1) = {[ resolve pf p ]} ∪ dirs (fs w).
Proof.
  unfold os_mkdir.
  destruct (is_dir (fs w) (resolve pf p) || is_file (fs w) (resolve pf p)); [discriminate|].
  destruct (is_dir (fs w) (removelast (resolve pf p))).
  - intros Heq. injection Heq as _ <-. cbn. auto.
  - destruct (is_file _ _); discriminate.
Qed.


(** *** Where the background-removal job writes *)

(** On [nt] the title of a matched path is cut at the backslash the glob
put in: every save goes into the directory [avante n_remove] next to the
source directory. *)
Lemma remove_path_nt (c0 : ascii) (stem e : str) (k : nat) :
  c0 <> "."%char -> no_sep nt (c0 :: stem) -> no_sep nt e -> "."%char ∉ e ->
  resolve nt (remove_path nt (py "./avante n" ++ sep nt :: (c0 :: stem) ++ "."%char :: e) k)
  = [py "avante n_remove"; py "avante n_remove" ++ str_of_nat k ++ "."%char :: e].
Proof.
  intros Hc0 Hstem He Hdot.
  unfold remove_path. rewrite (splitext_entry nt _ c0 stem e Hc0 Hstem He Hdot).
  cbn [fst snd].
  assert (Htrunc : truncate_title (py "./avante n" ++ sep nt :: c0 :: stem) = py "./avante n").
  { apply truncate_title_at_backslash. intros Hin. vm_compute in Hin.
    repeat (apply elem_of_cons in Hin as [Hin|Hin]; [discriminate Hin|]). inversion Hin. }
  rewrite Htrunc.
  set (tailpiece := py "avante n_remove" ++ str_of_nat k ++ "."%char :: e).
  change (py "./avante n" ++ py "_remove/"
          ++ py "./avante n" ++ py "_remove" ++ str_of_nat k ++ "."%char :: e)
    with (py "./avante n_remove" ++ "/"%char :: (py "." ++ "/"%char :: tailpiece)).
  rewrite (resolve_app_sep nt _ _ "/"%char eq_refl).
  rewrite (split_path_app_sep nt _ _ "/"%char eq_refl).
  assert (Htail : no_sep nt tailpiece).
  { unfold tailpiece. apply no_sep_app. split; [apply no_sep_literal; reflexivity|].
    apply no_sep_app. split; [apply str_of_nat_no_sep|].
    apply no_sep_cons. split; [reflexivity | exact He]. }
  rewrite (split_path_no_sep nt tailpiece Htail).
  change (resolve nt (py "./avante n_remove")) with [py "avante n_remove"].
  change (split_path nt (py ".")) with [py "."].
  cbn [app fold_left].
  change (resolve_piece [py "avante n_remove"] (py ".")) with [py "avante n_remove"].
  rewrite resolve_piece_name; [reflexivity | | |]; unfold tailpiece; discriminate.
Qed.

(** On [posix] no separator of the title is a backslash: the title is cut
inside the file name, and the save aims two levels below the source
directory. *)
Lemma remove_path_posix (c0 : ascii) (stem e : str) (k : nat) :
  c0 <> "."%char -> no_sep posix (c0 :: stem) -> no_sep posix e -> "."%char ∉ e ->
  exists x1 x2,
    resolve posix
      (remove_path posix (py "./avante n" ++ sep posix :: (c0 :: stem) ++ "."%char :: e) k)
    = [py "avante n"; x1; py "avante n"; x2].
Proof.
  intros Hc0 Hstem He Hdot.
  unfold remove_path. rewrite (splitext_entry posix _ c0 stem e Hc0 Hstem He Hdot).
  cbn [fst snd].
  assert (Hcut : exists m, truncate_title (py "./avante n" ++ sep posix :: c0 :: stem)
                           = py "./avante n" ++ "/"%char :: m
                           /\ no_sep posix m).
  { destruct (decide ("\"%char ∈ c0 :: stem)) as [Hin|Hout].
    - apply list_elem_of_split_l in Hin as (l1 & l2 & Hsplit & Hl1).
      exists l1. split.
      + rewrite Hsplit.
        change (py "./avante n" ++ sep posix :: l1 ++ "\"%char :: l2)
          with (py "./avante n" ++ ["/"%char] ++ (l1 ++ "\"%char :: l2)).
        rewrite !app_assoc.
        assert (Hpre : "\"%char ∉ (py "./avante n" ++ ["/"%char]) ++ l1).
        { intros Hin. apply elem_of_app in Hin as [Hin|Hin]; [|contradiction].
          vm_compute in Hin.
          repeat (apply elem_of_cons in Hin as [Hin|Hin]; [discriminate Hin|]). inversion Hin. }
        rewrite (proj2 (truncate_title_at_backslash _ l2 Hpre)).
        rewrite <- app_assoc. reflexivity.
      + rewrite Hsplit in Hstem. apply no_sep_app in Hstem as [Hl _]. exact Hl.
    - exists (removelast (c0 :: stem)). split.
      + unfold truncate_title. cbn zeta. unfold find. change (py "\") with ["\"%char].
        rewrite find_from_absent.
        * rewrite slice_to_minus_one.
          change (py "./avante n" ++ sep posix :: c0 :: stem)
            with ((py "./avante n" ++ ["/"%char]) ++ c0 :: stem).
          rewrite removelast_app by discriminate. rewrite <- app_assoc. reflexivity.
        * intros Hin. apply elem_of_app in Hin as [Hin|Hin].
          -- vm_compute in Hin.
             repeat (apply elem_of_cons in Hin as [Hin|Hin]; [discriminate Hin|]). inversion Hin.
          -- apply elem_of_cons in Hin as [Hin|Hin]; [discriminate Hin | contradiction].
      + assert (Hsplit : c0 :: stem = removelast (c0 :: stem) ++ [List.last (c0 :: stem) c0])
          by (apply app_removelast_last; discriminate).
        rewrite Hsplit in Hstem. apply no_sep_app in Hstem as [Hl _]. exact Hl. }
  destruct Hcut as (m & -> & Hm).
  set (x1 := m ++ py "_remove").
  set (x2 := m ++ py "_remove" ++ str_of_nat k ++ "."%char :: e).
  exists x1, x2.
  replace ((py "./avante n" ++ "/"%char :: m) ++ py "_remove/"
           ++ (py "./avante n" ++ "/"%char :: m) ++ py "_remove" ++ str_of_nat k ++ "."%char :: e)
    with ((py "./avante n" ++ "/"%char :: x1) ++ "/"%char :: (py "./avante n" ++ "/"%char :: x2)).
  2:{ unfold x1, x2. rewrite <- !app_assoc. cbn [app py list_ascii_of_string].
      rewrite <- !app_assoc. reflexivity. }
  assert (H1 : valid_name posix x1 = true).
  { apply long_name_valid.
    - apply no_sep_app. split; [exact Hm | apply no_sep_literal; reflexivity].
    - unfold x1. rewrite length_app. cbn. lia. }
  assert (H2 : valid_name posix x2 = true).
  { apply long_name_valid.
    - apply no_sep_app. split; [exact Hm|]. apply no_sep_app.
      split; [apply no_sep_literal; reflexivity|]. apply no_sep_app.
      split; [apply str_of_nat_no_sep|]. apply no_sep_cons. split; [reflexivity | exact He].
    - unfold x2. rewrite !length_app. cbn. lia. }
  rewrite (resolve_app_sep posix _ _ "/"%char eq_refl).
  rewrite (resolve_entry posix _ _ "/"%char eq_refl H1).
  rewrite (split_path_app_sep posix _ _ "/"%char eq_refl).
  apply valid_name_spec in H2 as (H20 & H21 & H22 & H2s).
  rewrite (split_path_no_sep posix x2 H2s).
  change (resolve posix (py "./avante n")) with [py "avante n"].
  change (split_path posix (py "./avante n")) with [py "."; py "avante n"].
  cbn [app fold_left].
  change (resolve_piece [py "avante n"; x1] (py ".")) with [py "avante n"; x1].
  change (resolve_piece [py "avante n"; x1] (py "avante n"))
    with [py "avante n"; x1; py "avante n"].
  rewrite resolve_piece_name by assumption. reflexivity.
Qed.

(** No save of the background-removal job lands on a path its glob
matches. *)
Lemma remove_path_not_matched (pf : Platform) (t : FS) (f g : str) (k : nat) :
  fs_names_ok pf t = true ->
  f ∈ glob pf t (py "./avante n") (py ".png") ->
  g ∈ glob pf t (py "./avante n") (py ".png") ->
  resolve pf (remove_path pf g k) <> resolve pf f.
Proof.
  intros Hok Hf Hg.
  assert (Hpng : "."%char ∉ py "png").
  { intros Hin. vm_compute in Hin.
    repeat (apply elem_of_cons in Hin as [Hin|Hin]; [discriminate Hin|]). inversion Hin. }
  assert (Hnine : is_sep pf "n"%char = false) by (destruct pf; reflexivity).
  destruct (glob_entry pf t (py "./avante n") (py "png") f "n"%char eq_refl Hnine Hpng Hok Hf)
    as (c0 & stem & e & -> & Hc0 & Hstem & He & Hdot & _).
  destruct (glob_entry pf t (py "./avante n") (py "png") g "n"%char eq_refl Hnine Hpng Hok Hg)
    as (d0 & gstem & ge & -> & Hd0 & Hgstem & Hge & Hgdot & _).
  rewrite (resolve_entry pf _ _ _ (sep_is_sep pf) (entry_name_valid pf c0 stem e Hc0 Hstem He)).
  assert (Hres : resolve pf (py "./avante n") = [py "avante n"]) by (destruct pf; reflexivity).
  rewrite Hres.
  destruct pf.
  - destruct (remove_path_posix d0 gstem ge k Hd0 Hgstem Hge Hgdot) as (x1 & x2 & ->).
    discriminate.
  - rewrite (remove_path_nt d0 gstem ge k Hd0 Hgstem Hge Hgdot).
    intros Heq. injection Heq as Heq _. discriminate Heq.
Qed.

(** *** Source files *)

(** The resize job keeps a tree in the compared form: the names it adds
are names it found, with [_half] put in. *)
Lemma resize_job_keeps_folded (pf : Platform) (l : list str) (w w' : World)
    (r : result unit) :
  fs_names_ok pf (fs w) = true ->
  fs_folded pf (fs w) = true ->
  (forall g, g ∈ l -> g ∈ glob pf (fs w) (py "./data/k9") (py ".jpg")) ->
  resize_job pf l w = (r, w') ->
  fs_folded pf (fs w') = true.
Proof.
  intros Hok Hfold Hglob Hrun.
  apply resize_job_frame in Hrun as (Hdirs & Hframe & _ & _ & _).
  rewrite fs_folded_spec in Hfold. apply fs_folded_spec.
  intros c name Hc Hname.
  destruct (decide (c ∈ List.map (fun g => resolve pf (resize_path pf g)) l)) as [Hout|Hout].
  - apply list_elem_of_fmap in Hout as (g & -> & Hg).
    destruct (resize_glob_paths pf (fs w) g Hok (Hglob g Hg))
      as (c0 & stem & e & _ & _ & _ & _ & Hro & _ & Hin).
    rewrite Hro in Hname.
    assert (Hold : normcase pf ((c0 :: stem) ++ "."%char :: e) = (c0 :: stem) ++ "."%char :: e).
    { apply (Hfold _ _ Hin). do 2 right. left. }
    apply elem_of_cons in Hname as [->|Hname]; [destruct pf; reflexivity|].
    apply elem_of_cons in Hname as [->|Hname]; [destruct pf; reflexivity|].
    apply list_elem_of_singleton in Hname as ->.
    apply normcase_app_inv in Hold as [Hstem Hext].
    change ((c0 :: stem ++ py "_half") ++ "."%char :: e)
      with (((c0 :: stem) ++ py "_half") ++ "."%char :: e).
    rewrite !normcase_app, Hstem, Hext.
    destruct pf; reflexivity.
  - apply (Hfold c name); [|exact Hname].
    rewrite Hdirs in Hc. apply elem_of_union in Hc as [Hc|Hc];
      [apply elem_of_union_l | apply elem_of_union_r; exact Hc].
    apply elem_of_dom. apply elem_of_dom in Hc. rewrite <- (Hframe c Hout). exact Hc.
Qed.


End WithImaging.

(** *** The scripts on the sample trees *)

Lemma not_in_literal (c : ascii) (s : str) : bool_decide (c ∈ s) = false -> c ∉ s.
Proof. apply bool_decide_eq_false. Qed.


Lemma truncate_title_cases_witness :
  truncate_title (py "./avante n/car1") = py "./avante n/car"
  /\ truncate_title (py "./avante n\car1") = py "./avante n".
Proof.
  split.
  - destruct (truncate_title_cases posix (py "./avante n/car1.png")) as [Hnone _].
    destruct Hnone as (_ & _ & Hlast & _).
    + apply not_in_literal. vm_compute. reflexivity.
    + exact Hlast.
  - destruct (truncate_title_cases nt (py "./avante n\car1.png")) as [_ Hsome].
    destruct (Hsome (py "./avante n") (py "car1")) as (_ & Htrunc & _).
    + vm_compute. reflexivity.
    + apply not_in_literal. vm_compute. reflexivity.
    + exact Htrunc.
Defined.





Lemma remove_job_counter_witness :
  snd (fst (@remove_job plain_imaging nt
              [py "./avante n\car1.png"; py "./avante n\car2.png"] (start avante_tree)))
  = 2%nat
  /\ saved_paths (trace (snd (@remove_job plain_imaging nt
                                [py "./avante n\car1.png"; py "./avante n\car2.png"]
                                (start avante_tree)))) !! 1%nat
     = Some (py "./avante n_remove/./avante n_remove1.png").
Proof.
  destruct (@remove_job_counter plain_imaging nt
              [py "./avante n\car1.png"; py "./avante n\car2.png"] (start avante_tree))
    as (_ & _ & _ & _ & Hkth & Hend).
  assert (Hcount : snd (fst (@remove_job plain_imaging nt
                               [py "./avante n\car1.png"; py "./avante n\car2.png"]
                               (start avante_tree))) = 2%nat).
  { assert (Hok : fst (fst (@remove_job plain_imaging nt
                              [py "./avante n\car1.png"; py "./avante n\car2.png"]
                              (start avante_tree))) = Ok tt)
      by (vm_compute; reflexivity).
    rewrite Hok in Hend. exact Hend. }
  split; [exact Hcount|].
  specialize (Hkth 1%nat (py "./avante n\car2.png")).
  rewrite Hcount in Hkth.
  exact (Hkth ltac:(lia) eq_refl).
Defined.

End BatchSpec.

(** * More facts about paths *)

Module EntryFacts.
Import Path PathFacts.

(** The index [splitext] takes for the last separator when the name
follows any separator of the platform, the alternative one included. *)
Lemma sep_index_of_entry_any (pf : Platform) (dir name : str) (c : ascii) :
  is_sep pf c = true -> no_sep pf name ->
  match altsep pf with
  | Some a => Z.max (rfind (dir ++ c :: name) [sep pf]) (rfind (dir ++ c :: name) [a])
  | None => rfind (dir ++ c :: name) [sep pf]
  end = Z.of_nat (length dir).
Proof.
  intros Hc Hname.
  assert (Habs : forall d, is_sep pf d = true -> d ∉ name)
    by (intros d Hd; apply (no_sep_absent pf); assumption).
  destruct pf; cbn [altsep sep].
  - assert (c = "/"%char) as ->.
    { unfold is_sep in Hc. cbn in Hc. rewrite orb_false_r in Hc.
      apply Ascii.eqb_eq in Hc. exact Hc. }
    unfold rfind. rewrite rfind_from_last by (lia || (apply Habs; reflexivity)). lia.
  - assert (Hcases : c = "\"%char \/ c = "/"%char).
    { unfold is_sep in Hc. cbn in Hc. apply orb_true_iff in Hc as [Hc|Hc];
        apply Ascii.eqb_eq in Hc; auto. }
    unfold rfind. destruct Hcases as [-> | ->].
    + rewrite rfind_from_last by (lia || (apply Habs; reflexivity)).
      change (dir ++ "\"%char :: name) with (dir ++ (["\"%char] ++ name)).
      rewrite rfind_from_app_absent.
      * destruct (rfind_from_range dir "/"%char 0) as [-> | Hr]; lia.
      * lia.
      * intros Hin. apply elem_of_app in Hin as [Hin | Hin].
        -- apply list_elem_of_singleton in Hin. discriminate Hin.
        -- exact (Habs "/"%char eq_refl Hin).
    + rewrite (rfind_from_last dir name "/"%char) by (lia || (apply Habs; reflexivity)).
      change (dir ++ "/"%char :: name) with (dir ++ (["/"%char] ++ name)).
      rewrite rfind_from_app_absent.
      * destruct (rfind_from_range dir "\"%char 0) as [-> | Hr]; lia.
      * lia.
      * intros Hin. apply elem_of_app in Hin as [Hin | Hin].
        -- apply list_elem_of_singleton in Hin. discriminate Hin.
        -- exact (Habs "\"%char eq_refl Hin).
Qed.

(** [splitext] on a name that follows any separator of the platform. *)
Lemma splitext_entry_any (pf : Platform) (dir : str) (c c0 : ascii) (stem ext : str) :
  is_sep pf c = true -> c0 <> "."%char ->
  no_sep pf (c0 :: stem) -> no_sep pf ext -> "."%char ∉ ext ->
  splitext pf (dir ++ c :: (c0 :: stem) ++ "."%char :: ext)
  = (dir ++ c :: c0 :: stem, "."%char :: ext).
Proof.
  intros Hc Hc0 Hstem Hext Hdot.
  assert (Hname : no_sep pf ((c0 :: stem) ++ "."%char :: ext)).
  { apply no_sep_app. split; [exact Hstem|]. apply no_sep_cons. split; [|exact Hext].
    destruct pf; reflexivity. }
  unfold splitext. cbn zeta.
  rewrite (sep_index_of_entry_any pf dir _ c Hc Hname).
  set (p := dir ++ c :: (c0 :: stem) ++ "."%char :: ext).
  assert (Hp : p = (dir ++ c :: c0 :: stem) ++ "."%char :: ext).
  { unfold p. rewrite <- app_assoc. reflexivity. }
  assert (Hdi : rfind p (py ".") = Z.of_nat (length (dir ++ c :: c0 :: stem))).
  { unfold rfind. change (py ".") with ["."%char]. rewrite Hp.
    rewrite rfind_from_last by (lia || exact Hdot). lia. }
  rewrite Hdi. rewrite length_app. cbn [length].
  destruct (Z.ltb_spec (Z.of_nat (length dir)) (Z.of_nat (length dir + S (S (length stem)))));
    [|lia].
  replace (Z.to_nat (Z.of_nat (length dir + S (S (length stem))) - (Z.of_nat (length dir) + 1)))
    with (S (length stem)) by lia.
  cbn [splitext_scan].
  assert (Hone : slice p (Z.of_nat (length dir) + 1) (Z.of_nat (length dir) + 1 + 1) = [c0]).
  { unfold p. change (dir ++ c :: (c0 :: stem) ++ "."%char :: ext)
      with (dir ++ [c] ++ c0 :: (stem ++ "."%char :: ext)).
    rewrite app_assoc.
    replace (Z.of_nat (length dir) + 1) with (Z.of_nat (length (dir ++ [c])))
      by (rewrite length_app; cbn; lia).
    apply slice_one. }
  rewrite Hone.
  assert (Hne : str_eqb [c0] (py ".") = false).
  { unfold str_eqb. apply bool_decide_eq_false. intros Heq. injection Heq as ->.
    congruence. }
  rewrite Hne. cbn [negb].
  replace (Z.of_nat (length dir + S (S (length stem))))
    with (Z.of_nat (length (dir ++ c :: c0 :: stem)))
    by (rewrite length_app; cbn; lia).
  rewrite Hp, slice_to_app, slice_from_app. reflexivity.
Qed.

Lemma in_literal (c : ascii) (s : str) : bool_decide (c ∈ s) = true -> c ∈ s.
Proof. apply bool_decide_eq_true. Qed.

(** The characters of [str(n)] are decimal digits. *)
Lemma str_of_nat_digits (n : nat) (c : ascii) :
  c ∈ str_of_nat n -> c ∈ py "0123456789".
Proof.
  unfold str_of_nat, py at 1.
  assert (Hdigits : forall u, c ∈ list_ascii_of_string (NilEmpty.string_of_uint u) ->
                              c ∈ py "0123456789").
  { induction u; cbn [NilEmpty.string_of_uint list_ascii_of_string]; intros Hc;
      [inversion Hc | ..];
      (apply elem_of_cons in Hc as [-> | Hc]; [|auto]);
      apply in_literal; vm_compute; reflexivity. }
  unfold NilZero.string_of_uint.
  destruct (Nat.to_uint n); try apply Hdigits.
  cbn. intros Hc. apply list_elem_of_singleton in Hc as ->.
  apply in_literal. vm_compute. reflexivity.
Qed.

(** The digits of a counter are in the compared form on either platform. *)
Lemma str_of_nat_normcase (pf : Platform) (n : nat) :
  normcase pf (str_of_nat n) = str_of_nat n.
Proof.
  rewrite normcase_map.
  rewrite <- (List.map_id (str_of_nat n)) at 2.
  apply List.map_ext_in. intros c Hc.
  apply list_elem_of_In, str_of_nat_digits in Hc.
  destruct pf; [reflexivity|].
  repeat (apply elem_of_cons in Hc as [->|Hc]; [reflexivity|]). inversion Hc.
Qed.

Lemma str_of_nat_no_dot (n : nat) : "."%char ∉ str_of_nat n.
Proof.
  intros Hin. apply str_of_nat_digits in Hin.
  assert (Hno : bool_decide ("."%char ∈ py "0123456789") = false) by (vm_compute; reflexivity).
  apply bool_decide_eq_false in Hno. exact (Hno Hin).
Qed.

(** [str] is one-to-one on the counter values. *)
Lemma str_of_nat_inj (n m : nat) : str_of_nat n = str_of_nat m -> n = m.
Proof.
  unfold str_of_nat, py. intros Heq.
  assert (Hs : NilZero.string_of_uint (Nat.to_uint n) = NilZero.string_of_uint (Nat.to_uint m)).
  { rewrite <- (string_of_list_ascii_of_string (NilZero.string_of_uint (Nat.to_uint n))).
    rewrite <- (string_of_list_ascii_of_string (NilZero.string_of_uint (Nat.to_uint m))).
    rewrite Heq. reflexivity. }
  assert (Hnn : forall k, Nat.to_uint k <> Decimal.Nil).
  { intros k Hk.
    pose proof (DecimalNat.Unsigned.to_of (Nat.to_uint k)) as Hto.
    rewrite DecimalNat.Unsigned.of_to in Hto. rewrite Hk in Hto.
    discriminate Hto. }
  apply DecimalNat.Unsigned.to_uint_inj.
  pose proof (NilZero.usu _ (Hnn n)) as Hn. pose proof (NilZero.usu _ (Hnn m)) as Hm.
  rewrite Hs in Hn. rewrite Hn in Hm. injection Hm as ->. reflexivity.
Qed.

(** Cutting two strings at the first occurrence of a character. *)
Lemma app_cons_unique (x : ascii) (a a' b b' : str) :
  x ∉ a -> x ∉ a' -> a ++ x :: b = a' ++ x :: b' -> a = a' /\ b = b'.
Proof.
  revert a'. induction a as [|c a IH]; intros a' Ha Ha' Heq.
  - destruct a' as [|c' a']; cbn in Heq.
    + injection Heq as ->. auto.
    + injection Heq as <- _. exfalso. apply Ha'. left.
  - destruct a' as [|c' a']; cbn in Heq.
    + injection Heq as -> _. exfalso. apply Ha. left.
    + injection Heq as -> Heq.
      apply not_elem_of_cons in Ha as [_ Ha]. apply not_elem_of_cons in Ha' as [_ Ha'].
      destruct (IH a' Ha Ha' Heq) as [-> ->]. auto.
Qed.

End EntryFacts.

(** * The background-removal job on its own platform *)

Module RemoveJobSpec.
Import Path PathFacts EntryFacts Batch BatchSpec.

Section WithImaging.
Context `{Imaging}.

Lemma is_dir_spec (t : FS) (c : list str) :
  is_dir t c = true <-> c = [] \/ c ∈ dirs t.
Proof. unfold is_dir. apply bool_decide_eq_true. Qed.

Lemma is_dir_false (t : FS) (c : list str) :
  is_dir t c = false <-> c <> [] /\ c ∉ dirs t.
Proof. unfold is_dir. rewrite bool_decide_eq_false. tauto. Qed.

Lemma is_file_false (t : FS) (c : list str) :
  is_file t c = false <-> files t !! c = None.
Proof.
  unfold is_file. rewrite bool_decide_eq_false. rewrite <- eq_None_not_Some. tauto.
Qed.

(** Every path the glob of the job matches has the shape [png_entry]. *)
Lemma glob_png_entry (pf : Platform) (t : FS) (f : str) :
  fs_names_ok pf t = true ->
  f ∈ glob pf t (py "./avante n") (py ".png") ->
  exists c0 stem e,
    png_entry pf f c0 stem e
    /\ is_dir t [py "avante n"] = true
    /\ resolve pf f = [py "avante n"; (c0 :: stem) ++ "."%char :: e]
    /\ is_dir t (removelast (resolve pf f)) = true.
Proof.
  intros Hok Hf.
  assert (Hpng : "."%char ∉ py "png") by (apply not_in_literal; vm_compute; reflexivity).
  assert (Hn : is_sep pf "n"%char = false) by (destruct pf; reflexivity).
  destruct (glob_entry pf t (py "./avante n") (py "png") f "n"%char eq_refl Hn Hpng Hok Hf)
    as (c0 & stem & e & Hf' & Hc0 & Hstem & He & Hdot & Hnorm & Hdir & _).
  assert (Hres : resolve pf (py "./avante n") = [py "avante n"]) by (destruct pf; reflexivity).
  rewrite Hres in Hdir.
  assert (Hrf : resolve pf f = [py "avante n"; (c0 :: stem) ++ "."%char :: e]).
  { rewrite Hf'.
    rewrite (resolve_entry pf _ _ _ (sep_is_sep pf) (entry_name_valid pf c0 stem e Hc0 Hstem He)).
    rewrite Hres. reflexivity. }
  exists c0, stem, e. split; [|split; [exact Hdir|split; [exact Hrf|]]].
  - repeat split; try assumption.
    apply (normcase_lower pf e (py "png")); [|apply not_in_literal; vm_compute; reflexivity
                                             |reflexivity].
    rewrite Hnorm. destruct pf; reflexivity.
  - rewrite Hrf. exact Hdir.
Qed.

(** The paths of the job on [nt] for a matched path: one directory for
every file, and a file name made of the directory name, the counter and the
extension only. *)
Lemma nt_paths (f : str) (c0 : ascii) (stem e : str) (k : nat) :
  png_entry nt f c0 stem e ->
  snd (splitext nt f) = "."%char :: e
  /\ remove_dir nt f = py "./avante n_remove"
  /\ remove_path nt f k = py "./avante n_remove/./avante n_remove" ++ str_of_nat k ++ "."%char :: e
  /\ resolve nt (remove_dir nt f) = [py "avante n_remove"]
  /\ resolve nt (remove_path nt f k)
     = [py "avante n_remove"; py "avante n_remove" ++ str_of_nat k ++ "."%char :: e]
  /\ lower (snd (splitext nt (remove_path nt f k))) = py ".png".
Proof.
  intros (-> & Hc0 & Hstem & He & Hdot & Hlow).
  pose proof (splitext_entry nt (py "./avante n") c0 stem e Hc0 Hstem He Hdot) as Hsplit.
  assert (Htrunc : truncate_title (py "./avante n" ++ sep nt :: c0 :: stem) = py "./avante n").
  { apply truncate_title_at_backslash. apply not_in_literal. vm_compute. reflexivity. }
  assert (Hdir : remove_dir nt (py "./avante n" ++ sep nt :: (c0 :: stem) ++ "."%char :: e)
                 = py "./avante n_remove").
  { unfold remove_dir. rewrite Hsplit. cbn [fst]. rewrite Htrunc. reflexivity. }
  assert (Hpath : remove_path nt (py "./avante n" ++ sep nt :: (c0 :: stem) ++ "."%char :: e) k
                  = py "./avante n_remove/./avante n_remove" ++ str_of_nat k ++ "."%char :: e).
  { unfold remove_path. rewrite Hsplit. cbn [fst snd]. rewrite Htrunc. reflexivity. }
  split; [rewrite Hsplit; reflexivity|]. split; [exact Hdir|]. split; [exact Hpath|].
  split; [rewrite Hdir; reflexivity|].
  split; [apply (remove_path_nt c0 stem e k Hc0 Hstem He Hdot)|].
  rewrite Hpath.
  change (py "./avante n_remove/./avante n_remove" ++ str_of_nat k ++ "."%char :: e)
    with (py "./avante n_remove/." ++ "/"%char
          :: ("a"%char :: (py "vante n_remove" ++ str_of_nat k)) ++ "."%char :: e).
  rewrite (splitext_entry_any nt _ "/"%char "a"%char _ e eq_refl); try assumption.
  - cbn [snd]. change (lower ("."%char :: e)) with ("."%char :: lower e).
    rewrite Hlow. reflexivity.
  - discriminate.
  - change ("a"%char :: py "vante n_remove" ++ str_of_nat k)
      with (py "avante n_remove" ++ str_of_nat k).
    apply no_sep_app. split; [apply no_sep_literal; reflexivity | apply str_of_nat_no_sep].
Qed.

(** On [nt], different counter values give different output entries,
whatever the two matched files are. *)
Lemma nt_outputs_distinct (f g : str) (c0 d0 : ascii) (stem e gstem ge : str) (k k' : nat) :
  png_entry nt f c0 stem e -> png_entry nt g d0 gstem ge ->
  resolve nt (remove_path nt f k) = resolve nt (remove_path nt g k') -> k = k'.
Proof.
  intros Hf Hg Heq.
  destruct (nt_paths f c0 stem e k Hf) as (_ & _ & _ & _ & Hrf & _).
  destruct (nt_paths g d0 gstem ge k' Hg) as (_ & _ & _ & _ & Hrg & _).
  rewrite Hrf, Hrg in Heq. injection Heq as Heq.
  apply app_cons_unique in Heq as [Hk _]; try apply str_of_nat_no_dot.
  apply str_of_nat_inj. exact Hk.
Qed.

(** One turn of the loop on [nt] goes through as soon as the matched entry
decodes, no regular file is in the way of the directory and no directory
is in the way of the output. *)
Lemma remove_body_nt_ok (f : str) (c0 : ascii) (stem e : str) (k : nat)
    (w : World) (img : Image) :
  png_entry nt f c0 stem e ->
  files (fs w) !! resolve nt f = Some (image_data img) ->
  is_file (fs w) [py "avante n_remove"] = false ->
  is_dir (fs w) (resolve nt (remove_path nt f k)) = false ->
  exists w1,
    remove_body nt f k w = (Ok tt, w1)
    /\ files (fs w1)
       = <[ resolve nt (remove_path nt f k) := image_data (encoded (py ".png") (cutout img)) ]>
           (files (fs w))
    /\ dirs (fs w1) = {[ [py "avante n_remove"] ]} ∪ dirs (fs w)
    /\ made_dirs (trace w1)
       = made_dirs (trace w)
         ++ (if is_dir (fs w) [py "avante n_remove"] then [] else [py "./avante n_remove"]).
Proof.
  intros Hentry Himg Hnofile Hnodir.
  destruct (nt_paths f c0 stem e k Hentry) as (_ & Hdirname & _ & Hrd & Hrp & Hext).
  rewrite remove_body_eq.
  assert (Hopen : Image_open nt f w = (Ok img, w)) by (apply Image_open_ok; auto).
  rewrite Hopen, Hrd, Hnofile, orb_false_r.
  assert (Hsave : forall w0,
             dirs (fs w0) = {[ [py "avante n_remove"] ]} ∪ dirs (fs w) ->
             files (fs w0) = files (fs w) ->
             exists w1,
               Image_save nt (remove (convert img RGB)) (remove_path nt f k) w0 = (Ok tt, w1)
               /\ files (fs w1)
                  = <[ resolve nt (remove_path nt f k)
                       := image_data (encoded (py ".png") (cutout img)) ]> (files (fs w))
               /\ dirs (fs w1) = {[ [py "avante n_remove"] ]} ∪ dirs (fs w)
               /\ made_dirs (trace w1) = made_dirs (trace w0)).
  { intros w0 Hd0 Hf0.
    destruct (Image_save_succeeds nt (remove (convert img RGB)) (remove_path nt f k) w0 PNG)
      as [w1 Hw1].
    - rewrite Hext. reflexivity.
    - reflexivity.
    - apply is_dir_false. apply is_dir_false in Hnodir as [Hne Hnd].
      split; [exact Hne|]. rewrite Hd0. intros Hin.
      apply elem_of_union in Hin as [Hin|Hin]; [|contradiction].
      apply elem_of_singleton in Hin. rewrite Hrp in Hin. discriminate Hin.
    - rewrite Hrp. cbn [removelast]. apply is_dir_spec. right. rewrite Hd0.
      apply elem_of_union_l, elem_of_singleton. reflexivity.
    - exists w1. split; [exact Hw1|].
      apply Image_save_ok in Hw1 as (_ & _ & Hfiles & Hdirs & Htrace).
      rewrite Hfiles, Hdirs, Hext, Hf0, Hd0, Htrace.
      split; [reflexivity|]. split; [reflexivity|].
      unfold made_dirs. rewrite omap_app. cbn. apply app_nil_r. }
  destruct (is_dir (fs w) [py "avante n_remove"]) eqn:Edir; cbn [negb].
  - destruct (Hsave w) as (w1 & Hw1 & Hf1 & Hd1 & Ht1); [|reflexivity|].
    + apply is_dir_spec in Edir as [Edir|Edir]; [discriminate Edir|].
      symmetry. apply subseteq_union_1_L. apply singleton_subseteq_l. exact Edir.
    + exists w1. rewrite app_nil_r. auto.
  - unfold os_mkdir. rewrite Hrd, Edir, Hnofile. cbn [orb removelast].
    assert (Hroot : is_dir (fs w) [] = true) by (apply is_dir_spec; left; reflexivity).
    rewrite Hroot.
    match goal with
    | |- context [Image_save _ _ _ ?w0] =>
        destruct (Hsave w0) as (w1 & Hw1 & Hf1 & Hd1 & Ht1); [reflexivity | reflexivity |]
    end.
    exists w1. split; [exact Hw1|]. split; [exact Hf1|]. split; [exact Hd1|].
    rewrite Ht1. cbn [trace]. unfold made_dirs. rewrite omap_app, Hdirname. reflexivity.
Qed.

(** The regular files a run changes: those at the output path of the
[j]-th listed file for the counter value it had, nothing else. *)
Lemma remove_loop_frame_exact (pf : Platform) (l : list str) (count : nat) (w : World)
    (c : list str) :
  (forall j g, l !! j = Some g -> resolve pf (remove_path pf g (count + j)) <> c) ->
  files (fs (snd (remove_loop pf l count w))) !! c = files (fs w) !! c.
Proof.
  revert count w. induction l as [|f rest IH]; intros count w Hc; cbn [remove_loop].
  - reflexivity.
  - destruct (remove_body pf f count w) as [[u|e] w1] eqn:Ebody.
    + apply remove_body_files in Ebody as (img & _ & Hfiles & _).
      rewrite IH.
      * rewrite Hfiles. apply lookup_insert_ne.
        specialize (Hc 0%nat f eq_refl). rewrite Nat.add_0_r in Hc. exact Hc.
      * intros j g Hg. specialize (Hc (S j) g Hg).
        replace (count + 1 + j)%nat with (count + S j)%nat by lia. exact Hc.
    + apply remove_body_files in Ebody as [Hfiles _]. cbn [snd]. rewrite Hfiles. reflexivity.
Qed.

(** The loop on [nt], from any counter value. *)
Lemma remove_loop_nt_run (l : list str) (count : nat) (w : World) :
  (forall f, f ∈ l ->
     exists c0 stem e, png_entry nt f c0 stem e
                       /\ resolve nt f = [py "avante n"; (c0 :: stem) ++ "."%char :: e]) ->
  (forall f, f ∈ l -> holds_image w (resolve nt f)) ->
  is_file (fs w) [py "avante n_remove"] = false ->
  (forall j f, l !! j = Some f ->
     is_dir (fs w) (resolve nt (remove_path nt f (count + j))) = false) ->
  exists w',
    remove_loop nt l count w = (Ok tt, (count + length l)%nat, w')
    /\ (l <> [] -> is_dir (fs w') [py "avante n_remove"] = true)
    /\ (forall c, c ∈ dirs (fs w) -> c ∈ dirs (fs w'))
    /\ (forall c, c ∈ dirs (fs w') -> c = [py "avante n_remove"] \/ c ∈ dirs (fs w))
    /\ made_dirs (trace w')
       = made_dirs (trace w)
         ++ (if is_dir (fs w) [py "avante n_remove"] then []
             else match l with [] => [] | _ :: _ => [py "./avante n_remove"] end)
    /\ (forall j f img, l !! j = Some f ->
          files (fs w) !! resolve nt f = Some (image_data img) ->
          files (fs w') !! resolve nt (remove_path nt f (count + j))
          = Some (image_data (encoded (py ".png") (cutout img)))).
Proof.
  revert count w. induction l as [|f rest IH]; intros count w Hshape Himg Hnofile Hnodir.
  - exists w. cbn [remove_loop length]. rewrite Nat.add_0_r.
    split; [reflexivity|]. split; [congruence|]. split; [auto|]. split; [auto|].
    split; [destruct (is_dir (fs w) [py "avante n_remove"]); symmetry; apply app_nil_r|].
    intros j f img Hj. rewrite lookup_nil in Hj. discriminate Hj.
  - destruct (Hshape f ltac:(left)) as (c0 & stem & e & Hentry & Hrf).
    destruct (Himg f ltac:(left)) as [img0 Himg0].
    pose proof (Hnodir 0%nat f eq_refl) as Hnd0. rewrite Nat.add_0_r in Hnd0.
    destruct (remove_body_nt_ok f c0 stem e count w img0 Hentry Himg0 Hnofile Hnd0)
      as (w1 & Hbody & Hfiles & Hdirs & Hmade).
    destruct (nt_paths f c0 stem e count Hentry) as (_ & _ & _ & _ & Hrp & _).
    assert (Hsrc : forall g, g ∈ f :: rest ->
                     files (fs w1) !! resolve nt g = files (fs w) !! resolve nt g).
    { intros g Hg. destruct (Hshape g Hg) as (d0 & gstem & ge & _ & Hrg).
      rewrite Hfiles. apply lookup_insert_ne. rewrite Hrp, Hrg. discriminate. }
    destruct (IH (count + 1)%nat w1) as (w' & Hrun & Hdir' & Hmono & Hdirs' & Hmade' & Hout).
    + intros g Hg. apply Hshape. right. exact Hg.
    + intros g Hg. unfold holds_image. rewrite (Hsrc g ltac:(right; exact Hg)).
      apply Himg. right. exact Hg.
    + apply is_file_false. rewrite Hfiles, lookup_insert_ne by (rewrite Hrp; discriminate).
      apply is_file_false. exact Hnofile.
    + intros j g Hg. apply is_dir_false.
      specialize (Hnodir (S j) g Hg).
      replace (count + 1 + j)%nat with (count + S j)%nat by lia.
      apply is_dir_false in Hnodir as [Hne Hnd]. split; [exact Hne|].
      rewrite Hdirs. intros Hin. apply elem_of_union in Hin as [Hin|Hin]; [|contradiction].
      apply elem_of_singleton in Hin.
      destruct (Hshape g ltac:(right; apply list_elem_of_lookup; eauto))
        as (d0 & gstem & ge & Hgentry & _).
      destruct (nt_paths g d0 gstem ge (count + S j) Hgentry) as (_ & _ & _ & _ & Hrg & _).
      rewrite Hrg in Hin. discriminate Hin.
    + exists w'. cbn [remove_loop]. rewrite Hbody, Hrun. cbn [length].
      split; [do 2 f_equal; lia|].
      assert (Hin1 : [py "avante n_remove"] ∈ dirs (fs w1))
        by (rewrite Hdirs; apply elem_of_union_l, elem_of_singleton; reflexivity).
      split; [intros _; apply is_dir_spec; right; apply Hmono; exact Hin1|].
      split; [intros c Hc; apply Hmono; rewrite Hdirs; apply elem_of_union_r; exact Hc|].
      split.
      { intros c Hc. apply Hdirs' in Hc as [Hc|Hc]; [auto|].
        rewrite Hdirs in Hc. apply elem_of_union in Hc as [Hc|Hc]; [|auto].
        apply elem_of_singleton in Hc. auto. }
      split.
      { assert (Hd1 : is_dir (fs w1) [py "avante n_remove"] = true)
          by (apply is_dir_spec; right; exact Hin1).
        rewrite Hmade', Hd1, app_nil_r, Hmade. reflexivity. }
      { intros j g img Hj Hg. destruct j as [|j]; cbn in Hj.
        -- injection Hj as <-. rewrite Nat.add_0_r.
           assert (Hw' : w' = snd (remove_loop nt rest (count + 1) w1))
             by (rewrite Hrun; reflexivity).
           rewrite Hw', remove_loop_frame_exact.
           ++ rewrite Hfiles, lookup_insert_eq. rewrite Himg0 in Hg. injection Hg as ->.
              reflexivity.
           ++ intros j g Hgj Heq.
              destruct (Hshape g ltac:(right; apply list_elem_of_lookup; eauto))
                as (d0 & gstem & ge & Hgentry & _).
              pose proof (nt_outputs_distinct g f d0 c0 gstem ge stem e _ _ Hgentry Hentry Heq).
              lia.
        -- replace (count + S j)%nat with (count + 1 + j)%nat by lia.
           apply Hout; [exact Hj|].
           rewrite (Hsrc g); [exact Hg|]. right. apply list_elem_of_lookup. eauto. }
Qed.

(** X1: on Windows paths the job runs to its end.  Take a tree with
proper entry names, stored in the form Windows compares them in, where
every matched entry decodes, no regular file is called [avante n_remove]
and no directory sits at an output entry.  A run over the matched paths, in
any listing order, raises nothing and ends with the counter at the number
of files.  Every output lies in the one directory [avante n_remove]: when
the directory is there before the run, the run makes no directory; when it
is not and a file is matched, the run makes it, once, and no other.  The
output of the [k]-th file is named [avante n_remove], [k], extension, and
after the run it holds the cutout of the image the [k]-th file held. *)
Theorem remove_job_nt_completes (w : World) (matched : list str) :
  matched ≡ₚ glob nt (fs w) (py "./avante n") (py ".png") ->
  fs_names_ok nt (fs w) = true ->
  fs_folded nt (fs w) = true ->
  (forall f, f ∈ matched -> holds_image w (resolve nt f)) ->
  is_file (fs w) [py "avante n_remove"] = false ->
  (forall k f, matched !! k = Some f ->
     is_dir (fs w) (resolve nt (remove_path nt f k)) = false) ->
  exists w',
    remove_job nt matched w = (Ok tt, length matched, w')
    /\ (matched <> [] -> is_dir (fs w') [py "avante n_remove"] = true)
    /\ made_dirs (trace w')
       = made_dirs (trace w)
         ++ (if is_dir (fs w) [py "avante n_remove"] then []
             else match matched with [] => [] | _ :: _ => [py "./avante n_remove"] end)
    /\ (forall c, c ∈ dirs (fs w') <->
                  c ∈ dirs (fs w) \/ (c = [py "avante n_remove"] /\ matched <> []))
    /\ (forall k f img, matched !! k = Some f ->
          files (fs w) !! resolve nt f = Some (image_data img) ->
          resolve nt (remove_path nt f k)
          = [py "avante n_remove"; py "avante n_remove" ++ str_of_nat k ++ snd (splitext nt f)]
          /\ files (fs w') !! resolve nt (remove_path nt f k)
             = Some (image_data (encoded (py ".png") (cutout img))))
    /\ fs_folded nt (fs w') = true.
Proof.
  intros Hperm Hok Hfold Himg Hnofile Hnodir.
  assert (Hshape : forall f, f ∈ matched ->
             exists c0 stem e, png_entry nt f c0 stem e
                               /\ resolve nt f = [py "avante n"; (c0 :: stem) ++ "."%char :: e]).
  { intros f Hf. rewrite Hperm in Hf.
    destruct (glob_png_entry nt (fs w) f Hok Hf) as (c0 & stem & e & He & _ & Hr & _).
    eauto. }
  destruct (remove_loop_nt_run matched 0 w Hshape Himg Hnofile Hnodir)
    as (w' & Hrun & Hdir & Hmono & Hdirs & Hmade & Hout).
  exists w'. unfold remove_job. split; [exact Hrun|]. split; [exact Hdir|].
  split; [exact Hmade|]. split.
  - intros c. split.
    + intros Hc. destruct (Hdirs c Hc) as [->|Hin]; [|auto].
      destruct matched as [|f rest]; [|right; split; [reflexivity | discriminate]].
      left. cbn [remove_loop] in Hrun. injection Hrun as <-. exact Hc.
    + intros [Hc|[-> Hne]]; [exact (Hmono c Hc)|].
      specialize (Hdir Hne). apply is_dir_spec in Hdir as [Hdir|Hdir];
        [discriminate Hdir | exact Hdir].
  - split.
    { intros k f img Hk Hf. split; [|exact (Hout k f img Hk Hf)].
      destruct (Hshape f ltac:(apply list_elem_of_lookup; eauto)) as (c0 & stem & e & He & _).
      destruct (nt_paths f c0 stem e k He) as (Hext & _ & _ & _ & Hrp & _).
      rewrite Hrp, Hext. reflexivity. }
    rewrite fs_folded_spec in Hfold. apply fs_folded_spec.
    intros c name Hc Hname.
    destruct (decide (c ∈ imap (fun j g => resolve nt (remove_path nt g j)) matched))
      as [Hwritten|Hkept].
    + apply elem_of_lookup_imap in Hwritten as (j & g & -> & Hj).
      assert (Hg : g ∈ glob nt (fs w) (py "./avante n") (py ".png"))
        by (rewrite <- Hperm; apply list_elem_of_lookup; eauto).
      destruct (glob_png_entry nt (fs w) g Hok Hg) as (c0 & stem & e & He & _ & Hrg & _).
      destruct (nt_paths g c0 stem e j He) as (_ & _ & _ & _ & Hrp & _).
      rewrite Hrp in Hname.
      assert (Hin : resolve nt g ∈ dom (files (fs w)) ∪ dirs (fs w)).
      { apply elem_of_union_l, elem_of_dom. destruct (Himg g) as [img Hfile];
          [apply list_elem_of_lookup; eauto | rewrite Hfile; eauto]. }
      assert (Hold : normcase nt ((c0 :: stem) ++ "."%char :: e)
                     = (c0 :: stem) ++ "."%char :: e).
      { apply (Hfold _ _ Hin). rewrite Hrg. right. left. }
      apply normcase_app_inv in Hold as [_ Hext].
      apply elem_of_cons in Hname as [->|Hname]; [reflexivity|].
      apply list_elem_of_singleton in Hname as ->.
      rewrite !normcase_app, str_of_nat_normcase, Hext. reflexivity.
    + apply elem_of_union in Hc as [Hc|Hc].
      * apply (Hfold c name); [|exact Hname]. apply elem_of_union_l.
        apply elem_of_dom. apply elem_of_dom in Hc.
        assert (Hw' : w' = snd (remove_loop nt matched 0 w)) by (rewrite Hrun; reflexivity).
        rewrite Hw' in Hc. rewrite remove_loop_frame_exact in Hc; [exact Hc|].
        intros j g Hj Heq. apply Hkept. apply elem_of_lookup_imap.
        exists j, g. split; [symmetry; exact Heq | exact Hj].
      * destruct (Hdirs c Hc) as [->|Hin].
        -- apply list_elem_of_singleton in Hname as ->. reflexivity.
        -- apply (Hfold c name); [|exact Hname]. apply elem_of_union_r. exact Hin.
Qed.

(** X2: within one run on Windows paths no output replaces another: two
different counter values never lead to the same output entry, whichever
matched files they belong to. *)
Theorem remove_job_nt_outputs_distinct (t : FS) (f g : str) (k k' : nat) :
  fs_names_ok nt t = true ->
  f ∈ glob nt t (py "./avante n") (py ".png") ->
  g ∈ glob nt t (py "./avante n") (py ".png") ->
  k <> k' ->
  resolve nt (remove_path nt f k) <> resolve nt (remove_path nt g k')
  /\ remove_path nt f k <> remove_path nt g k'.
Proof.
  intros Hok Hf Hg Hk.
  destruct (glob_png_entry nt t f Hok Hf) as (c0 & stem & e & He & _).
  destruct (glob_png_entry nt t g Hok Hg) as (d0 & gstem & ge & Hge & _).
  assert (Hres : resolve nt (remove_path nt f k) <> resolve nt (remove_path nt g k')).
  { intros Heq. apply Hk. exact (nt_outputs_distinct f g c0 d0 stem e gstem ge k k' He Hge Heq). }
  split; [exact Hres|]. intros Heq. apply Hres. rewrite Heq. reflexivity.
Qed.

(** X3: on Windows paths the output of a file carries nothing of the
file's own name: two matched files with the same extension are sent, for
the same counter value, to the very same output path, and all matched files
share the directory [./avante n_remove].  Which source an output belongs
to is decided by the listing order alone. *)
Theorem remove_job_nt_name_free (t : FS) (f g : str) (k : nat) :
  fs_names_ok nt t = true ->
  f ∈ glob nt t (py "./avante n") (py ".png") ->
  g ∈ glob nt t (py "./avante n") (py ".png") ->
  remove_dir nt f = py "./avante n_remove"
  /\ remove_dir nt g = remove_dir nt f
  /\ (snd (splitext nt f) = snd (splitext nt g) ->
      remove_path nt f k = remove_path nt g k).
Proof.
  intros Hok Hf Hg.
  destruct (glob_png_entry nt t f Hok Hf) as (c0 & stem & e & He & _).
  destruct (glob_png_entry nt t g Hok Hg) as (d0 & gstem & ge & Hge & _).
  destruct (nt_paths f c0 stem e k He) as (Hext & Hdir & Hpath & _).
  destruct (nt_paths g d0 gstem ge k Hge) as (Hgext & Hgdir & Hgpath & _).
  split; [exact Hdir|]. split; [rewrite Hdir, Hgdir; reflexivity|].
  intros Hsame. rewrite Hext, Hgext in Hsame. injection Hsame as ->.
  rewrite Hpath, Hgpath. reflexivity.
Qed.

End WithImaging.

Lemma remove_job_nt_completes_witness :
  exists w',
    @remove_job plain_imaging nt
      [py "./avante n\car1.png"; py "./avante n\car2.png"] (start avante_tree)
    = (Ok tt, 2%nat, w')
    /\ made_dirs (trace w') = [py "./avante n_remove"]
    /\ files (fs w') !! [py "avante n_remove"; py "avante n_remove1.png"]
       = Some (@image_data plain_imaging
                 (@Build_Image plain_imaging RGBA (300, 200) [])).
Proof.
  destruct (@remove_job_nt_completes plain_imaging (start avante_tree)
              [py "./avante n\car1.png"; py "./avante n\car2.png"])
    as (w' & Hrun & _ & Hmade & _ & Hout & _).
  - vm_compute. reflexivity.
  - vm_compute. reflexivity.
  - vm_compute. reflexivity.
  - intros f Hf.
    apply elem_of_cons in Hf as [->|Hf]; [|apply elem_of_cons in Hf as [->|Hf]; [|inversion Hf]];
      vm_compute; eexists; reflexivity.
  - vm_compute. reflexivity.
  - intros k f Hk. destruct k as [|[|k]]; cbn in Hk; try discriminate Hk;
      injection Hk as <-; vm_compute; reflexivity.
  - exists w'. split; [exact Hrun|]. split; [exact Hmade|].
    destruct (Hout 1%nat (py "./avante n\car2.png")
                (@Build_Image plain_imaging RGBA (300, 200) []) eq_refl eq_refl)
      as [_ Hfile].
    exact Hfile.
Defined.

Lemma remove_job_nt_outputs_distinct_witness :
  @remove_path nt (py "./avante n\car1.png") 0 <> @remove_path nt (py "./avante n\car2.png") 1.
Proof.
  destruct (@remove_job_nt_outputs_distinct plain_imaging avante_tree
              (py "./avante n\car1.png") (py "./avante n\car2.png") 0 1) as [_ Hne].
  - vm_compute. reflexivity.
  - apply list_elem_of_In. vm_compute. left. reflexivity.
  - apply list_elem_of_In. vm_compute. right. left. reflexivity.
  - discriminate.
  - exact Hne.
Defined.

Lemma remove_job_nt_name_free_witness :
  @remove_path nt (py "./avante n\car1.png") 0 = @remove_path nt (py "./avante n\car2.png") 0.
Proof.
  destruct (@remove_job_nt_name_free plain_imaging avante_tree
              (py "./avante n\car1.png") (py "./avante n\car2.png") 0) as (_ & _ & Hsame).
  - vm_compute. reflexivity.
  - apply list_elem_of_In. vm_compute. left. reflexivity.
  - apply list_elem_of_In. vm_compute. right. left. reflexivity.
  - apply Hsame. vm_compute. reflexivity.
Defined.

End RemoveJobSpec.

(** * The background-removal job on POSIX paths *)

Module RemoveJobPosix.
Import Path PathFacts EntryFacts Batch BatchSpec RemoveJobSpec.

Section WithImaging.
Context `{Imaging}.

Lemma fs_closed_parent (t : FS) (c : list str) :
  fs_closed t = true -> c ∈ dom (files t) ∪ dirs t -> is_dir t (removelast c) = true.
Proof.
  unfold fs_closed. intros Hclosed Hc. rewrite forallb_forall in Hclosed.
  apply Hclosed. apply list_elem_of_In, elem_of_elements. exact Hc.
Qed.

(** Where the title of a matched path is cut on [posix]: inside the file
name, after a part [m] of the stem. *)
Lemma posix_cut (f : str) (c0 : ascii) (stem e : str) :
  png_entry posix f c0 stem e ->
  exists m tl,
    c0 :: stem = m ++ tl
    /\ truncate_title (fst (splitext posix f)) = py "./avante n" ++ "/"%char :: m.
Proof.
  intros (-> & Hc0 & Hstem & He & Hdot & _).
  rewrite (splitext_entry posix _ c0 stem e Hc0 Hstem He Hdot). cbn [fst].
  assert (Hlit : "\"%char ∉ py "./avante n" ++ ["/"%char])
    by (apply not_in_literal; vm_compute; reflexivity).
  destruct (decide ("\"%char ∈ c0 :: stem)) as [Hin|Hout].
  - apply list_elem_of_split_l in Hin as (l1 & l2 & Hsplit & Hl1).
    exists l1, ("\"%char :: l2). split; [exact Hsplit|].
    rewrite Hsplit.
    change (py "./avante n" ++ sep posix :: l1 ++ "\"%char :: l2)
      with (py "./avante n" ++ ["/"%char] ++ (l1 ++ "\"%char :: l2)).
    rewrite !app_assoc.
    assert (Hpre : "\"%char ∉ (py "./avante n" ++ ["/"%char]) ++ l1).
    { intros Hin. apply elem_of_app in Hin as [Hin|Hin]; contradiction. }
    rewrite (proj2 (truncate_title_at_backslash _ l2 Hpre)).
    rewrite <- app_assoc. reflexivity.
  - exists (removelast (c0 :: stem)), [List.last (c0 :: stem) c0].
    split; [apply app_removelast_last; discriminate|].
    unfold truncate_title. cbn zeta. unfold find. change (py "\") with ["\"%char].
    rewrite find_from_absent.
    + rewrite slice_to_minus_one.
      change (py "./avante n" ++ sep posix :: c0 :: stem)
        with ((py "./avante n" ++ ["/"%char]) ++ c0 :: stem).
      rewrite removelast_app by discriminate. rewrite <- app_assoc. reflexivity.
    + change (py "./avante n" ++ sep posix :: c0 :: stem)
        with ((py "./avante n" ++ ["/"%char]) ++ c0 :: stem).
      intros Hin. apply elem_of_app in Hin as [Hin|Hin]; contradiction.
Qed.

(** The paths of the job on [posix] for a matched path: the directory is
an entry [x1] of the source directory, and the save aims at the entry [x2]
of a directory [avante n] below [x1]. *)
Lemma posix_paths (f : str) (c0 : ascii) (stem e : str) (k : nat) :
  png_entry posix f c0 stem e ->
  exists x1 x2,
    resolve posix (remove_dir posix f) = [py "avante n"; x1]
    /\ resolve posix (remove_path posix f k) = [py "avante n"; x1; py "avante n"; x2]
    /\ lower (snd (splitext posix (remove_path posix f k))) = py ".png".
Proof.
  intros Hentry.
  destruct (posix_cut f c0 stem e Hentry) as (m & tl & Hm & Hcut).
  destruct Hentry as (Hf & Hc0 & Hstem & He & Hdot & Hlow).
  assert (Hmsep : no_sep posix m).
  { rewrite Hm in Hstem. apply no_sep_app in Hstem as [Hl _]. exact Hl. }
  assert (Hsplit : splitext posix f = (py "./avante n" ++ sep posix :: c0 :: stem, "."%char :: e)).
  { rewrite Hf. apply splitext_entry; assumption. }
  rewrite Hsplit in Hcut. cbn [fst] in Hcut.
  set (x1 := m ++ py "_remove").
  set (y := m ++ py "_remove" ++ str_of_nat k).
  exists x1, (y ++ "."%char :: e).
  assert (Hx1 : valid_name posix x1 = true).
  { apply long_name_valid.
    - apply no_sep_app. split; [exact Hmsep | apply no_sep_literal; reflexivity].
    - unfold x1. rewrite length_app. cbn. lia. }
  assert (Hysep : no_sep posix y).
  { unfold y. apply no_sep_app. split; [exact Hmsep|]. apply no_sep_app.
    split; [apply no_sep_literal; reflexivity | apply str_of_nat_no_sep]. }
  assert (Hy : exists y0 y', y = y0 :: y' /\ y0 <> "."%char).
  { unfold y. destruct m as [|m0 m'].
    - cbn. eexists _, _. split; [reflexivity | discriminate].
    - cbn in Hm. injection Hm as <- _. cbn. eexists _, _. split; [reflexivity | exact Hc0]. }
  destruct Hy as (y0 & y' & Hyeq & Hy0).
  assert (Hdir : remove_dir posix f = py "./avante n" ++ "/"%char :: x1).
  { unfold remove_dir. rewrite Hsplit. cbn [fst]. rewrite Hcut.
    unfold x1. rewrite <- app_assoc. reflexivity. }
  assert (Hpath : remove_path posix f k
                  = (py "./avante n" ++ "/"%char :: x1 ++ py "/./avante n")
                    ++ "/"%char :: y ++ "."%char :: e).
  { unfold remove_path. rewrite Hsplit. cbn [fst snd]. rewrite Hcut.
    unfold x1, y. rewrite <- !app_assoc. cbn [app py list_ascii_of_string].
    rewrite <- !app_assoc. reflexivity. }
  assert (Hres : resolve posix (py "./avante n" ++ "/"%char :: x1) = [py "avante n"; x1]).
  { rewrite (resolve_entry posix _ _ "/"%char eq_refl Hx1). reflexivity. }
  split; [rewrite Hdir; exact Hres|]. split.
  - rewrite Hpath.
    assert (Hx2 : valid_name posix (y ++ "."%char :: e) = true).
    { apply long_name_valid.
      - apply no_sep_app. split; [exact Hysep|]. apply no_sep_cons. split; [reflexivity|exact He].
      - unfold y. rewrite !length_app. cbn. lia. }
    rewrite (resolve_entry posix _ _ "/"%char eq_refl Hx2).
    change (py "./avante n" ++ "/"%char :: x1 ++ py "/./avante n")
      with (py "./avante n" ++ "/"%char :: x1 ++ "/"%char :: py "./avante n").
    replace (py "./avante n" ++ "/"%char :: x1 ++ "/"%char :: py "./avante n")
      with ((py "./avante n" ++ "/"%char :: x1) ++ "/"%char :: py "./avante n")
      by (rewrite <- app_assoc; reflexivity).
    rewrite (resolve_app_sep posix _ _ "/"%char eq_refl), Hres. reflexivity.
  - rewrite Hpath, Hyeq.
    rewrite (splitext_entry_any posix _ "/"%char y0 y' e eq_refl Hy0); try assumption.
    + cbn [snd]. change (lower ("."%char :: e)) with ("."%char :: lower e).
      rewrite Hlow. reflexivity.
    + rewrite <- Hyeq. exact Hysep.
Qed.


End WithImaging.


End RemoveJobPosix.

(** * More on the resize job *)

Module ResizeJobSpec.
Import Path PathFacts EntryFacts Batch BatchSpec.

Section WithImaging.
Context `{Imaging}.

Lemma listdir_intro (t : FS) (d : list str) (name : str) :
  d ++ [name] ∈ dom (files t) ∪ dirs t -> name ∈ listdir t d.
Proof.
  intros Hin. unfold listdir. apply list_elem_of_omap.
  exists (d ++ [name]). split; [apply elem_of_elements; exact Hin|].
  rewrite removelast_last, bool_decide_eq_true_2 by reflexivity.
  apply last_snoc.
Qed.

(** What the glob of a script returns for a visible entry of its directory
whose name ends in the suffix. *)
Lemma glob_intro (pf : Platform) (t : FS) (dirname suffix name : str) (c : ascii) :
  last dirname = Some c -> is_sep pf c = false ->
  is_dir t (resolve pf dirname) = true ->
  resolve pf dirname ++ [name] ∈ dom (files t) ∪ dirs t ->
  startswith name (py ".") = false ->
  endswith (normcase pf name) (normcase pf suffix) = true ->
  dirname ++ sep pf :: name ∈ glob pf t dirname suffix.
Proof.
  intros Hlast Hc Hdir Hin Hvis Hend. unfold glob. rewrite Hdir.
  apply list_elem_of_In, in_map_iff. exists name. split.
  - unfold join. rewrite Hlast, Hc. reflexivity.
  - apply filter_In. split.
    + apply list_elem_of_In, listdir_intro. exact Hin.
    + cbn beta. unfold ishidden. rewrite Hvis, Hend. reflexivity.
Qed.

(** X5: a turn of the resize loop never touches the file it has just
read: for a path matched by the glob, in a tree with proper entry names,
the output path is another path, it names another entry, and whatever the
turn does, the entry of the source holds afterwards what it held before. *)
Theorem resize_turn_keeps_source (pf : Platform) (w w1 : World) (f : str)
    (r : result unit) :
  fs_names_ok pf (fs w) = true ->
  f ∈ glob pf (fs w) (py "./data/k9") (py ".jpg") ->
  resize_body pf f w = (r, w1) ->
  resize_path pf f <> f
  /\ resolve pf (resize_path pf f) <> resolve pf f
  /\ files (fs w1) !! resolve pf f = files (fs w) !! resolve pf f.
Proof.
  intros Hok Hf Hbody.
  destruct (resize_glob_paths pf (fs w) f Hok Hf)
    as (c0 & stem & e & _ & _ & _ & Hrf & Hro & _).
  assert (Hne : resolve pf (resize_path pf f) <> resolve pf f).
  { rewrite Hro, Hrf. intros Heq. injection Heq as Heq.
    apply (f_equal (@length ascii)) in Heq.
    cbn in Heq. repeat rewrite length_app in Heq. cbn in Heq. lia. }
  split; [intros Heq; apply Hne; rewrite Heq; reflexivity|]. split; [exact Hne|].
  destruct r as [u|err].
  - apply resize_body_ok in Hbody as (img & _ & Hfiles & _).
    rewrite Hfiles. apply lookup_insert_ne. exact Hne.
  - apply resize_body_raise in Hbody as ->. reflexivity.
Qed.

(** The output path of the resize job for an entry of its directory. *)
Lemma resize_entry_paths (pf : Platform) (c0 : ascii) (stem e : str) :
  c0 <> "."%char -> no_sep pf (c0 :: stem) -> no_sep pf e -> "."%char ∉ e ->
  resize_path pf (py "./data/k9" ++ sep pf :: (c0 :: stem) ++ "."%char :: e)
  = py "./data/k9" ++ sep pf :: (c0 :: stem ++ py "_half") ++ "."%char :: e
  /\ resolve pf (py "./data/k9" ++ sep pf :: (c0 :: stem ++ py "_half") ++ "."%char :: e)
     = [py "data"; py "k9"; (c0 :: stem ++ py "_half") ++ "."%char :: e].
Proof.
  intros Hc0 Hstem He Hdot.
  assert (Hhalf : no_sep pf (c0 :: stem ++ py "_half")).
  { apply no_sep_stem_app; [exact Hstem|]. apply no_sep_literal. destruct pf; reflexivity. }
  split.
  - unfold resize_path. rewrite (splitext_entry pf _ c0 stem e Hc0 Hstem He Hdot).
    cbn [fst snd]. rewrite <- !app_assoc. cbn [app]. rewrite <- !app_assoc. reflexivity.
  - rewrite (resolve_entry pf _ _ _ (sep_is_sep pf) (entry_name_valid pf c0 _ e Hc0 Hhalf He)).
    destruct pf; reflexivity.
Qed.


(** A run over a list is the run over its first part followed, if that
one ended well, by the run over the rest. *)
Lemma resize_job_app (pf : Platform) (l1 l2 : list str) (w : World) :
  resize_job pf (l1 ++ l2) w
  = match resize_job pf l1 w with
    | (Ok _, w1) => resize_job pf l2 w1
    | (Raise e, w1) => (Raise e, w1)
    end.
Proof.
  revert w. induction l1 as [|f l1 IH]; intros w; cbn [app resize_job]; [reflexivity|].
  destruct (resize_body pf f w) as [[u|e] w1]; [apply IH | reflexivity].
Qed.


End WithImaging.

Lemma resize_turn_keeps_source_witness :
  files (fs (snd (@resize_body plain_imaging posix (py "./data/k9/a.jpg") (start k9_tree))))
    !! [py "data"; py "k9"; py "a.jpg"]
  = Some (picture RGB 640 480).
Proof.
  destruct (@resize_turn_keeps_source plain_imaging posix (start k9_tree)
              (snd (@resize_body plain_imaging posix (py "./data/k9/a.jpg") (start k9_tree)))
              (py "./data/k9/a.jpg")
              (fst (@resize_body plain_imaging posix (py "./data/k9/a.jpg") (start k9_tree))))
    as (_ & _ & Hkept).
  - vm_compute. reflexivity.
  - apply list_elem_of_In. vm_compute. right. left. reflexivity.
  - destruct (@resize_body plain_imaging posix (py "./data/k9/a.jpg") (start k9_tree)).
    reflexivity.
  - exact Hkept.
Defined.



End ResizeJobSpec.

(** * More on the training script *)

Module TrainingSpec.
Import Keras KerasSpec.

(** Rounding never turns the sign of a result around. *)
Lemma binary_round_aux_sign (prec emax : Z) (sx : bool) (mx ex : Z)
    (lx : SpecFloat.location) :
  match SpecFloat.binary_round_aux prec emax sx mx ex lx with
  | SpecFloat.S754_zero s => s = sx
  | SpecFloat.S754_infinity s => s = sx
  | SpecFloat.S754_finite s _ _ => s = sx
  | SpecFloat.S754_nan => True
  end.
Proof.
  unfold SpecFloat.binary_round_aux.
  destruct (SpecFloat.shr_fexp prec emax mx ex lx) as [mrs' e'].
  destruct (SpecFloat.shr_fexp prec emax _ e' SpecFloat.loc_Exact) as [mrs'' e''].
  destruct (SpecFloat.shr_m mrs''); [reflexivity | | exact I].
  destruct (e'' <=? emax - prec); reflexivity.
Qed.

Lemma not_negative_iff (x : Py.float) :
  Py.not_negative x = true <-> SpecFloat.SFleb (SpecFloat.S754_zero false) x = true.
Proof.
  destruct x as [s|s| |s m e]; cbn; try destruct s; cbn; split; congruence.
Qed.

Lemma float_of_int_not_negative (n : Z) :
  0 <= n ->
  Py.float_of_int n = SpecFloat.S754_nan \/ Py.not_negative (Py.float_of_int n) = true.
Proof.
  intros Hn. unfold Py.float_of_int, SpecFloat.binary_normalize.
  destruct n as [|p|p]; [right; reflexivity| |lia].
  unfold SpecFloat.binary_round.
  destruct (SpecFloat.shl_align p 0 _) as [mz ez].
  pose proof (binary_round_aux_sign 53 1024 false (Z.pos mz) ez SpecFloat.loc_Exact) as Hs.
  destruct (SpecFloat.binary_round_aux 53 1024 false (Z.pos mz) ez SpecFloat.loc_Exact);
    subst; cbn; auto.
Qed.

Lemma float_mul_not_negative (x y : Py.float) :
  Py.not_negative x = true -> Py.not_negative y = true ->
  Py.float_mul x y = SpecFloat.S754_nan \/ Py.not_negative (Py.float_mul x y) = true.
Proof.
  intros Hx Hy. unfold Py.float_mul.
  destruct x as [sx|sx| |sx mx ex], y as [sy|sy| |sy my ey]; cbn in Hx, Hy |- *;
    try discriminate; auto.
  all: try (apply negb_true_iff in Hx as ->); try (apply negb_true_iff in Hy as ->);
    cbn; auto.
  pose proof (binary_round_aux_sign 53 1024 false (Z.pos (mx * my)) (ex + ey)
                SpecFloat.loc_Exact) as Hs.
  destruct (SpecFloat.binary_round_aux 53 1024 false (Z.pos (mx * my)) (ex + ey)
              SpecFloat.loc_Exact); subst; cbn; auto.
Qed.

Lemma int_of_float_not_negative (x : Py.float) (k : Z) :
  Py.not_negative x = true -> Py.int_of_float x = Some k -> 0 <= k.
Proof.
  destruct x as [s|s| |s m e]; cbn; intros Hx Hk; try discriminate.
  - injection Hk as <-. lia.
  - apply negb_true_iff in Hx as ->. injection Hk as <-.
    apply Z.shiftl_nonneg. lia.
Qed.

(** The index [int(validation_split * num_files)] is never negative for a
split fraction that is not. *)
Lemma split_index_not_negative (r : Py.float) (n k : Z) :
  Py.not_negative r = true -> 0 <= n ->
  Py.int_of_float (Py.float_mul r (Py.float_of_int n)) = Some k -> 0 <= k.
Proof.
  intros Hr Hn Hk.
  destruct (float_of_int_not_negative n Hn) as [Hnan|Hpos].
  - rewrite Hnan in Hk. destruct r; discriminate Hk.
  - destruct (float_mul_not_negative r (Py.float_of_int n) Hr Hpos) as [Hm|Hm].
    + rewrite Hm in Hk. discriminate Hk.
    + exact (int_of_float_not_negative _ k Hm Hk).
Qed.

Lemma list_slice_from_zero {A : Type} (l : list A) (k : Z) :
  0 <= k -> list_slice l 0 k = take (Z.to_nat k) l.
Proof.
  intros Hk. unfold list_slice.
  destruct (Z.ltb_spec k 0); [lia|]. cbn [Z.ltb Z.compare].
  rewrite (Z.min_l 0) by lia. change (Z.to_nat 0) with 0%nat.
  rewrite drop_0, Nat.sub_0_r.
  destruct (Z.le_ge_cases k (Z.of_nat (length l))).
  - rewrite Z.min_l by lia. reflexivity.
  - rewrite Z.min_r by lia. rewrite Nat2Z.id.
    rewrite (take_ge l (length l)) by lia.
    rewrite (take_ge l (Z.to_nat k)) by lia. reflexivity.
Qed.

Lemma list_slice_to_end {A : Type} (l : list A) (k : Z) :
  0 <= k -> list_slice l k (Z.of_nat (length l)) = drop (Z.to_nat k) l.
Proof.
  intros Hk. unfold list_slice.
  destruct (Z.ltb_spec k 0); [lia|].
  destruct (Z.ltb_spec (Z.of_nat (length l)) 0); [lia|].
  rewrite Z.min_id, Nat2Z.id.
  destruct (Z.le_ge_cases k (Z.of_nat (length l))).
  - rewrite Z.min_l by lia. apply take_ge. rewrite length_drop. lia.
  - rewrite Z.min_r by lia. rewrite Nat2Z.id, Nat.sub_diag.
    rewrite (drop_ge l (Z.to_nat k)) by lia. apply take_0.
Qed.

(** X8: how the validation fraction divides a class directory.  For a
split fraction [r], a double with [0 <= r < 1] (the range the generator
accepts), and the listing of any class directory, of [n] files, both
subset feeds of
[image_generator] cut the listing at the same index [k = int(r * n)], the
product taken in binary64 arithmetic, rounding included.  When the conversion of [n] or the product overflows, both feeds
raise; otherwise [k] is not negative, the validation feed keeps the first
[k] files and the training feed keeps all the others, so that together they
serve every file once, in listing order, and no file goes to both.  The
test feed has no subset and keeps the whole listing of its directory. *)
Theorem feeds_split_directory {A : Type} (image_size : Z) (r : Py.float) (batch_size : Z)
    (all_files : list A) :
  SpecFloat.valid_binary 53 1024 r = true ->
  SpecFloat.SFleb (SpecFloat.S754_zero false) r = true ->
  SpecFloat.SFltb r (Py.float_of_int 1) = true ->
  let feeds := image_generator image_size r batch_size in
  let n := Z.of_nat (length all_files) in
  valid_files (test_generator_of feeds) all_files = Some all_files
  /\ match Py.int_of_float (Py.float_mul r (Py.float_of_int n)) with
     | None =>
         valid_files (val_generator_of feeds) all_files = None
         /\ valid_files (train_generator_of feeds) all_files = None
     | Some k =>
         0 <= k
         /\ valid_files (val_generator_of feeds) all_files
            = Some (take (Z.to_nat k) all_files)
         /\ valid_files (train_generator_of feeds) all_files
            = Some (drop (Z.to_nat k) all_files)
     end
  /\ (forall v t,
        valid_files (val_generator_of feeds) all_files = Some v ->
        valid_files (train_generator_of feeds) all_files = Some t ->
        v ++ t = all_files
        /\ (NoDup all_files -> forall x, x ∈ v -> x ∉ t)).
Proof.
  intros _ Hr _ feeds n. apply not_negative_iff in Hr.
  assert (Hn : 0 <= n) by (unfold n; lia).
  assert (Hval : valid_files (val_generator_of feeds) all_files
                 = match Py.int_of_float (Py.float_mul r (Py.float_of_int n)) with
                   | Some k => Some (list_slice all_files 0 k)
                   | None => None
                   end).
  { unfold valid_files, feeds. cbn [image_generator val_generator_of fst snd subset_split
      flow_from_directory subset image_data_generator train_datagen validation_split
      Py.times_int Py.int]. fold n. rewrite Z.mul_0_l. reflexivity. }
  assert (Htrain : valid_files (train_generator_of feeds) all_files
                   = match Py.int_of_float (Py.float_mul r (Py.float_of_int n)) with
                     | Some k => Some (list_slice all_files k n)
                     | None => None
                     end).
  { unfold valid_files, feeds. cbn [image_generator train_generator_of fst snd subset_split
      flow_from_directory subset image_data_generator train_datagen validation_split
      Py.times_int Py.int]. fold n. rewrite Z.mul_1_l. reflexivity. }
  assert (Hcut : match Py.int_of_float (Py.float_mul r (Py.float_of_int n)) with
                 | None =>
                     valid_files (val_generator_of feeds) all_files = None
                     /\ valid_files (train_generator_of feeds) all_files = None
                 | Some k =>
                     0 <= k
                     /\ valid_files (val_generator_of feeds) all_files
                        = Some (take (Z.to_nat k) all_files)
                     /\ valid_files (train_generator_of feeds) all_files
                        = Some (drop (Z.to_nat k) all_files)
                 end).
  { rewrite Hval, Htrain.
    destruct (Py.int_of_float (Py.float_mul r (Py.float_of_int n))) as [k|] eqn:Ek;
      [|auto].
    pose proof (split_index_not_negative r n k Hr Hn Ek) as Hk.
    split; [exact Hk|].
    rewrite (list_slice_from_zero all_files k Hk).
    unfold n. rewrite (list_slice_to_end all_files k Hk). auto. }
  split; [reflexivity|]. split; [exact Hcut|].
  intros v t Hv Ht.
  destruct (Py.int_of_float (Py.float_mul r (Py.float_of_int n))) as [k|].
  - destruct Hcut as (_ & Hv' & Ht'). rewrite Hv' in Hv. rewrite Ht' in Ht.
    injection Hv as <-. injection Ht as <-.
    split; [apply take_drop|].
    intros Hnodup x Hx Hx'.
    rewrite <- (take_drop (Z.to_nat k) all_files) in Hnodup.
    apply NoDup_app in Hnodup as (_ & Hdisj & _).
    exact (Hdisj x Hx Hx').
  - destruct Hcut as [Hv' _]. rewrite Hv' in Hv. discriminate Hv.
Qed.

(** At the fraction [0.29] a directory of 100 files gives 28 validation
files, not 29: the binary64 product is just below 29. *)
Lemma feeds_split_directory_witness :
  (length <$> valid_files
                (val_generator_of (image_generator 300 (Py.float_literal (29 # 100)) 16))
                (seq 0 100)) = Some 28%nat
  /\ (length <$> valid_files
                   (train_generator_of (image_generator 300 (Py.float_literal (29 # 100)) 16))
                   (seq 0 100)) = Some 72%nat.
Proof.
  destruct (feeds_split_directory 300 (Py.float_literal (29 # 100)) 16 (seq 0 100))
    as (_ & Hcut & _).
  - vm_compute. reflexivity.
  - vm_compute. reflexivity.
  - vm_compute. reflexivity.
  - cbn zeta in Hcut.
    change (Py.int_of_float
              (Py.float_mul (Py.float_literal (29 # 100))
                 (Py.float_of_int (Z.of_nat (length (seq 0 100))))))
      with (Some 28) in Hcut.
    destruct Hcut as (_ & -> & ->). split; vm_compute; reflexivity.
Defined.

(** *** Learning rate over a run *)

Lemma level_decreasing (s t : Z) : s <= t -> (level t <= level s)%Q.
Proof.
  intros Hst. unfold level.
  destruct (Z.leb_spec s 100), (Z.leb_spec t 100), (Z.leb_spec s 200), (Z.leb_spec t 200);
    try lia; unfold Qle; cbn; lia.
Qed.

(** X9: the learning rate never goes up during a run.  Of two updates of
a run, the later one is trained at a rate that is at most the rate of the
earlier one; both rates are defined, one of the three levels of the
schedule. *)
Theorem lr_never_increases (n steps_per_epoch e1 b1 e2 b2 : nat) :
  (e1 < n)%nat -> (b1 < steps_per_epoch)%nat ->
  (e2 < n)%nat -> (b2 < steps_per_epoch)%nat ->
  (e1 * steps_per_epoch + b1 <= e2 * steps_per_epoch + b2)%nat ->
  exists r1 r2,
    train_loop n steps_per_epoch optimizer !! e1 ≫= (fun rs => rs !! b1) = Some (Some r1)
    /\ train_loop n steps_per_epoch optimizer !! e2 ≫= (fun rs => rs !! b2) = Some (Some r2)
    /\ (r2 <= r1)%Q
    /\ r1 ∈ [1 # 1000; 5 # 10000; 1 # 10000]
    /\ r2 ∈ [1 # 1000; 5 # 10000; 1 # 10000].
Proof.
  intros He1 Hb1 He2 Hb2 Hle.
  exists (level (Z.of_nat (e1 * steps_per_epoch + b1))),
         (level (Z.of_nat (e2 * steps_per_epoch + b2))).
  assert (Hlevels : forall s, level s ∈ [1 # 1000; 5 # 10000; 1 # 10000]).
  { intros s. unfold level. destruct (s <=? 100); [left|].
    destruct (s <=? 200); [right; left | right; right; left]. }
  rewrite !train_loop_rates by assumption.
  cbn [optimizer learning_rate iterations]. rewrite !lr_schedule_call.
  split; [reflexivity|]. split; [reflexivity|].
  split; [apply level_decreasing; lia|]. split; apply Hlevels.
Qed.

Lemma lr_never_increases_witness :
  exists r1 r2,
    train_loop 100 3 optimizer !! 0%nat ≫= (fun rs => rs !! 0%nat) = Some (Some r1)
    /\ train_loop 100 3 optimizer !! 99%nat ≫= (fun rs => rs !! 2%nat) = Some (Some r2)
    /\ (r2 <= r1)%Q.
Proof.
  destruct (lr_never_increases 100 3 0 0 99 2) as (r1 & r2 & H1 & H2 & Hle & _);
    try lia.
  exists r1, r2. auto.
Defined.

(** X10: what the 100 epochs of the script see of the schedule.  The
update counter of the run ends at [100 * steps_per_epoch - 1], so the last
update of the run is trained at 0.001 when an epoch has a single batch (the
schedule never decays), at 0.0005 when it has two, and at 0.0001 when it
has three or more. *)
Theorem fit_last_rate (steps_per_epoch : nat) :
  (0 < steps_per_epoch)%nat ->
  fit_rates steps_per_epoch !! 99%nat ≫= (fun rs => rs !! (steps_per_epoch - 1)%nat)
  = Some (Some (if (steps_per_epoch =? 1)%nat then 1 # 1000
                else if (steps_per_epoch =? 2)%nat then 5 # 10000
                else 1 # 10000))
  /\ length (fit_rates steps_per_epoch) = 100%nat.
Proof.
  intros Hpos. unfold fit_rates, epochs. split.
  - rewrite train_loop_rates by lia.
    cbn [optimizer learning_rate iterations]. rewrite lr_schedule_call.
    do 2 f_equal. unfold level.
    destruct (Nat.eqb_spec steps_per_epoch 1) as [->|H1]; [reflexivity|].
    destruct (Nat.eqb_spec steps_per_epoch 2) as [->|H2]; [reflexivity|].
    destruct (Z.leb_spec (0 + Z.of_nat (99 * steps_per_epoch + (steps_per_epoch - 1))) 100);
      [lia|].
    destruct (Z.leb_spec (0 + Z.of_nat (99 * steps_per_epoch + (steps_per_epoch - 1))) 200);
      [lia | reflexivity].
  - generalize optimizer. generalize 100%nat.
    induction n as [|n IH]; intros opt; cbn [train_loop]; [reflexivity|].
    destruct (train_epoch steps_per_epoch opt) as [rs opt1]. cbn [length]. rewrite IH.
    reflexivity.
Qed.

Lemma fit_last_rate_witness :
  fit_rates 1 !! 99%nat ≫= (fun rs => rs !! 0%nat) = Some (Some (1 # 1000)).
Proof.
  destruct (fit_last_rate 1 ltac:(lia)) as [Hlast _].
  exact Hlast.
Defined.

(** *** Which model the run leaves on disk *)

Lemma first_max_exists (accs : list Q) :
  accs <> [] ->
  exists i a,
    accs !! i = Some a
    /\ (forall j b, accs !! j = Some b -> (b <= a)%Q)
    /\ (forall j b, (j < i)%nat -> accs !! j = Some b -> (b < a)%Q).
Proof.
  induction accs as [|x accs IH] using rev_ind; [congruence|]. intros _.
  destruct accs as [|y accs'].
  - exists 0%nat, x. split; [reflexivity|]. split.
    + intros [|j] b Hj; cbn in Hj; [injection Hj as ->; apply Qle_refl | discriminate Hj].
    + intros j b Hj. lia.
  - destruct (IH ltac:(discriminate)) as (i & a & Hi & Hmax & Hfirst).
    set (l := y :: accs') in *.
    pose proof (lookup_lt_Some _ _ _ Hi) as Hlen.
    destruct (Qlt_le_dec a x) as [Hax | Hxa].
    + exists (length l), x. split; [apply list_lookup_middle; reflexivity|]. split.
      * intros j b Hj. destruct (decide (j < length l)%nat) as [Hlt|Hge].
        -- rewrite lookup_app_l in Hj by exact Hlt.
           apply Qlt_le_weak. exact (Qle_lt_trans _ _ _ (Hmax j b Hj) Hax).
        -- pose proof (lookup_lt_Some _ _ _ Hj) as Hjl. rewrite length_app in Hjl.
           change (length [x]) with 1%nat in Hjl. assert (j = length l) as -> by lia.
           rewrite list_lookup_middle in Hj by reflexivity. injection Hj as ->.
           apply Qle_refl.
      * intros j b Hlt Hj. rewrite lookup_app_l in Hj by exact Hlt.
        exact (Qle_lt_trans _ _ _ (Hmax j b Hj) Hax).
    + exists i, a. split; [rewrite lookup_app_l by exact Hlen; exact Hi|]. split.
      * intros j b Hj. destruct (decide (j < length l)%nat) as [Hlt|Hge].
        -- rewrite lookup_app_l in Hj by exact Hlt. exact (Hmax j b Hj).
        -- pose proof (lookup_lt_Some _ _ _ Hj) as Hjl. rewrite length_app in Hjl.
           change (length [x]) with 1%nat in Hjl. assert (j = length l) as -> by lia.
           rewrite list_lookup_middle in Hj by reflexivity. injection Hj as ->.
           exact Hxa.
      * intros j b Hlt Hj. rewrite lookup_app_l in Hj by lia. exact (Hfirst j b Hlt Hj).
Qed.

(** X11: the model the run leaves at [./model].  In a run of at least one
epoch there is an epoch whose validation accuracy no epoch exceeds and no
earlier epoch reaches; the callback writes the model after that epoch and
after no later one.  So the file ends up holding the model of the earliest
epoch with the best validation accuracy of the run. *)
Theorem checkpoint_keeps_first_best (accs : list Q) :
  accs <> [] ->
  let writes := fit_checkpoints cp_callback (List.map val_logs accs) in
  exists i a,
    accs !! i = Some a
    /\ (forall j b, accs !! j = Some b -> (b <= a)%Q)
    /\ (forall j b, (j < i)%nat -> accs !! j = Some b -> (b < a)%Q)
    /\ writes !! i = Some (Some (save_model "./model"))
    /\ (forall j, (i < j < length accs)%nat -> writes !! j = Some None).
Proof.
  intros Hne writes.
  destruct (first_max_exists accs Hne) as (i & a & Hi & Hmax & Hfirst).
  exists i, a. split; [exact Hi|]. split; [exact Hmax|]. split; [exact Hfirst|].
  assert (Hw : forall j b, accs !! j = Some b ->
                 writes !! j
                 = Some (if forallb (fun c => Py.Qlt_bool c b) (take j accs)
                         then Some (save_model "./model") else None)).
  { intros j b Hj. unfold writes, fit_checkpoints.
    rewrite (run_callback_lookup accs _ j b Hj). reflexivity. }
  split.
  - rewrite (Hw i a Hi).
    replace (forallb (fun c => Py.Qlt_bool c a) (take i accs)) with true; [reflexivity|].
    symmetry. apply forallb_take_lookup. intros j b Hj Hb.
    apply Qlt_bool_iff. exact (Hfirst j b Hj Hb).
  - intros j [Hij Hjl].
    destruct (lookup_lt_is_Some_2 accs j Hjl) as [b Hb].
    rewrite (Hw j b Hb).
    destruct (forallb (fun c => Py.Qlt_bool c b) (take j accs)) eqn:Eall; [|reflexivity].
    exfalso. pose proof (proj1 (forallb_take_lookup _ _ _) Eall i a Hij Hi) as Hlt.
    apply Qlt_bool_iff in Hlt. exact (Qlt_not_le _ _ Hlt (Hmax j b Hb)).
Qed.

Lemma checkpoint_keeps_first_best_witness :
  exists i a,
    made_up_accuracies !! i = Some a
    /\ fit_checkpoints cp_callback (List.map val_logs made_up_accuracies) !! i
       = Some (Some (save_model "./model"))
    /\ (forall j b, made_up_accuracies !! j = Some b -> (b <= a)%Q).
Proof.
  destruct (checkpoint_keeps_first_best made_up_accuracies ltac:(discriminate))
    as (i & a & Hi & Hmax & _ & Hw & _).
  exists i, a. auto.
Defined.

End TrainingSpec.

(** ** The two metrics of [model.compile] *)
Module MetricSpec.
Import Keras.

Lemma Qlt_bool_false (a b : Q) : Py.Qlt_bool a b = false <-> (b <= a)%Q.
Proof.
  unfold Py.Qlt_bool. rewrite negb_false_iff. apply Qle_bool_iff.
Qed.

Lemma Qlt_bool_true (a b : Q) : Py.Qlt_bool a b = true -> (a <= b)%Q.
Proof.
  intros Hlt. destruct (Qlt_le_dec b a) as [Hba|Hab]; [|exact Hab].
  apply Qlt_le_weak in Hba. apply Qlt_bool_false in Hba. congruence.
Qed.

(** The scan keeps the index of a largest entry seen so far. *)
Lemma argmax_from_spec (rest pre : list Q) (best : Q) (ibest : nat) :
  pre !! ibest = Some best ->
  (forall q, q ∈ pre -> (q <= best)%Q) ->
  exists p,
    (pre ++ rest) !! argmax_from best ibest (length pre) rest = Some p
    /\ forall q, q ∈ pre ++ rest -> (q <= p)%Q.
Proof.
  revert pre best ibest.
  induction rest as [|x rest IH]; intros pre best ibest Hbest Hmax; cbn [argmax_from].
  - exists best. rewrite app_nil_r. auto.
  - replace (pre ++ x :: rest) with ((pre ++ [x]) ++ rest)
      by (rewrite <- app_assoc; reflexivity).
    replace (S (length pre)) with (length (pre ++ [x]))
      by (rewrite length_app; cbn; apply Nat.add_1_r).
    destruct (Py.Qlt_bool best x) eqn:Elt.
    + apply IH.
      * apply list_lookup_middle. reflexivity.
      * intros q Hq. apply elem_of_app in Hq as [Hq|Hq].
        -- apply Qle_trans with best; [exact (Hmax q Hq) | exact (Qlt_bool_true _ _ Elt)].
        -- apply list_elem_of_singleton in Hq as ->. apply Qle_refl.
    + apply IH.
      * apply lookup_app_l_Some. exact Hbest.
      * intros q Hq. apply elem_of_app in Hq as [Hq|Hq].
        -- exact (Hmax q Hq).
        -- apply list_elem_of_singleton in Hq as ->. apply Qlt_bool_false. exact Elt.
Qed.

Lemma argmax_spec (row : list Q) :
  row <> [] ->
  exists p, row !! argmax row = Some p /\ forall q, q ∈ row -> (q <= p)%Q.
Proof.
  destruct row as [|x rest]; [congruence|]. intros _.
  apply (argmax_from_spec rest [x] x 0%nat); [reflexivity|].
  intros q Hq. apply list_elem_of_singleton in Hq as ->. apply Qle_refl.
Qed.

Lemma filter_none {A : Type} (f : A -> bool) (l : list A) :
  (forall x, x ∈ l -> f x = false) -> List.filter f l = [].
Proof.
  induction l as [|x l IH]; intros Hall; [reflexivity|].
  cbn [List.filter]. rewrite (Hall x ltac:(left)). apply IH.
  intros y Hy. apply Hall. right. exact Hy.
Qed.

Lemma filter_length_le {A : Type} (f g : A -> bool) (l : list A) :
  (forall x, x ∈ l -> f x = true -> g x = true) ->
  (length (List.filter f l) <= length (List.filter g l))%nat.
Proof.
  induction l as [|x l IH]; intros Himp; [reflexivity|].
  assert (IH' := IH (fun y Hy => Himp y ltac:(right; exact Hy))).
  pose proof (Himp x ltac:(left)) as Hx.
  cbn [List.filter]. destruct (f x).
  - rewrite (Hx eq_refl). cbn [length]. apply le_n_S. exact IH'.
  - destruct (g x); [cbn [length]; apply Nat.le_le_succ_r|]; exact IH'.
Qed.

(** A sample the accuracy counts is a sample the top-2 accuracy counts. *)
Lemma accuracy_hit_is_top_2_hit (y_true y_pred : list Q) :
  y_pred <> [] ->
  categorical_accuracy y_true y_pred = true -> top_2_acc y_true y_pred = true.
Proof.
  intros Hne Hacc. apply Nat.eqb_eq in Hacc.
  unfold top_2_acc, top_k_categorical_accuracy, in_top_k. rewrite Hacc.
  destruct (argmax_spec y_pred Hne) as (p & -> & Hmax).
  rewrite filter_none; [reflexivity|].
  intros q Hq. apply Qlt_bool_false. exact (Hmax q Hq).
Qed.

(** X13: of the two metrics the model is compiled with, the top-2 accuracy
is never below the accuracy: over any samples whose prediction rows have at
least one class, every sample that counts for the accuracy (the first
largest prediction sits at the label's class) counts for the top-2 accuracy
as well, so the reported shares are ordered.  An empty prediction row would
break this: both arg-max are 0, while no class is in the top 2 of an empty
row. *)
Theorem top_2_acc_at_least_accuracy (samples : list (list Q * list Q)) :
  List.Forall (fun s => snd s <> []) samples ->
  (metric_result categorical_accuracy samples <= metric_result top_2_acc samples)%Q.
Proof.
  intros Hrows. unfold metric_result.
  destruct (Nat.eqb (length samples) 0) eqn:Elen; [apply Qle_refl|].
  apply Nat.eqb_neq in Elen.
  unfold Qdiv. apply Qmult_le_compat_r.
  - rewrite <- Zle_Qle. apply Nat2Z.inj_le. apply filter_length_le.
    intros s Hs. rewrite List.Forall_forall in Hrows.
    apply accuracy_hit_is_top_2_hit. apply Hrows. apply list_elem_of_In. exact Hs.
  - apply Qinv_le_0_compat. change 0%Q with (inject_Z 0). rewrite <- Zle_Qle.
    apply Nat2Z.is_nonneg.
Qed.

Lemma top_2_acc_at_least_accuracy_witness :
  (metric_result categorical_accuracy
     [([0; 1; 0; 0], [1 # 10; 2 # 10; 3 # 10; 4 # 10]);
      ([0; 0; 0; 1], [1 # 10; 2 # 10; 3 # 10; 4 # 10]);
      ([0; 0; 1; 0], [1 # 10; 2 # 10; 3 # 10; 4 # 10])]
   <= metric_result top_2_acc
     [([0; 1; 0; 0], [1 # 10; 2 # 10; 3 # 10; 4 # 10]);
      ([0; 0; 0; 1], [1 # 10; 2 # 10; 3 # 10; 4 # 10]);
      ([0; 0; 1; 0], [1 # 10; 2 # 10; 3 # 10; 4 # 10])])%Q.
Proof.
  apply top_2_acc_at_least_accuracy.
  repeat constructor; discriminate.
Defined.

End MetricSpec.
